(** * usage-dashboard: the Express server and its PostgreSQL statements

    A shallow embedding of the server and of [sql/001_init.sql].  The
    repository holds the server in two versions; the development follows
    the larger one, which has rate limiting, retention pruning and the
    stats endpoint, and gives the differences of the smaller one,
    [server/index.js], in the module [Small].  Every route handler is a
    function from the request, the clock reading and the database to a
    response and a new database; every SQL statement is a function on the
    three tables.

    Conventions.
    - Timestamps ([timestamptz], [now()]) are integers: microseconds
      since 1970-01-01 00:00 UTC, the epoch of [Date.now()].  The
      session time zone is a fixed offset, so a day is [day_us]
      microseconds.
    - A JSON number is a whole number that JavaScript holds exactly
      ([Number.isSafeInteger]); fractional numbers and numbers of a
      magnitude of 2^53 and more are outside the model.
    - A request is one that got past [express.json] and
      [express.static]: its body is the parsed JSON object. *)

From Stdlib Require Import ZArith Lia Ascii.
From stdpp Require Import gmap strings list fin_maps pretty sorting.

Local Open Scope Z_scope.

(** ** JavaScript values *)

Module Js.

(** [Number.MAX_SAFE_INTEGER], 2^53 - 1 *)
Definition max_safe_integer : Z := 9007199254740991.

(** [Number.isSafeInteger(n)] *)
Definition is_safe (n : Z) : bool :=
  (- max_safe_integer <=? n) && (n <=? max_safe_integer).

(** The numbers of the model: the whole numbers that a JavaScript number
    holds exactly.  [Number.prototype.toString] prints every digit of
    such a number; from 2^53 on it prints the digits of the nearest
    double, and from 10^21 on an exponent, which is why the model stops
    here. *)
Record number := Number {
  number_value :> Z;
  number_safe : Is_true (is_safe number_value)
}.

(** A numeral, as a number. *)
Notation "'num' n" := (Number n I) (at level 10, n at level 9, only parsing).

#[global] Instance number_eq_dec : EqDecision number.
Proof.
  intros [n Hn] [m Hm]. destruct (decide (n = m)) as [->|Hne].
  - left. f_equal. apply proof_irrel.
  - right. intros [= ?]. by destruct Hne.
Defined.

(** The values a parsed JSON body can hold in a field, plus
    [undefined] for a field that is absent.  [JRef] is an array or an
    object: always truthy; it carries the text node-postgres binds for
    it. *)
Inductive jsval :=
| JUndefined
| JNull
| JBool (b : bool)
| JNum (n : number)
| JStr (s : string)
| JRef (bound : string).

#[global] Instance jsval_eq_dec : EqDecision jsval.
Proof. solve_decision. Defined.

(** ToBoolean *)
Definition truthy (v : jsval) : bool :=
  match v with
  | JUndefined | JNull => false
  | JBool b => b
  | JNum n => negb (n =? 0)
  | JStr s => negb (String.eqb s "")
  | JRef _ => true
  end.

(** [v || null] *)
Definition or_null (v : jsval) : jsval := if truthy v then v else JNull.

(** A destructuring default, [{ f = d }]: used only for [undefined]. *)
Definition with_default (d v : jsval) : jsval :=
  match v with JUndefined => d | _ => v end.

(** [req.body || {}], then the property read of a destructuring
    pattern: an absent property reads as [undefined]. *)
Definition field (body : gmap string jsval) (k : string) : jsval :=
  default JUndefined (body !! k).

(** A string-or-undefined value, as [process.env.X] and
    [req.get(h)] are. *)
Definition of_opt (o : option string) : jsval :=
  match o with Some s => JStr s | None => JUndefined end.

End Js.
Export Js.

(** ** Responses *)

Module Http.

(** The JSON bodies the middleware and the validation branches send. *)
Inductive error_body :=
| ErrorCode (error : string)                        (* { error } *)
| ErrorRetry (error : string) (retry_after : Z).    (* { error, retry_after } *)

#[global] Instance error_body_eq_dec : EqDecision error_body.
Proof. solve_decision. Defined.

End Http.
Export Http.

(** ** [requireToken] *)

Module Auth.

(** [\s] on a header value.  Node decodes header bytes as latin1, so
    the characters are the 8-bit ones: TAB, LF, VT, FF, CR, SPACE and
    NBSP. *)
Definition is_space (c : ascii) : bool :=
  let n := Z.of_nat (nat_of_ascii c) in
  ((9 <=? n) && (n <=? 13)) || (n =? 32) || (n =? 160).

(** ASCII lower-casing of one character, for the [/i] flag. *)
Definition lower (c : ascii) : ascii :=
  let n := nat_of_ascii c in
  if ((65 <=? n) && (n <=? 90))%nat then ascii_of_nat (n + 32) else c.

(** [prefix_ci p s]: [s] without the prefix [p], when [s] starts with
    [p] up to letter case. *)
Fixpoint prefix_ci (p s : string) : option string :=
  match p, s with
  | EmptyString, _ => Some s
  | String a p', String b s' =>
      if Ascii.eqb (lower a) (lower b) then prefix_ci p' s' else None
  | String _ _, EmptyString => None
  end.

Fixpoint drop_spaces (s : string) : string :=
  match s with
  | String c s' => if is_space c then drop_spaces s' else s
  | EmptyString => EmptyString
  end.

(** [h.replace(/^Bearer\s+/i, "")] *)
Definition strip_bearer (h : string) : string :=
  match prefix_ci "Bearer" h with
  | Some (String c rest) =>
      if is_space c then drop_spaces rest else h
  | _ => h
  end.

Inductive mw_result :=
| Next
| Reply (status : Z) (body : error_body).

(** [req.get("authorization")?.replace(/^Bearer\s+/i, "")] *)
Definition presented (authorization : option string) : jsval :=
  of_opt (strip_bearer <$> authorization).

(** [requireToken(req, res, next)].  [expected] is
    [process.env.DASHBOARD_TOKEN]; [got !== expected] is strict
    inequality of two string-or-undefined values. *)
Definition requireToken (DASHBOARD_TOKEN authorization : option string)
  : mw_result :=
  let expected := of_opt DASHBOARD_TOKEN in
  let got := presented authorization in
  if negb (truthy expected) then Reply 500 (ErrorCode "server_not_configured")
  else if negb (bool_decide (got = expected)) then Reply 401 (ErrorCode "unauthorized")
  else Next.

End Auth.
Export Auth.

(** ** express-rate-limit *)

Module RateLimit.

(** One client's window in the limiter's memory store. *)
Record window := { totalHits : Z; resetTime : Z }.

#[global] Instance window_eq_dec : EqDecision window.
Proof. solve_decision. Defined.

(** The options of [rateLimit({...})]. *)
Record options := {
  windowMs : Z;
  max : Z;
  message : error_body
}.

(** [usageLimiter] *)
Definition usageLimiter : options :=
  {| windowMs := 60 * 1000;
     max := 100;
     message := ErrorRetry "rate_limit_exceeded" 60 |}.

(** [apiLimiter]: declared, mounted on no route. *)
Definition apiLimiter : options :=
  {| windowMs := 60 * 1000;
     max := 200;
     message := ErrorCode "rate_limit_exceeded" |}.

(** Modelled from the spec: the store of the express-rate-limit
    package, which is a dependency and not part of the sources.  The
    spec calls it a simple fixed-window per-source-IP counter: a
    client's first request opens a window of [windowMs] milliseconds,
    every request in the window adds one hit, and a request that
    arrives once the window is over opens a new one.  [clock] is
    [Date.now()], in milliseconds. *)
Definition increment (o : options) (clock : Z) (key : string)
    (store : gmap string window) : window :=
  match store !! key with
  | Some w =>
      if resetTime w <=? clock
      then {| totalHits := 1; resetTime := clock + windowMs o |}
      else {| totalHits := totalHits w + 1; resetTime := resetTime w |}
  | None => {| totalHits := 1; resetTime := clock + windowMs o |}
  end.

(** Modelled from the spec: the middleware [rateLimit(o)] returns.
    The request is counted first; when the client's hits exceed [max]
    the middleware answers 429 with [message] and does not call
    [next()].  The key is [req.ip]. *)
Definition limit (o : options) (clock : Z) (key : string)
    (store : gmap string window) : mw_result * gmap string window :=
  let w := increment o clock key store in
  (if max o <? totalHits w then Reply 429 (message o) else Next,
   <[key := w]> store).

End RateLimit.
Export RateLimit.

(** ** The schema: [sql/001_init.sql] *)

(** A nullable column is an [option]; [None] is SQL [NULL]. *)

Module App.
Record t := {
  id : Z;                        (* bigserial primary key *)
  slug : string;                 (* text unique not null *)
  name : string;                 (* text not null *)
  repo_url : option string;
  public_url : option string;
  created_at : Z                 (* timestamptz not null default now() *)
}.
End App.

Module Deployment.
Record t := {
  id : Z;
  app_id : Z;                    (* references apps(id) *)
  environment : string;          (* text not null default 'prod' *)
  version : option string;
  note : option string;
  deployed_by : option string;
  deployed_at : Z
}.
End Deployment.

(** [error_message] is not a column of [001_init.sql]; the insert of
    POST /api/usage names it, so the table the server runs against has
    it, as a nullable text. *)
Module UsageEvent.
Record t := {
  id : Z;
  app_id : Z;
  ts : Z;
  kind : string;                 (* text not null default 'request' *)
  method : option string;
  path : option string;
  status : option Z;             (* int *)
  ip : option string;            (* inet *)
  user_agent : option string;
  error_message : option string
}.
End UsageEvent.

#[global] Instance app_eq_dec : EqDecision App.t.
Proof. solve_decision. Defined.
#[global] Instance deployment_eq_dec : EqDecision Deployment.t.
Proof. solve_decision. Defined.
#[global] Instance usage_event_eq_dec : EqDecision UsageEvent.t.
Proof. solve_decision. Defined.

Module Pg.

(** The three tables and the sequences behind their [bigserial]
    keys. *)
Record database := {
  apps : list App.t;
  deployments : list Deployment.t;
  usage_events : list UsageEvent.t;
  apps_id_seq : Z;
  deployments_id_seq : Z;
  usage_events_id_seq : Z
}.

#[global] Instance database_eq_dec : EqDecision database.
Proof. solve_decision. Defined.

Definition empty : database :=
  {| apps := []; deployments := []; usage_events := [];
     apps_id_seq := 1; deployments_id_seq := 1; usage_events_id_seq := 1 |}.

(** What the server sees of the PostgreSQL session: the input
    functions of the column types that are not text, and the time
    zone.  An input function returns [None] when it rejects the
    text.  [int4_in] is the whole number the input function of [int]
    reads in a text, before it checks the range: [None] is a text that
    is no whole number. *)
Class Session := {
  int4_in : string → option Z;
  inet_in : string → option string;
  inet_out : string → string;    (* [ip::text] *)
  float8_in : string → option Z; (* whole numbers only *)
  text_le : string → string → bool; (* the collation's order on text *)
  utc_offset : Z                 (* microseconds east of UTC *)
}.

Inductive pg_error :=
| not_null_violation (column : string)
| invalid_text_representation (column : string)
| numeric_value_out_of_range
| datetime_field_overflow        (* interval or timestamp out of range *)
| foreign_key_violation
| connection_failure.

#[global] Instance pg_error_eq_dec : EqDecision pg_error.
Proof. solve_decision. Defined.

Inductive result (A : Type) :=
| Ok (a : A)
| Err (e : pg_error).
Arguments Ok {A} a.
Arguments Err {A} e.

(** The text node-postgres sends for a query parameter; [null] and
    [undefined] are sent as [NULL], and a number as
    [Number.prototype.toString] prints it: the digits of a number of the
    model. *)
Definition bind (v : jsval) : option string :=
  match v with
  | JUndefined | JNull => None
  | JBool b => Some (if b then "true" else "false")
  | JNum n => Some (pretty (n : Z))
  | JStr s => Some s
  | JRef t => Some t
  end.

Definition int4_min : Z := -2147483648.
Definition int4_max : Z := 2147483647.

(** [n::int] *)
Definition int4 (n : Z) : option Z :=
  if (int4_min <=? n) && (n <=? int4_max) then Some n else None.

(** The range check of the input function of [int], on the whole number
    it has read. *)
Definition int4_range (n : Z) : result (option Z) :=
  match int4 n with
  | Some n => Ok (Some n)
  | None => Err numeric_value_out_of_range
  end.

(** A parameter read into a nullable [int] column.  The input function
    reads the text that was bound.  For a number that text is its digits,
    so that only the range check can fail; any other text may be no whole
    number at all. *)
Definition to_int4 `{Session} (column : string) (v : jsval) : result (option Z) :=
  match v with
  | JUndefined | JNull => Ok None
  | JNum n => int4_range n
  | _ =>
      match bind v ≫= int4_in with
      | Some n => int4_range n
      | None => Err (invalid_text_representation column)
      end
  end.

(** A parameter read into a nullable [inet] column. *)
Definition to_inet `{Session} (column : string) (v : jsval) : result (option string) :=
  match bind v with
  | None => Ok None
  | Some t =>
      match inet_in t with
      | Some a => Ok (Some a)
      | None => Err (invalid_text_representation column)
      end
  end.

(** A parameter read into a [text not null] column. *)
Definition to_text_not_null (column : string) (v : jsval) : result string :=
  match bind v with
  | Some t => Ok t
  | None => Err (not_null_violation column)
  end.

Definition hour_us : Z := 3600 * 1000000.
Definition day_us : Z := 24 * hour_us.

(** The timestamps PostgreSQL holds: from Julian day 0, in the year
    4714 BC, to the end of the year 294276, which is Julian day
    109203528.  The epoch, 1970-01-01, is Julian day 2440588. *)
Definition timestamp_min : Z := (0 - 2440588) * day_us.
Definition timestamp_end : Z := (109203528 - 2440588) * day_us.

(** [date_trunc('day', ts)::date], as a day number. *)
Definition date_trunc_day `{Session} (ts : Z) : Z := (ts + utc_offset) `div` day_us.

End Pg.
Export Pg.

(** ** Relational operators *)

Module Rel.

Section operators.
Context {A K : Type} `{EqDecision K}.
Variable key : A → K.

(** [group by key]: one group per distinct key, holding the rows of
    that key in table order. *)
Definition group_by (l : list A) : list (K * list A) :=
  (λ k, (k, filter (λ x, key x = k) l)) <$> remove_dups (key <$> l).

Fixpoint distinct_after (prev : K) (l : list A) : list A :=
  match l with
  | [] => []
  | x :: l' =>
      if decide (key x = prev) then distinct_after prev l'
      else x :: distinct_after (key x) l'
  end.

(** [select distinct on (key)] over rows that arrive sorted: the
    first row of every run of equal keys. *)
Definition distinct_on (l : list A) : list A :=
  match l with
  | [] => []
  | x :: l' => x :: distinct_after (key x) l'
  end.
End operators.

(** [a left join l on P]: the matching rows of [l], or one row of
    nulls when there is none. *)
Definition left_join {B : Type} (P : B → Prop) `{∀ b, Decision (P b)}
    (l : list B) : list (option B) :=
  match filter P l with
  | [] => [None]
  | ms => Some <$> ms
  end.

(** [sum(x)] over a list of integers. *)
Definition sum (l : list Z) : Z := foldr Z.add 0 l.

End Rel.
Export Rel.

(** ** The statements the server sends *)

Module Sql.

Definition set_apps (l : list App.t) (s : Z) (db : database) : database :=
  {| apps := l; deployments := deployments db; usage_events := usage_events db;
     apps_id_seq := s; deployments_id_seq := deployments_id_seq db;
     usage_events_id_seq := usage_events_id_seq db |}.

Definition set_deployments (l : list Deployment.t) (s : Z) (db : database) : database :=
  {| apps := apps db; deployments := l; usage_events := usage_events db;
     apps_id_seq := apps_id_seq db; deployments_id_seq := s;
     usage_events_id_seq := usage_events_id_seq db |}.

Definition set_usage_events (l : list UsageEvent.t) (s : Z) (db : database) : database :=
  {| apps := apps db; deployments := deployments db; usage_events := l;
     apps_id_seq := apps_id_seq db; deployments_id_seq := deployments_id_seq db;
     usage_events_id_seq := s |}.

(** The [do update set] of the upsert. *)
Definition excluded (n : string) (r p : option string) (a : App.t) : App.t :=
  {| App.id := App.id a; App.slug := App.slug a; App.name := n;
     App.repo_url := r; App.public_url := p; App.created_at := App.created_at a |}.

(** [insert into apps (slug, name, repo_url, public_url)
     values ($1,$2,$3,$4)
     on conflict (slug) do update set name = excluded.name,
       repo_url = excluded.repo_url, public_url = excluded.public_url
     returning *]

    The sequence is advanced for the proposed row, also when the
    row conflicts or is refused. *)
Definition upsert_app (now : Z) (p1 p2 p3 p4 : jsval) (db : database)
  : result App.t * database :=
  let id := apps_id_seq db in
  match to_text_not_null "slug" p1, to_text_not_null "name" p2 with
  | Err e, _ | _, Err e => (Err e, set_apps (apps db) (id + 1) db)
  | Ok s, Ok n =>
      match filter (λ a, App.slug a = s) (apps db) with
      | [] =>
          let row := {| App.id := id; App.slug := s; App.name := n;
                        App.repo_url := bind p3; App.public_url := bind p4;
                        App.created_at := now |} in
          (Ok row, set_apps (apps db ++ [row]) (id + 1) db)
      | old :: _ =>
          let upd := excluded n (bind p3) (bind p4) in
          (Ok (upd old),
           set_apps ((λ a, if decide (App.slug a = s) then upd a else a) <$> apps db)
                    (id + 1) db)
      end
  end.

(** [select id from apps where slug=$1] *)
Definition select_app_id (p1 : jsval) (db : database) : list Z :=
  App.id <$> filter (λ a, Some (App.slug a) = bind p1) (apps db).

(** [insert into deployments (app_id, environment, version, note, deployed_by)
     values ($1,$2,$3,$4,$5) returning *] *)
Definition insert_deployment (now : Z) (p1 : Z) (p2 p3 p4 p5 : jsval) (db : database)
  : result Deployment.t * database :=
  let id := deployments_id_seq db in
  let db1 := set_deployments (deployments db) (id + 1) db in
  match to_text_not_null "environment" p2 with
  | Err e => (Err e, db1)
  | Ok env =>
      if decide (p1 ∈ App.id <$> apps db) then
        let row := {| Deployment.id := id; Deployment.app_id := p1;
                      Deployment.environment := env;
                      Deployment.version := bind p3; Deployment.note := bind p4;
                      Deployment.deployed_by := bind p5;
                      Deployment.deployed_at := now |} in
        (Ok row, set_deployments (deployments db ++ [row]) (id + 1) db)
      else (Err foreign_key_violation, db1)
  end.

(** [insert into usage_events
       (app_id, kind, method, path, status, ip, user_agent, error_message)
     values ($1,$2,$3,$4,$5,$6,$7,$8) returning *]

    The texts of [$5] and [$6] are read by the input functions of
    [int] and [inet] when the parameters are bound, before the
    statement runs. *)
Definition insert_usage_event `{Session} (now : Z) (p1 : Z)
    (p2 p3 p4 p5 p6 p7 p8 : jsval) (db : database)
  : result UsageEvent.t * database :=
  match to_int4 "status" p5, to_inet "ip" p6 with
  | Err e, _ | _, Err e => (Err e, db)
  | Ok st, Ok addr =>
      let id := usage_events_id_seq db in
      let db1 := set_usage_events (usage_events db) (id + 1) db in
      match to_text_not_null "kind" p2 with
      | Err e => (Err e, db1)
      | Ok k =>
          if decide (p1 ∈ App.id <$> apps db) then
            let row := {| UsageEvent.id := id; UsageEvent.app_id := p1;
                          UsageEvent.ts := now; UsageEvent.kind := k;
                          UsageEvent.method := bind p3; UsageEvent.path := bind p4;
                          UsageEvent.status := st; UsageEvent.ip := addr;
                          UsageEvent.user_agent := bind p7;
                          UsageEvent.error_message := bind p8 |} in
            (Ok row, set_usage_events (usage_events db ++ [row]) (id + 1) db)
          else (Err foreign_key_violation, db1)
      end
  end.

(** *** GET /api/dashboard/overview *)

(** [order by d.app_id, d.deployed_at desc] *)
Definition deploy_order (d1 d2 : Deployment.t) : Prop :=
  Deployment.app_id d1 < Deployment.app_id d2 ∨
  (Deployment.app_id d1 = Deployment.app_id d2 ∧
   Deployment.deployed_at d2 ≤ Deployment.deployed_at d1).

#[global] Instance deploy_order_dec : RelDecision deploy_order.
Proof. intros d1 d2; unfold deploy_order; apply _. Defined.

(** [last_deploy as (select distinct on (d.app_id) ... from deployments d
     order by d.app_id, d.deployed_at desc)] *)
Definition last_deploy (db : database) : list Deployment.t :=
  distinct_on Deployment.app_id (merge_sort deploy_order (deployments db)).

(** [count( * )::int] of every group. *)
Definition count_int {K A : Type} (gs : list (K * list A)) : option (list (K * Z)) :=
  mapM (λ g, (λ n, (g.1, n)) <$> int4 (Z.of_nat (length g.2))) gs.

(** [usage_24h as (select app_id, count( * )::int as hits_24h
     from usage_events where ts >= now() - interval '24 hours'
     group by app_id)] *)
Definition usage_24h (now : Z) (db : database) : option (list (Z * Z)) :=
  count_int (group_by UsageEvent.app_id
    (filter (λ e, now - 24 * hour_us ≤ UsageEvent.ts e) (usage_events db))).

Record overview_row := {
  o_slug : string;
  o_name : string;
  o_public_url : option string;
  o_repo_url : option string;
  o_deployed_at : option Z;
  o_environment : option string;
  o_version : option string;
  o_note : option string;
  o_hits_24h : Z
}.

(** The select list of the overview, for one joined row. *)
Definition overview_select (a : App.t) (ld : option Deployment.t) (u : option (Z * Z))
  : overview_row :=
  {| o_slug := App.slug a; o_name := App.name a;
     o_public_url := App.public_url a; o_repo_url := App.repo_url a;
     o_deployed_at := Deployment.deployed_at <$> ld;
     o_environment := Deployment.environment <$> ld;
     o_version := ld ≫= Deployment.version;
     o_note := ld ≫= Deployment.note;
     o_hits_24h := default 0 (snd <$> u) (* coalesce(u.hits_24h, 0) *) |}.

(** [from apps a left join last_deploy ld on ld.app_id = a.id
     left join usage_24h u on u.app_id = a.id] *)
Definition overview_join (lds : list Deployment.t) (us : list (Z * Z))
    (l : list App.t) : list overview_row :=
  a ← l;
  ld ← left_join (λ d, Deployment.app_id d = App.id a) lds;
  u ← left_join (λ u, u.1 = App.id a) us;
  [overview_select a ld u].

(** [order by a.name asc] *)
Definition name_order `{Session} (r1 r2 : overview_row) : Prop :=
  text_le (o_name r1) (o_name r2) = true.

#[global] Instance name_order_dec `{Session} : RelDecision name_order.
Proof. intros r1 r2; unfold name_order; apply _. Defined.

Definition overview `{Session} (now : Z) (db : database) : result (list overview_row) :=
  match usage_24h now db with
  | None => Err numeric_value_out_of_range
  | Some us =>
      Ok (merge_sort name_order (overview_join (last_deploy db) us (apps db)))
  end.

(** *** GET /api/dashboard/analytics *)

(** [order by date asc] *)
Definition date_order (r1 r2 : Z * Z) : Prop := r1.1 ≤ r2.1.

#[global] Instance date_order_dec : RelDecision date_order.
Proof. intros r1 r2; unfold date_order; apply _. Defined.

(** [order by total desc], on rows whose second column is the total. *)
Definition total_desc {K : Type} (r1 r2 : K * Z) : Prop := r2.2 ≤ r1.2.

#[global] Instance total_desc_dec {K : Type} : RelDecision (@total_desc K).
Proof. intros r1 r2; unfold total_desc; apply _. Defined.

(** [where ts >= now() - interval '7 days'] *)
Definition last_7_days (now : Z) (l : list UsageEvent.t) : list UsageEvent.t :=
  filter (λ e, now - 7 * day_us ≤ UsageEvent.ts e) l.

(** [dailyQ]:
    [select date_trunc('day', ts)::date as date, count( * )::int as total
     from usage_events where ts >= now() - interval '7 days'
     group by date_trunc('day', ts) order by date asc] *)
Definition dailyQ `{Session} (now : Z) (db : database) : result (list (Z * Z)) :=
  match count_int (group_by (λ e, date_trunc_day (UsageEvent.ts e))
                     (last_7_days now (usage_events db))) with
  | None => Err numeric_value_out_of_range
  | Some rows => Ok (merge_sort date_order rows)
  end.

(** [from usage_events ue join apps a on a.id = ue.app_id] *)
Definition usage_join_apps (db : database) (l : list UsageEvent.t)
  : list (UsageEvent.t * App.t) :=
  ue ← l;
  a ← filter (λ a, App.id a = UsageEvent.app_id ue) (apps db);
  [(ue, a)].

(** [byAppQ]:
    [select a.name as app_name, count( * )::int as total
     from usage_events ue join apps a on a.id = ue.app_id
     where ue.ts >= now() - interval '7 days'
     group by a.name order by total desc limit 10] *)
Definition byAppQ (now : Z) (db : database) : result (list (string * Z)) :=
  match count_int (group_by (λ r, App.name r.2)
                     (usage_join_apps db (last_7_days now (usage_events db)))) with
  | None => Err numeric_value_out_of_range
  | Some rows => Ok (take 10 (merge_sort total_desc rows))
  end.

(** [recentDeploysQ]:
    [select count( * )::int as total from deployments
     where deployed_at >= now() - interval '7 days'] *)
Definition recentDeploysQ (now : Z) (db : database) : result (list Z) :=
  match int4 (Z.of_nat (length
          (filter (λ d, now - 7 * day_us ≤ Deployment.deployed_at d) (deployments db)))) with
  | None => Err numeric_value_out_of_range
  | Some n => Ok [n]
  end.

(** *** GET /api/dashboard/deployments *)

Record history_row := {
  h_deployed_at : Z;
  h_environment : string;
  h_version : option string;
  h_note : option string;
  h_deployed_by : option string;
  h_app_name : string;
  h_app_slug : string
}.

(** [order by d.deployed_at desc] *)
Definition newest_first (r1 r2 : history_row) : Prop :=
  h_deployed_at r2 ≤ h_deployed_at r1.

#[global] Instance newest_first_dec : RelDecision newest_first.
Proof. intros r1 r2; unfold newest_first; apply _. Defined.

(** [select d.deployed_at, d.environment, d.version, d.note, d.deployed_by,
            a.name as app_name, a.slug as app_slug
     from deployments d join apps a on a.id = d.app_id
     order by d.deployed_at desc limit 50] *)
Definition deployment_history (db : database) : list history_row :=
  take 50 (merge_sort newest_first (
    d ← deployments db;
    a ← filter (λ a, App.id a = Deployment.app_id d) (apps db);
    [{| h_deployed_at := Deployment.deployed_at d;
        h_environment := Deployment.environment d;
        h_version := Deployment.version d;
        h_note := Deployment.note d;
        h_deployed_by := Deployment.deployed_by d;
        h_app_name := App.name a;
        h_app_slug := App.slug a |}])).

(** *** GET /api/dashboard/routes *)

Record route_row := {
  r_path : option string;
  r_method : option string;
  r_total_hits : Z;
  r_errors : Z;
  r_avg_status : option Z          (* in tenths *)
}.

(** [status >= 400]; a null status does not satisfy it. *)
Definition is_error (e : UsageEvent.t) : Prop :=
  match UsageEvent.status e with Some s => 400 ≤ s | None => False end.

#[global] Instance is_error_dec e : Decision (is_error e).
Proof. unfold is_error; destruct (UsageEvent.status e); apply _. Defined.

(** [a / n] rounded to the nearest integer, halves away from zero. *)
Definition round_div (a n : Z) : Z :=
  if 0 <=? a then (2 * a + n) `div` (2 * n) else - ((2 * (- a) + n) `div` (2 * n)).

(** [round(avg(status)::numeric, 1)], in tenths; null when no row of the
    group has a status. *)
Definition avg_status (g : list UsageEvent.t) : option Z :=
  match omap UsageEvent.status g with
  | [] => None
  | ss => Some (round_div (10 * sum ss) (Z.of_nat (length ss)))
  end.

(** [order by total_hits desc] *)
Definition hits_desc (r1 r2 : route_row) : Prop := r_total_hits r2 ≤ r_total_hits r1.

#[global] Instance hits_desc_dec : RelDecision hits_desc.
Proof. intros r1 r2; unfold hits_desc; apply _. Defined.

Definition route_select (g : (option string * option string) * list UsageEvent.t)
  : option route_row :=
  hits ← int4 (Z.of_nat (length g.2));
  errs ← int4 (Z.of_nat (length (filter is_error g.2)));
  Some {| r_path := g.1.1; r_method := g.1.2; r_total_hits := hits;
          r_errors := errs; r_avg_status := avg_status g.2 |}.

(** [select path, method, count( * )::int as total_hits,
            count( * ) filter (where status >= 400)::int as errors,
            round(avg(status)::numeric, 1) as avg_status
     from usage_events
     where ts >= now() - interval '7 days' and path is not null
     group by path, method order by total_hits desc limit 50] *)
Definition route_breakdown (now : Z) (db : database) : result (list route_row) :=
  match mapM route_select
          (group_by (λ e, (UsageEvent.path e, UsageEvent.method e))
             (filter (λ e, UsageEvent.path e ≠ None)
                (last_7_days now (usage_events db)))) with
  | None => Err numeric_value_out_of_range
  | Some rows => Ok (take 50 (merge_sort hits_desc rows))
  end.

(** *** GET /api/dashboard/errors *)

Record error_row := {
  e_app_name : string;
  e_path : option string;
  e_method : option string;
  e_status : option Z;
  e_error_message : option string;
  e_ts : Z;
  e_ip : option string
}.

(** [order by ue.ts desc] *)
Definition latest_first (r1 r2 : error_row) : Prop := e_ts r2 ≤ e_ts r1.

#[global] Instance latest_first_dec : RelDecision latest_first.
Proof. intros r1 r2; unfold latest_first; apply _. Defined.

(** [select a.name as app_name, ue.path, ue.method, ue.status,
            ue.error_message, ue.ts, ue.ip::text
     from usage_events ue join apps a on a.id = ue.app_id
     where ue.status >= 400 and ue.ts >= now() - interval '24 hours'
     order by ue.ts desc limit 100] *)
Definition error_feed `{Session} (now : Z) (db : database) : list error_row :=
  take 100 (merge_sort latest_first (
    (λ r : UsageEvent.t * App.t,
       {| e_app_name := App.name r.2;
          e_path := UsageEvent.path r.1;
          e_method := UsageEvent.method r.1;
          e_status := UsageEvent.status r.1;
          e_error_message := UsageEvent.error_message r.1;
          e_ts := UsageEvent.ts r.1;
          e_ip := inet_out <$> UsageEvent.ip r.1 |}) <$>
    usage_join_apps db
      (filter (λ e, is_error e ∧ now - 24 * hour_us ≤ UsageEvent.ts e) (usage_events db)))).

(** *** POST /api/admin/prune *)

(** The parameter of [interval '1 day' * $1], a double precision.  A
    number of the model is a double, exactly. *)
Definition to_float8 `{Session} (v : jsval) : result (option Z) :=
  match v with
  | JUndefined | JNull => Ok None
  | JNum n => Ok (Some (n : Z))
  | _ =>
      match bind v ≫= float8_in with
      | Some n => Ok (Some n)
      | None => Err (invalid_text_representation "$1")
      end
  end.

(** [now() - interval '1 day' * days], for a whole number of days.  The
    product is an interval of that many days, and the day field of an
    interval is an [int].  The difference is taken on the calendar of
    the session's time zone, where the date has to be one of Julian day
    0 or later, and has to be a timestamp.  [None]: the interval or the
    timestamp is out of range. *)
Definition days_before `{Session} (now days : Z) : option Z :=
  _ ← int4 days;
  let t := now - day_us * days in
  if (timestamp_min <=? t) && (timestamp_min <=? t + utc_offset)
     && (t <? timestamp_end)
  then Some t else None.

(** The cutoff [now() - interval '1 day' * $1] of the statement: null
    for a null [$1]; [None] when it is out of range. *)
Definition cutoff `{Session} (now : Z) (days : option Z) : option (option Z) :=
  match days with
  | Some n => Some <$> days_before now n
  | None => Some None
  end.

(** [ts < cutoff]; with a null cutoff the comparison is null for every
    row, and no row satisfies it. *)
Definition older_than (cutoff : option Z) (e : UsageEvent.t) : Prop :=
  match cutoff with
  | Some c => UsageEvent.ts e < c
  | None => False
  end.

#[global] Instance older_than_dec cutoff e : Decision (older_than cutoff e).
Proof. unfold older_than; destruct cutoff; apply _. Defined.

(** [delete from usage_events where ts < now() - interval '1 day' * $1
     returning id] *)
Definition prune `{Session} (now : Z) (p1 : jsval) (db : database)
  : result (list Z) * database :=
  match to_float8 p1 with
  | Err e => (Err e, db)
  | Ok days =>
      match cutoff now days with
      | None => (Err datetime_field_overflow, db)
      | Some c =>
          (Ok (UsageEvent.id <$> filter (older_than c) (usage_events db)),
           set_usage_events (filter (λ e, ¬ older_than c e) (usage_events db))
                            (usage_events_id_seq db) db)
      end
  end.

(** *** GET /api/stats *)

(** The four counts are [bigint]: no cast. *)
Record stats_row := {
  total_apps : Z;
  hits_24h : Z;
  errors_24h : Z;
  deploys_7d : Z
}.

(** [select (select count( * ) from apps) as total_apps,
      (select count( * ) from usage_events
         where ts >= now() - interval '24 hours') as hits_24h,
      (select count( * ) from usage_events
         where ts >= now() - interval '24 hours' and status >= 400) as errors_24h,
      (select count( * ) from deployments
         where deployed_at >= now() - interval '7 days') as deploys_7d] *)
Definition stats (now : Z) (db : database) : list stats_row :=
  [{| total_apps := Z.of_nat (length (apps db));
      hits_24h := Z.of_nat (length
        (filter (λ e, now - 24 * hour_us ≤ UsageEvent.ts e) (usage_events db)));
      errors_24h := Z.of_nat (length
        (filter (λ e, now - 24 * hour_us ≤ UsageEvent.ts e ∧ is_error e) (usage_events db)));
      deploys_7d := Z.of_nat (length
        (filter (λ d, now - 7 * day_us ≤ Deployment.deployed_at d) (deployments db))) |}].

End Sql.
Export Sql.

(** ** Requests and responses *)

Inductive route :=
| get_health            (* GET  /health *)
| post_apps             (* POST /api/apps *)
| post_deployments      (* POST /api/deployments *)
| post_usage            (* POST /api/usage *)
| get_overview          (* GET  /api/dashboard/overview *)
| get_analytics         (* GET  /api/dashboard/analytics *)
| get_deployments       (* GET  /api/dashboard/deployments *)
| get_routes            (* GET  /api/dashboard/routes *)
| get_errors            (* GET  /api/dashboard/errors *)
| post_prune            (* POST /api/admin/prune *)
| get_stats.            (* GET  /api/stats *)

#[global] Instance route_eq_dec : EqDecision route.
Proof. solve_decision. Defined.

Module Request.
Record t := {
  target : route;
  authorization : option string;   (* req.get("authorization") *)
  ip : string;                     (* req.ip *)
  body : gmap string jsval         (* req.body || {} *)
}.
End Request.

(** What [res.json] is given.  Left out are the time, the uptime, the
    latency and the heap size that the health body carries, and the time
    that the prune body carries. *)
Inductive payload :=
| Error (e : error_body)
| Healthy
| Unhealthy (e : pg_error)
| AppRow (a : App.t)
| DeploymentRow (d : Deployment.t)
| UsageRow (u : UsageEvent.t)
| Overview (rows : list overview_row)
| Analytics (daily : list (Z * Z)) (by_app : list (string * Z))
            (recent_deployments_count : Z)
| History (rows : list history_row)
| Routes (rows : list route_row)
| Errors (rows : list error_row)
| Pruned (pruned : Z) (retention_days : jsval)
| Stats (row : option stats_row)
| Connected                       (* { ok: true, db: "connected" } *)
| Disconnected (e : pg_error)     (* { ok: false, error } *)
| Cannot.                         (* no route: the 404 page of Express *)

Module Response.
Record t := { status : Z; body : payload }.
End Response.

(** ** Handlers *)

Module Handler.

(** The statements, by name. *)
Inductive stmt :=
| q_select_1
| q_upsert_app
| q_select_app_id
| q_insert_deployment
| q_insert_usage_event
| q_overview
| q_daily
| q_by_app
| q_recent_deploys
| q_deployment_history
| q_route_breakdown
| q_error_feed
| q_prune
| q_stats.

(** What a request finds outside the process: the database clock
    ([now()], microseconds), the process clock ([Date.now()],
    milliseconds), and whether the pool reaches the database. *)
Record world := {
  now : Z;
  clock : Z;
  pool_up : bool
}.

(** An async handler: it reads the world, sends statements to the
    database one after the other, and either returns or rejects.  The
    statements sent are recorded. *)
Definition M (A : Type) : Type :=
  world → database → result A * database * list stmt.

Definition ret {A} (a : A) : M A := λ _ db, (Ok a, db, []).

Definition bind_M {A B} (m : M A) (f : A → M B) : M B :=
  λ w db,
    match m w db with
    | (Ok a, db1, t1) =>
        let '(r, db2, t2) := f a w db1 in (r, db2, t1 ++ t2)
    | (Err e, db1, t1) => (Err e, db1, t1)
    end.

Notation "x ←' m ; k" := (bind_M m (λ x, k))
  (at level 20, m at level 100, k at level 200, only parsing, right associativity).

(** [await pool.query(q, params)] *)
Definition query {A} (q : stmt) (run : Z → database → result A * database) : M A :=
  λ w db,
    if pool_up w then let '(r, db1) := run (now w) db in (r, db1, [q])
    else (Err connection_failure, db, [q]).

(** A statement that only reads. *)
Definition read {A} (q : stmt) (run : Z → database → result A) : M A :=
  query q (λ now db, (run now db, db)).

(** [try { await m } catch (err) { h(err) }] *)
Definition try_catch {A} (m : M A) (h : pg_error → M A) : M A :=
  λ w db,
    match m w db with
    | (Err e, db1, t1) => let '(r, db2, t2) := h e w db1 in (r, db2, t1 ++ t2)
    | ok => ok
    end.

(** [await Promise.all([m1, m2])]: both are started; the first
    rejection is the rejection of the whole. *)
Definition both {A B} (m1 : M A) (m2 : M B) : M (A * B) :=
  λ w db,
    let '(r1, db1, t1) := m1 w db in
    let '(r2, db2, t2) := m2 w db1 in
    (match r1, r2 with
     | Ok a, Ok b => Ok (a, b)
     | Err e, _ | _, Err e => Err e
     end, db2, t1 ++ t2).

Definition json (status : Z) (body : payload) : M Response.t :=
  ret {| Response.status := status; Response.body := body |}.

Section handlers.
Context `{Session}.

(** GET /health *)
Definition health (body : gmap string jsval) : M Response.t :=
  try_catch
    (_ ←' read q_select_1 (λ _ _, Ok [1]);
     json 200 Healthy)
    (λ err, json 503 (Unhealthy err)).

(** POST /api/apps *)
Definition apps_upsert (body : gmap string jsval) : M Response.t :=
  let slug := field body "slug" in
  let name := field body "name" in
  let repo_url := field body "repo_url" in
  let public_url := field body "public_url" in
  if negb (truthy slug) || negb (truthy name)
  then json 400 (Error (ErrorCode "slug_and_name_required"))
  else
    row ←' query q_upsert_app
             (λ now, upsert_app now slug name (or_null repo_url) (or_null public_url));
    json 200 (AppRow row).

(** POST /api/deployments.  [appId] is the [id] of the first row, a
    non-empty text of digits, or [undefined] when there is no row. *)
Definition deployments_record (body : gmap string jsval) : M Response.t :=
  let app_slug := field body "app_slug" in
  let environment := with_default (JStr "prod") (field body "environment") in
  let version := field body "version" in
  let note := field body "note" in
  let deployed_by := field body "deployed_by" in
  if negb (truthy app_slug)
  then json 400 (Error (ErrorCode "app_slug_required"))
  else
    appRow ←' read q_select_app_id (λ _ db, Ok (select_app_id app_slug db));
    match head appRow with
    | None => json 404 (Error (ErrorCode "app_not_found"))
    | Some appId =>
        row ←' query q_insert_deployment
                 (λ now, insert_deployment now appId environment
                           (or_null version) (or_null note) (or_null deployed_by));
        json 200 (DeploymentRow row)
    end.

(** POST /api/usage *)
Definition usage_record (body : gmap string jsval) : M Response.t :=
  let app_slug := field body "app_slug" in
  let kind := with_default (JStr "request") (field body "kind") in
  let method := field body "method" in
  let path := field body "path" in
  let status := field body "status" in
  let ip := field body "ip" in
  let user_agent := field body "user_agent" in
  let error_message := field body "error_message" in
  if negb (truthy app_slug)
  then json 400 (Error (ErrorCode "app_slug_required"))
  else
    appRow ←' read q_select_app_id (λ _ db, Ok (select_app_id app_slug db));
    match head appRow with
    | None => json 404 (Error (ErrorCode "app_not_found"))
    | Some appId =>
        row ←' query q_insert_usage_event
                 (λ now, insert_usage_event now appId kind
                           (or_null method) (or_null path) (or_null status)
                           (or_null ip) (or_null user_agent) (or_null error_message));
        json 200 (UsageRow row)
    end.

(** GET /api/dashboard/overview *)
Definition dashboard_overview (body : gmap string jsval) : M Response.t :=
  rows ←' read q_overview overview;
  json 200 (Overview rows).

(** GET /api/dashboard/analytics; [rows[0]?.total || 0] is the total
    of the single row. *)
Definition dashboard_analytics (body : gmap string jsval) : M Response.t :=
  r ←' both (read q_daily dailyQ)
            (both (read q_by_app byAppQ) (read q_recent_deploys recentDeploysQ));
  json 200 (Analytics r.1 r.2.1 (default 0 (head r.2.2))).

(** GET /api/dashboard/deployments *)
Definition dashboard_deployments (body : gmap string jsval) : M Response.t :=
  rows ←' read q_deployment_history (λ _ db, Ok (deployment_history db));
  json 200 (History rows).

(** GET /api/dashboard/routes *)
Definition dashboard_routes (body : gmap string jsval) : M Response.t :=
  rows ←' read q_route_breakdown route_breakdown;
  json 200 (Routes rows).

(** GET /api/dashboard/errors *)
Definition dashboard_errors (body : gmap string jsval) : M Response.t :=
  rows ←' read q_error_feed (λ now db, Ok (error_feed now db));
  json 200 (Errors rows).

(** POST /api/admin/prune; [pruned] is [result.rowCount]. *)
Definition admin_prune (body : gmap string jsval) : M Response.t :=
  let days := with_default (JNum (num 90)) (field body "days") in
  ids ←' query q_prune (λ now, prune now days);
  json 200 (Pruned (Z.of_nat (length ids)) days).

(** GET /api/stats *)
Definition api_stats (body : gmap string jsval) : M Response.t :=
  rows ←' read q_stats (λ now db, Ok (stats now db));
  json 200 (Stats (head rows)).

Definition handler (r : route) : gmap string jsval → M Response.t :=
  match r with
  | get_health => health
  | post_apps => apps_upsert
  | post_deployments => deployments_record
  | post_usage => usage_record
  | get_overview => dashboard_overview
  | get_analytics => dashboard_analytics
  | get_deployments => dashboard_deployments
  | get_routes => dashboard_routes
  | get_errors => dashboard_errors
  | post_prune => admin_prune
  | get_stats => api_stats
  end.

End handlers.
End Handler.
Export Handler.

(** ** The application: routes and their middleware *)

Module Server.

Inductive middleware :=
| use_usageLimiter
| use_requireToken.

#[global] Instance middleware_eq_dec : EqDecision middleware.
Proof. solve_decision. Defined.

(** The middleware each [app.get] / [app.post] lists before its
    handler. *)
Definition stack (r : route) : list middleware :=
  match r with
  | get_health | get_stats => []
  | post_usage => [use_usageLimiter; use_requireToken]
  | _ => [use_requireToken]
  end.

(** [process.env] *)
Record config := { DASHBOARD_TOKEN : option string }.

(** What the process keeps between requests: the database behind the
    pool and the hit counters of [usageLimiter]. *)
Record state := {
  db : database;
  usage_hits : gmap string window
}.

Inductive event :=
| Ran (m : middleware)
| Entered (r : route)             (* the handler body starts *)
| Sent_query (q : stmt).

Inductive outcome :=
| Sent (r : Response.t)
| Unhandled (e : pg_error).       (* the handler rejected; nothing is sent *)

Definition run_middleware (cfg : config) (w : world) (req : Request.t)
    (m : middleware) (hits : gmap string window) : mw_result * gmap string window :=
  match m with
  | use_usageLimiter => limit usageLimiter (clock w) (Request.ip req) hits
  | use_requireToken =>
      (requireToken (DASHBOARD_TOKEN cfg) (Request.authorization req), hits)
  end.

(** Express runs the middleware in order; one that replies ends the
    chain. *)
Fixpoint run_stack (cfg : config) (w : world) (req : Request.t)
    (ms : list middleware) (hits : gmap string window)
  : mw_result * gmap string window * list event :=
  match ms with
  | [] => (Next, hits, [])
  | m :: ms' =>
      match run_middleware cfg w req m hits with
      | (Next, hits1) =>
          let '(r, hits2, t) := run_stack cfg w req ms' hits1 in
          (r, hits2, Ran m :: t)
      | (Reply s b, hits1) => (Reply s b, hits1, [Ran m])
      end
  end.

Definition serve `{Session} (cfg : config) (w : world) (req : Request.t) (st : state)
  : outcome * list event * state :=
  match run_stack cfg w req (stack (Request.target req)) (usage_hits st) with
  | (Reply s b, hits, t) =>
      (Sent {| Response.status := s; Response.body := Error b |}, t,
       {| db := db st; usage_hits := hits |})
  | (Next, hits, t) =>
      let '(r, db1, qs) :=
        handler (Request.target req) (Request.body req) w (db st) in
      (match r with Ok res => Sent res | Err e => Unhandled e end,
       t ++ Entered (Request.target req) :: (Sent_query <$> qs),
       {| db := db1; usage_hits := hits |})
  end.

(** The state after a list of requests, each arriving in its world. *)
Definition after `{Session} (cfg : config) (l : list (world * Request.t)) (st : state)
  : state :=
  foldl (λ st x, (serve cfg x.1 x.2 st).2) st l.

End Server.
Export Server.

(** ** The smaller version of the server: [server/index.js]

    It has no rate limiter and no routes for the route breakdown, the
    error feed, pruning and the stats.  [requireToken] and the handlers
    of /api/apps, /api/deployments and the three dashboard routes are the
    same text as above; /health answers with a shorter body, and a usage
    event has no [error_message]. *)

Module Small.

(** [None]: the application has no such route. *)
Definition stack (r : route) : option (list middleware) :=
  match r with
  | get_health => Some []
  | post_apps | post_deployments | post_usage
  | get_overview | get_analytics | get_deployments => Some [use_requireToken]
  | get_routes | get_errors | post_prune | get_stats => None
  end.

Section handlers.
Context `{Session}.

(** GET /health *)
Definition health (body : gmap string jsval) : M Response.t :=
  try_catch
    (_ ←' read q_select_1 (λ _ _, Ok [1]);
     json 200 Connected)
    (λ err, json 500 (Disconnected err)).

(** POST /api/usage: the insert names seven columns, and
    [error_message] keeps its default, null. *)
Definition usage_record (body : gmap string jsval) : M Response.t :=
  let app_slug := field body "app_slug" in
  let kind := with_default (JStr "request") (field body "kind") in
  let method := field body "method" in
  let path := field body "path" in
  let status := field body "status" in
  let ip := field body "ip" in
  let user_agent := field body "user_agent" in
  if negb (truthy app_slug)
  then json 400 (Error (ErrorCode "app_slug_required"))
  else
    appRow ←' read q_select_app_id (λ _ db, Ok (select_app_id app_slug db));
    match head appRow with
    | None => json 404 (Error (ErrorCode "app_not_found"))
    | Some appId =>
        row ←' query q_insert_usage_event
                 (λ now, insert_usage_event now appId kind
                           (or_null method) (or_null path) (or_null status)
                           (or_null ip) (or_null user_agent) JNull);
        json 200 (UsageRow row)
    end.

Definition handler (r : route) : gmap string jsval → M Response.t :=
  match r with
  | get_health => health
  | post_usage => usage_record
  | _ => Handler.handler r
  end.

Definition serve (cfg : config) (w : world) (req : Request.t) (st : state)
  : outcome * list event * state :=
  match stack (Request.target req) with
  | None => (Sent {| Response.status := 404; Response.body := Cannot |}, [], st)
  | Some ms =>
      match run_stack cfg w req ms (usage_hits st) with
      | (Reply s b, hits, t) =>
          (Sent {| Response.status := s; Response.body := Error b |}, t,
           {| db := db st; usage_hits := hits |})
      | (Next, hits, t) =>
          let '(r, db1, qs) :=
            handler (Request.target req) (Request.body req) w (db st) in
          (match r with Ok res => Sent res | Err e => Unhandled e end,
           t ++ Entered (Request.target req) :: (Sent_query <$> qs),
           {| db := db1; usage_hits := hits |})
      end
  end.

End handlers.
End Small.

(** ** Vocabulary of the properties *)

(** The constraints of the schema that the statements rely on: the
    primary key and the unique slug of [apps], the sequence running
    ahead of the keys, and the two foreign keys. *)
Record consistent (db : database) : Prop := {
  apps_pkey : NoDup (App.id <$> apps db);
  apps_slug_key : NoDup (App.slug <$> apps db);
  apps_seq_ahead : ∀ a, a ∈ apps db → App.id a < apps_id_seq db;
  deployments_app_id_fkey :
    ∀ d, d ∈ deployments db → Deployment.app_id d ∈ App.id <$> apps db;
  usage_events_app_id_fkey :
    ∀ e, e ∈ usage_events db → UsageEvent.app_id e ∈ App.id <$> apps db
}.

(** A route whose middleware includes [requireToken]. *)
Definition protected (r : route) : Prop := use_requireToken ∈ stack r.

#[global] Instance protected_dec r : Decision (protected r).
Proof. unfold protected; apply _. Defined.

(** The request carries the configured token: [requireToken] calls
    [next()]. *)
Definition authorized (cfg : config) (req : Request.t) : Prop :=
  requireToken (DASHBOARD_TOKEN cfg) (Request.authorization req) = Next.

(** The client's window is open and holds [max] hits or more, so that
    one more request is over the limit. *)
Definition exhausted (o : options) (clock : Z) (key : string)
    (hits : gmap string window) : bool :=
  match hits !! key with
  | Some w => (clock <? resetTime w) && (max o <=? totalHits w)
  | None => false
  end.

(** No token is configured: the variable is unset or empty. *)
Definition unset (token : option string) : Prop := token = None ∨ token = Some "".

#[global] Instance unset_dec token : Decision (unset token).
Proof. unfold unset; apply _. Defined.

(** The request is one that [usageLimiter] stops. *)
Definition rate_limited (w : world) (req : Request.t) (st : state) : bool :=
  bool_decide (Request.target req = post_usage) &&
  exhausted usageLimiter (clock w) (Request.ip req) (usage_hits st).

(** The hit counters after a request: only POST /api/usage touches
    them, and it counts the request whatever else it carries. *)
Definition counted (w : world) (req : Request.t) (hits : gmap string window)
  : gmap string window :=
  if decide (Request.target req = post_usage)
  then <[Request.ip req := increment usageLimiter (clock w) (Request.ip req) hits]> hits
  else hits.

Definition too_many_requests : Response.t :=
  {| Response.status := 429;
     Response.body := Error (ErrorRetry "rate_limit_exceeded" 60) |}.

Definition error (status : Z) (code : string) : Response.t :=
  {| Response.status := status; Response.body := Error (ErrorCode code) |}.

(** No handler body started and no statement was sent. *)
Definition stopped (t : list event) : Prop :=
  ∀ ev, ev ∈ t → ∃ m, ev = Ran m.

(** What a protected route answers to a request that does not carry the
    configured token. *)
Definition refusal (cfg : config) (w : world) (req : Request.t) (st : state)
  : Response.t :=
  if rate_limited w req st then too_many_requests
  else if decide (unset (DASHBOARD_TOKEN cfg))
       then error 500 "server_not_configured"
       else error 401 "unauthorized".

(** A request is a usage event from the address [ip]. *)
Definition usage_from (ip : string) (x : world * Request.t) : Prop :=
  Request.target x.2 = post_usage ∧ Request.ip x.2 = ip.

#[global] Instance usage_from_dec ip x : Decision (usage_from ip x).
Proof. unfold usage_from; apply _. Defined.

(** How an optional field of the body is kept in a nullable text
    column: as the text bound for it when it is truthy, as null
    otherwise. *)
Definition kept (v : jsval) (col : option string) : Prop :=
  (truthy v = false → col = None) ∧ (truthy v = true → col = bind v).

(** How a field with a default is kept in a [not null] text column. *)
Definition kept_or (d : string) (v : jsval) (col : string) : Prop :=
  (v = JUndefined → col = d) ∧ (v ≠ JUndefined → bind v = Some col).

(** How the [status] and [ip] fields are kept: null when falsy, and
    otherwise what the input function of the column reads. *)
Definition kept_status `{Session} (v : jsval) (col : option Z) : Prop :=
  (truthy v = false → col = None) ∧ (truthy v = true → to_int4 "status" v = Ok col).

Definition kept_ip `{Session} (v : jsval) (col : option string) : Prop :=
  (truthy v = false → col = None) ∧ (truthy v = true → to_inet "ip" v = Ok col).

(** The usage events with a timestamp before [cutoff], and the others. *)
Definition before (cutoff : Z) (l : list UsageEvent.t) : list UsageEvent.t :=
  filter (λ e, UsageEvent.ts e < cutoff) l.

Definition not_before (cutoff : Z) (l : list UsageEvent.t) : list UsageEvent.t :=
  filter (λ e, cutoff ≤ UsageEvent.ts e) l.

(** The database with [l] for its usage events and the rest as it was. *)
Definition with_usage_events (l : list UsageEvent.t) (db : database) : database :=
  set_usage_events l (usage_events_id_seq db) db.

(** The days a prune request asks for: the number in [days], 90 when the
    field is omitted. *)
Definition asks_days (b : gmap string jsval) (n : number) : Prop :=
  field b "days" = JNum n ∨ (field b "days" = JUndefined ∧ n = num 90).

(** The size of every group, when the sizes fit an [int]. *)
Definition sizes {K A : Type} (gs : list (K * list A)) : list (K * Z) :=
  (λ g, (g.1, Z.of_nat (length g.2))) <$> gs.

(** The 24-hour hit counts, when they fit an [int]. *)
Definition hit_counts (now : Z) (db : database) : list (Z * Z) :=
  sizes (group_by UsageEvent.app_id
           (filter (λ e, now - 24 * hour_us ≤ UsageEvent.ts e) (usage_events db))).

(** The primary keys of the two logs, with the sequences running ahead
    of them. *)
Record keyed (db : database) : Prop := {
  deployments_pkey : NoDup (Deployment.id <$> deployments db);
  deployments_seq_ahead :
    ∀ d, d ∈ deployments db → Deployment.id d < deployments_id_seq db;
  usage_events_pkey : NoDup (UsageEvent.id <$> usage_events db);
  usage_events_seq_ahead :
    ∀ e, e ∈ usage_events db → UsageEvent.id e < usage_events_id_seq db
}.

(** What of an application a request cannot change. *)
Definition identity (a : App.t) : Z * string * Z :=
  (App.id a, App.slug a, App.created_at a).

(** The route reads only. *)
Definition reads_only (r : route) : Prop :=
  r ∈ [get_health; get_overview; get_analytics; get_deployments;
       get_routes; get_errors; get_stats].

(** The scheme word of an Authorization header: [Bearer], in any letter
    case. *)
Definition is_bearer (p : string) : Prop := prefix_ci "Bearer" p = Some EmptyString.

(** A text of white space only. *)
Fixpoint blank (s : string) : bool :=
  match s with
  | EmptyString => true
  | String c s' => is_space c && blank s'
  end.

Definition starts_blank (s : string) : bool :=
  match s with
  | String c _ => is_space c
  | EmptyString => false
  end.

(** The columns of an application that the overview lists, in an
    application and in a row of the overview. *)
Definition listed (a : App.t) : string * string * option string * option string :=
  (App.slug a, App.name a, App.public_url a, App.repo_url a).

Definition o_listed (r : overview_row) : string * string * option string * option string :=
  (o_slug r, o_name r, o_public_url r, o_repo_url r).

(** The row of the deployment history for a deployment and its
    application. *)
Definition history_of (d : Deployment.t) (a : App.t) : history_row :=
  {| h_deployed_at := Deployment.deployed_at d;
     h_environment := Deployment.environment d;
     h_version := Deployment.version d;
     h_note := Deployment.note d;
     h_deployed_by := Deployment.deployed_by d;
     h_app_name := App.name a;
     h_app_slug := App.slug a |}.

(** The row of the error feed for a usage event and its application. *)
Definition error_of `{Session} (e : UsageEvent.t) (a : App.t) : error_row :=
  {| e_app_name := App.name a;
     e_path := UsageEvent.path e;
     e_method := UsageEvent.method e;
     e_status := UsageEvent.status e;
     e_error_message := UsageEvent.error_message e;
     e_ts := UsageEvent.ts e;
     e_ip := inet_out <$> UsageEvent.ip e |}.

(** The usage events of the trailing seven days on a path and method. *)
Definition hits_on (now : Z) (db : database) (p m : option string) : list UsageEvent.t :=
  filter (λ e, (UsageEvent.path e, UsageEvent.method e) = (p, m))
    (last_7_days now (usage_events db)).

(** The application a usage event belongs to: the row its [app_id]
    refers to. *)
Definition app_of (db : database) (e : UsageEvent.t) : option App.t :=
  head (filter (λ a, App.id a = UsageEvent.app_id e) (apps db)).

(** The usage events of the trailing seven days that belong to an
    application of the name [n]. *)
Definition hits_of_name (now : Z) (db : database) (n : string) : list UsageEvent.t :=
  filter (λ e, App.name <$> app_of db e = Some n) (last_7_days now (usage_events db)).

(** The body has the fields that the handler of the route asks for
    before it sends its first statement. *)
Definition complete (r : route) (body : gmap string jsval) : Prop :=
  match r with
  | post_apps =>
      truthy (field body "slug") = true ∧ truthy (field body "name") = true
  | post_deployments | post_usage => truthy (field body "app_slug") = true
  | _ => True
  end.

(** ** A session and some requests, for the examples *)

Module Sample.

Fixpoint digits (acc : Z) (s : string) : option Z :=
  match s with
  | EmptyString => Some acc
  | String c s' =>
      let n := Z.of_nat (nat_of_ascii c) in
      if (48 <=? n) && (n <=? 57) then digits (10 * acc + (n - 48)) s' else None
  end.

(** A plain decimal numeral, with an optional minus sign. *)
Definition numeral (s : string) : option Z :=
  match s with
  | EmptyString => None
  | String "-" (String c s') => Z.opp <$> digits 0 (String c s')
  | _ => digits 0 s
  end.

(** A session in UTC that reads plain numerals into [int] and
    [double precision], takes every text as an [inet], and orders text
    by character code. *)
Definition session : Session :=
  {| int4_in := numeral;
     inet_in := Some;
     inet_out := λ a, a;
     float8_in := numeral;
     text_le := String.leb;
     utc_offset := 0 |}.

#[local] Existing Instance session.

Definition configured : config := {| DASHBOARD_TOKEN := Some "s3cret" |}.
Definition unconfigured : config := {| DASHBOARD_TOKEN := None |}.

Definition at_time (t : Z) : world :=
  {| now := t * 1000; clock := t; pool_up := true |}.

Definition request (r : route) (auth : option string) (fields : list (string * jsval))
  : Request.t :=
  {| Request.target := r; Request.authorization := auth;
     Request.ip := "203.0.113.7"; Request.body := list_to_map fields |}.

Definition fresh : state := {| db := Pg.empty; usage_hits := ∅ |}.

Definition bearer : option string := Some "Bearer s3cret".

(** The state after one client has sent a hundred usage events within
    a second, to a server that has no token. *)
Definition hundred_hits : state :=
  after unconfigured (replicate 100 (at_time 1000, request post_usage None [])) fresh.

(** One registered application, [blog]. *)
Definition blog : state :=
  after configured
    [(at_time 1000, request post_apps bearer [("slug", JStr "blog"); ("name", JStr "Blog")])]
    fresh.

(** The application that [blog] holds. *)
Definition blog_app : App.t :=
  {| App.id := 1; App.slug := "blog"; App.name := "Blog";
     App.repo_url := None; App.public_url := None; App.created_at := 1000000 |}.

(** [blog] after two deployments and two usage events. *)
Definition busy_blog : state :=
  after configured
    [(at_time 2000, request post_deployments bearer
        [("app_slug", JStr "blog"); ("version", JStr "v1")]);
     (at_time 3000, request post_deployments bearer
        [("app_slug", JStr "blog"); ("version", JStr "v2"); ("note", JStr "hotfix")]);
     (at_time 4000, request post_usage bearer
        [("app_slug", JStr "blog"); ("path", JStr "/"); ("status", JNum (num 200))]);
     (at_time 5000, request post_usage bearer
        [("app_slug", JStr "blog"); ("path", JStr "/feed"); ("status", JNum (num 500))])]
    blog.

(** The world of a request that finds the database unreachable. *)
Definition outage (t : Z) : world :=
  {| now := t * 1000; clock := t; pool_up := false |}.

End Sample.

(** * Facts about the relational operators *)

Section rel_facts.
Context {A K : Type} `{EqDecision K}.
Variable key : A → K.

Lemma elem_of_group_by (l : list A) (k : K) (g : list A) :
  (k, g) ∈ group_by key l ↔ k ∈ key <$> l ∧ g = filter (λ x, key x = k) l.
Proof.
  unfold group_by. rewrite list_elem_of_fmap. split.
  - intros (k' & Heq & Hk). simplify_eq. by rewrite elem_of_remove_dups in Hk.
  - intros [Hk ->]. exists k. split; [done|]. by apply elem_of_remove_dups.
Qed.

Lemma group_by_keys (l : list A) : (group_by key l).*1 = remove_dups (key <$> l).
Proof.
  unfold group_by. rewrite <- list_fmap_compose.
  rewrite <- (list_fmap_id (remove_dups (key <$> l))) at 2.
  by apply list_fmap_ext.
Qed.

Lemma group_nonempty (l : list A) (k : K) :
  k ∈ key <$> l → filter (λ x, key x = k) l ≠ [].
Proof.
  intros (x & -> & Hx)%list_elem_of_fmap Hnil.
  by eapply (filter_nil_not_elem_of _ _ x) in Hnil.
Qed.

Lemma sum_bump (f : K → Z) (k0 : K) (ks : list K) :
  NoDup ks → k0 ∈ ks →
  sum ((λ k, if decide (k0 = k) then 1 + f k else f k) <$> ks) = 1 + sum (f <$> ks).
Proof.
  induction 1 as [|k ks Hk Hnd IH]; intros Hin; [by apply elem_of_nil in Hin|].
  cbn [fmap list_fmap sum foldr]. fold (sum (f <$> ks)).
  fold (sum ((λ k, if decide (k0 = k) then 1 + f k else f k) <$> ks)).
  destruct (decide (k0 = k)) as [->|Hne].
  - assert (Hsame : (λ k1, if decide (k = k1) then 1 + f k1 else f k1) <$> ks = f <$> ks).
    { apply Forall_fmap_ext_1, Forall_forall. intros k1 Hk1.
      destruct (decide (k = k1)) as [->|]; [done|done]. }
    rewrite Hsame. lia.
  - apply elem_of_cons in Hin as [?|Hin]; [done|]. rewrite IH by done. lia.
Qed.

(** Summed over distinct keys that cover the list, the group sizes
    give the length of the list. *)
Lemma sum_group_sizes (ks : list K) (l : list A) :
  NoDup ks → (∀ x, x ∈ l → key x ∈ ks) →
  sum ((λ k, Z.of_nat (length (filter (λ x, key x = k) l))) <$> ks)
  = Z.of_nat (length l).
Proof.
  intros Hnd. induction l as [|x l IH]; intros Hcov.
  - simpl. clear. induction ks as [|k ks IHk]; [done|].
    cbn [fmap list_fmap sum foldr]. fold (sum ((λ _ : K, 0) <$> ks)). 
    exact IHk.
  - assert (Hx : key x ∈ ks) by (apply Hcov; left).
    transitivity (1 + sum ((λ k, Z.of_nat (length (filter (λ x0, key x0 = k) l))) <$> ks)).
    2:{ rewrite IH; [|intros y Hy; apply Hcov; by right]. simpl length. lia. }
    rewrite <- (sum_bump _ (key x)) by done. f_equal.
    apply Forall_fmap_ext_1, Forall_forall. intros k _. rewrite filter_cons.
    destruct (decide (key x = k)); simpl length; lia.
Qed.
End rel_facts.

Lemma elem_of_left_join {B : Type} (P : B → Prop) `{∀ b, Decision (P b)}
    (l : list B) (o : option B) :
  o ∈ left_join P l ↔
  match o with Some b => b ∈ l ∧ P b | None => ∀ b, b ∈ l → ¬ P b end.
Proof.
  unfold left_join. destruct (filter P l) as [|b0 ms] eqn:E.
  - rewrite list_elem_of_singleton. destruct o as [b|]; split.
    + done.
    + intros [Hb HP]. by destruct (filter_nil_not_elem_of P l b).
    + intros _ b Hb HP. by destruct (filter_nil_not_elem_of P l b).
    + done.
  - rewrite <- E, list_elem_of_fmap. destruct o as [b|]; split.
    + intros (b' & [= ->] & Hb'). apply list_elem_of_filter in Hb'. tauto.
    + intros [Hb HP]. exists b. split; [done|]. by apply list_elem_of_filter.
    + by intros (b' & ? & _).
    + intros Hno. assert (Hb0 : b0 ∈ filter P l) by (rewrite E; left).
      apply list_elem_of_filter in Hb0 as [HP Hb0]. by destruct (Hno b0).
Qed.

#[local] Instance deploy_order_trans : Transitive deploy_order.
Proof. intros d1 d2 d3; unfold deploy_order; lia. Qed.

#[local] Instance deploy_order_total : Total deploy_order.
Proof. intros d1 d2; unfold deploy_order; lia. Qed.

Lemma distinct_after_sound (l : list Deployment.t) :
  StronglySorted deploy_order l →
  ∀ prev, Forall (λ y, prev ≤ Deployment.app_id y) l →
  ∀ z, z ∈ distinct_after Deployment.app_id prev l →
    z ∈ l ∧ prev < Deployment.app_id z ∧
    ∀ y, y ∈ l → Deployment.app_id y = Deployment.app_id z →
         Deployment.deployed_at y ≤ Deployment.deployed_at z.
Proof.
  induction 1 as [|x l Hsorted IH Hx]; intros prev Hprev z Hz.
  { by apply elem_of_nil in Hz. }
  apply Forall_cons in Hprev as [Hpx Hprev]. cbn [distinct_after] in Hz.
  rewrite Forall_forall in Hx.
  destruct (decide (Deployment.app_id x = prev)) as [Heq|Hne].
  - destruct (IH prev Hprev z Hz) as (Hin & Hlt & Hmax).
    split; [by right|]. split; [done|].
    intros y [->|Hy]%elem_of_cons Hk; [lia|by apply Hmax].
  - apply elem_of_cons in Hz as [->|Hz].
    + split; [by left|]. split; [lia|].
      intros y [->|Hy]%elem_of_cons Hk; [lia|].
      specialize (Hx y Hy). unfold deploy_order in Hx. lia.
    + assert (Hprev' : Forall (λ y, Deployment.app_id x ≤ Deployment.app_id y) l).
      { apply Forall_forall. intros y Hy. specialize (Hx y Hy).
        unfold deploy_order in Hx. lia. }
      destruct (IH _ Hprev' z Hz) as (Hin & Hlt & Hmax).
      split; [by right|]. split; [lia|].
      intros y [->|Hy]%elem_of_cons Hk; [lia|by apply Hmax].
Qed.

Lemma distinct_after_complete (l : list Deployment.t) :
  StronglySorted deploy_order l →
  ∀ prev y, y ∈ l → prev < Deployment.app_id y →
  ∃ z, z ∈ distinct_after Deployment.app_id prev l ∧
       Deployment.app_id z = Deployment.app_id y.
Proof.
  induction 1 as [|x l Hsorted IH Hx]; intros prev y Hy Hlt.
  { by apply elem_of_nil in Hy. }
  rewrite Forall_forall in Hx. cbn [distinct_after].
  destruct (decide (Deployment.app_id x = prev)) as [Heq|Hne].
  - apply elem_of_cons in Hy as [->|Hy]; [lia|]. by apply IH.
  - destruct (decide (Deployment.app_id y = Deployment.app_id x)) as [Hsame|Hdiff].
    + exists x. split; [by left|done].
    + apply elem_of_cons in Hy as [->|Hy]; [done|].
      destruct (IH (Deployment.app_id x) y Hy) as (z & Hz & Hkz).
      { specialize (Hx y Hy). unfold deploy_order in Hx. lia. }
      exists z. split; [by right|done].
Qed.

(** The row [last_deploy] keeps for an application is one of its
    deployments, and none of its deployments is later. *)
Lemma last_deploy_sound (db : database) (z : Deployment.t) :
  z ∈ last_deploy db →
  z ∈ deployments db ∧
  ∀ y, y ∈ deployments db → Deployment.app_id y = Deployment.app_id z →
       Deployment.deployed_at y ≤ Deployment.deployed_at z.
Proof.
  unfold last_deploy. intros Hz.
  pose proof (StronglySorted_merge_sort deploy_order (deployments db)) as Hs.
  pose proof (merge_sort_Permutation deploy_order (deployments db)) as Hp.
  destruct (merge_sort deploy_order (deployments db)) as [|x l] eqn:E.
  { by apply elem_of_nil in Hz. }
  cbn [distinct_on] in Hz. apply StronglySorted_inv in Hs as [Hs Hx].
  rewrite Forall_forall in Hx.
  assert (Hall : ∀ P : Deployment.t → Prop,
            (∀ y, y ∈ x :: l → P y) → ∀ y, y ∈ deployments db → P y).
  { intros P HP y Hy. apply HP. by rewrite Hp. }
  apply elem_of_cons in Hz as [->|Hz].
  - split; [rewrite <- Hp; by left|].
    apply (Hall (λ y, Deployment.app_id y = Deployment.app_id x →
                      Deployment.deployed_at y ≤ Deployment.deployed_at x)).
    intros y [->|Hy]%elem_of_cons Hk; [lia|].
    specialize (Hx y Hy). unfold deploy_order in Hx. lia.
  - assert (Hprev : Forall (λ y, Deployment.app_id x ≤ Deployment.app_id y) l).
    { apply Forall_forall. intros y Hy. specialize (Hx y Hy).
      unfold deploy_order in Hx. lia. }
    destruct (distinct_after_sound l Hs _ Hprev z Hz) as (Hin & Hlt & Hmax).
    split; [rewrite <- Hp; by right|].
    apply (Hall (λ y, Deployment.app_id y = Deployment.app_id z →
                      Deployment.deployed_at y ≤ Deployment.deployed_at z)).
    intros y [->|Hy]%elem_of_cons Hk; [lia|by apply Hmax].
Qed.

(** An application with a deployment has a row in [last_deploy]. *)
Lemma last_deploy_complete (db : database) (y : Deployment.t) :
  y ∈ deployments db →
  ∃ z, z ∈ last_deploy db ∧ Deployment.app_id z = Deployment.app_id y.
Proof.
  unfold last_deploy. intros Hy.
  pose proof (StronglySorted_merge_sort deploy_order (deployments db)) as Hs.
  rewrite <- (merge_sort_Permutation deploy_order (deployments db)) in Hy.
  destruct (merge_sort deploy_order (deployments db)) as [|x l] eqn:E.
  { by apply elem_of_nil in Hy. }
  cbn [distinct_on]. apply StronglySorted_inv in Hs as [Hs Hx].
  rewrite Forall_forall in Hx.
  destruct (decide (Deployment.app_id y = Deployment.app_id x)) as [Hsame|Hdiff].
  - exists x. split; [by left|done].
  - apply elem_of_cons in Hy as [->|Hy]; [done|].
    destruct (distinct_after_complete l Hs (Deployment.app_id x) y Hy) as (z & Hz & Hk).
    { specialize (Hx y Hy). unfold deploy_order in Hx. lia. }
    exists z. split; [by right|done].
Qed.

(** * The middleware *)

Lemma requireToken_unconfigured (authorization : option string) :
  requireToken None authorization = Reply 500 (ErrorCode "server_not_configured") ∧
  requireToken (Some "") authorization = Reply 500 (ErrorCode "server_not_configured").
Proof. done. Qed.

Lemma truthy_JStr (s : string) : s ≠ "" → truthy (JStr s) = true.
Proof. intros Hs. simpl. by destruct s. Qed.

Lemma requireToken_configured (tok : string) (authorization : option string) :
  tok ≠ "" →
  requireToken (Some tok) authorization =
    if decide (strip_bearer <$> authorization = Some tok) then Next
    else Reply 401 (ErrorCode "unauthorized").
Proof.
  intros Htok. unfold requireToken, presented.
  cbn [of_opt]. rewrite truthy_JStr by done. cbn [negb].
  destruct authorization as [h|]; cbn [fmap option_fmap option_map of_opt].
  - destruct (decide (Some (strip_bearer h) = Some tok)) as [[= ->]|Hne].
    + by rewrite bool_decide_eq_true_2.
    + rewrite bool_decide_eq_false_2; [done|]. intros [= Heq]. by rewrite Heq in Hne.
  - rewrite bool_decide_eq_false_2 by done. by rewrite decide_False.
Qed.

(** A request is authorized when a token is configured and the header,
    without its [Bearer] prefix, is that token. *)
Lemma authorized_iff (cfg : config) (req : Request.t) :
  authorized cfg req ↔
  ∃ tok, DASHBOARD_TOKEN cfg = Some tok ∧ tok ≠ "" ∧
         strip_bearer <$> Request.authorization req = Some tok.
Proof.
  unfold authorized. destruct (DASHBOARD_TOKEN cfg) as [tok|]; [|split].
  - destruct (decide (tok = "")) as [->|Htok].
    + split; [done|]. by intros (tok & [= <-] & ? & _).
    + rewrite requireToken_configured by done.
      destruct (decide (strip_bearer <$> Request.authorization req = Some tok)) as [Heq|Hne].
      * split; [|done]. intros _. by exists tok.
      * split; [done|]. by intros (tok' & [= <-] & _ & ?).
  - done.
  - by intros (tok & ? & _).
Qed.

Lemma limit_usageLimiter (clock : Z) (key : string) (hits : gmap string window) :
  limit usageLimiter clock key hits =
    (if exhausted usageLimiter clock key hits
     then Reply 429 (ErrorRetry "rate_limit_exceeded" 60) else Next,
     <[key := increment usageLimiter clock key hits]> hits).
Proof.
  unfold limit, exhausted, increment. f_equal.
  destruct (hits !! key) as [w0|]; [|done].
  cbn [max usageLimiter message].
  destruct (Z.leb_spec (resetTime w0) clock), (Z.ltb_spec clock (resetTime w0));
    try lia; cbn [totalHits andb]; [done|].
  destruct (Z.ltb_spec 100 (totalHits w0 + 1)), (Z.leb_spec 100 (totalHits w0));
    done || lia.
Qed.

Section serve_facts.
Context `{Session}.
Variables (cfg : config) (w : world) (req : Request.t) (st : state).

Lemma serve_rate_limited :
  rate_limited w req st = true →
  serve cfg w req st =
    (Sent too_many_requests, [Ran use_usageLimiter],
     {| db := db st; usage_hits := counted w req (usage_hits st) |}).
Proof.
  unfold rate_limited, serve, counted. intros [Ht Hex]%andb_true_iff.
  apply bool_decide_eq_true in Ht. rewrite Ht, decide_True by done.
  cbn [stack run_stack run_middleware]. rewrite limit_usageLimiter, Hex. done.
Qed.

Lemma serve_rejected (s : Z) (b : error_body) :
  rate_limited w req st = false →
  protected (Request.target req) →
  requireToken (DASHBOARD_TOKEN cfg) (Request.authorization req) = Reply s b →
  serve cfg w req st =
    (Sent {| Response.status := s; Response.body := Error b |},
     Ran <$> stack (Request.target req),
     {| db := db st; usage_hits := counted w req (usage_hits st) |}).
Proof.
  unfold rate_limited, serve, counted, protected. intros Hlim Hprot Hreq.
  destruct (Request.target req) eqn:Ht; cbn [stack] in *;
    try (by apply elem_of_nil in Hprot);
    cbn [run_stack run_middleware]; rewrite ?Hreq; try done.
  rewrite bool_decide_eq_true_2 in Hlim by done. cbn [andb] in Hlim.
  rewrite limit_usageLimiter, Hlim. cbn [run_stack run_middleware]. by rewrite ?Hreq.
Qed.

Lemma serve_handled :
  rate_limited w req st = false →
  (protected (Request.target req) → authorized cfg req) →
  serve cfg w req st =
    let '(r, db1, qs) := handler (Request.target req) (Request.body req) w (db st) in
    (match r with Ok res => Sent res | Err e => Unhandled e end,
     (Ran <$> stack (Request.target req))
       ++ Entered (Request.target req) :: (Sent_query <$> qs),
     {| db := db1; usage_hits := counted w req (usage_hits st) |}).
Proof.
  unfold rate_limited, serve, counted, protected, authorized. intros Hlim Hauth.
  destruct (Request.target req) eqn:Ht; cbn [stack] in *;
    cbn [run_stack run_middleware];
    try (rewrite Hauth by (apply list_elem_of_singleton; done));
    try done.
  rewrite bool_decide_eq_true_2 in Hlim by done. cbn [andb] in Hlim.
  rewrite limit_usageLimiter, Hlim. cbn [run_stack run_middleware].
  rewrite Hauth; [done|]. right. by left.
Qed.

End serve_facts.

Lemma state_eta (st : state) : {| db := db st; usage_hits := usage_hits st |} = st.
Proof. by destruct st. Qed.

Lemma stopped_Ran (ms : list middleware) : stopped (Ran <$> ms).
Proof. intros ev (m & -> & _)%list_elem_of_fmap. by exists m. Qed.

(** * The token check *)

Lemma serve_without_token `{Session}
    (cfg : config) (w : world) (req : Request.t) (st : state) :
  protected (Request.target req) →
  unset (DASHBOARD_TOKEN cfg) ∨
    strip_bearer <$> Request.authorization req ≠ DASHBOARD_TOKEN cfg →
  ∃ t,
    serve cfg w req st =
      (Sent (refusal cfg w req st), t,
       {| db := db st; usage_hits := counted w req (usage_hits st) |})
    ∧ stopped t.
Proof.
  intros Hprot Hbad. unfold refusal. destruct (rate_limited w req st) eqn:Hlim.
  { rewrite serve_rate_limited by done. eexists. split; [done|].
    apply (stopped_Ran [use_usageLimiter]). }
  destruct (decide (unset (DASHBOARD_TOKEN cfg))) as [Hun|Hset].
  - erewrite serve_rejected; [|done..|].
    + eexists. split; [done|]. apply stopped_Ran.
    + destruct Hun as [->| ->]; apply requireToken_unconfigured.
  - destruct Hbad as [?|Hne]; [done|].
    destruct (DASHBOARD_TOKEN cfg) as [tok|] eqn:Htok; [|by destruct Hset; left].
    assert (tok ≠ "") by (intros ->; destruct Hset; by right).
    erewrite serve_rejected; [|done..|].
    + eexists. split; [done|]. apply stopped_Ran.
    + rewrite Htok, requireToken_configured by done. by rewrite decide_False.
Qed.

(** On the routes whose text is the same in both versions, the smaller
    version answers as the larger one does, so that what is proved of
    [serve] on these routes holds of [Small.serve]. *)
Lemma small_serve_same `{Session}
    (cfg : config) (w : world) (req : Request.t) (st : state) :
  Request.target req ∈
    [post_apps; post_deployments; get_overview; get_analytics; get_deployments] →
  Small.serve cfg w req st = serve cfg w req st.
Proof.
  intros Ht. unfold Small.serve, serve.
  destruct (Request.target req); try done;
    repeat (apply elem_of_cons in Ht as [?|Ht]; [done|]); by apply elem_of_nil in Ht.
Qed.

(** The smaller version has no limiter in front of the token check. *)
Lemma small_serve_without_token `{Session}
    (cfg : config) (w : world) (req : Request.t) (st : state) :
  Small.stack (Request.target req) = Some [use_requireToken] →
  unset (DASHBOARD_TOKEN cfg) ∨
    strip_bearer <$> Request.authorization req ≠ DASHBOARD_TOKEN cfg →
  Small.serve cfg w req st =
    (Sent (if decide (unset (DASHBOARD_TOKEN cfg))
           then error 500 "server_not_configured"
           else error 401 "unauthorized"), [Ran use_requireToken], st).
Proof.
  intros Hstack Hbad. unfold Small.serve. rewrite Hstack.
  cbn [run_stack run_middleware].
  destruct (decide (unset (DASHBOARD_TOKEN cfg))) as [Hun|Hset].
  - destruct Hun as [->| ->]; cbn; by rewrite state_eta.
  - destruct Hbad as [?|Hne]; [done|].
    destruct (DASHBOARD_TOKEN cfg) as [tok|] eqn:Htok; [|by destruct Hset; left].
    assert (tok ≠ "") by (intros ->; destruct Hset; by right).
    rewrite requireToken_configured by done. rewrite decide_False by done.
    by rewrite state_eta.
Qed.

(** C1, as the server has it.  On a protected route, a request that comes
    without the configured token is answered 500 [server_not_configured]
    when no token is configured (the variable is unset or empty), whatever
    the Authorization header, and 401 [unauthorized] otherwise; the
    presented token is the header without a leading [Bearer] and the
    white space after it.  The one exception is a POST /api/usage request
    that the rate limiter, which runs first, answers with 429.  In all
    three cases no handler body starts, no statement is sent and the
    database is as it was.  In the smaller version of the server, which
    has no rate limiter, there is no exception. *)
Theorem token_check_fails_closed `{Session}
    (cfg : config) (w : world) (req : Request.t) (st : state) :
  unset (DASHBOARD_TOKEN cfg) ∨
    strip_bearer <$> Request.authorization req ≠ DASHBOARD_TOKEN cfg →
  (protected (Request.target req) →
   ∃ t st',
     serve cfg w req st =
       (Sent (if rate_limited w req st then too_many_requests
              else if decide (unset (DASHBOARD_TOKEN cfg))
                   then error 500 "server_not_configured"
                   else error 401 "unauthorized"), t, st')
     ∧ stopped t ∧ db st' = db st) ∧
  (Small.stack (Request.target req) = Some [use_requireToken] →
   Small.serve cfg w req st =
     (Sent (if decide (unset (DASHBOARD_TOKEN cfg))
            then error 500 "server_not_configured"
            else error 401 "unauthorized"), [Ran use_requireToken], st)).
Proof.
  intros Hbad. split.
  - intros Hprot.
    destruct (serve_without_token cfg w req st Hprot Hbad) as (t & Hserve & Hstop).
    by eexists _, _.
  - intros Hstack. by apply small_serve_without_token.
Qed.

(** * Which routes are protected *)

Lemma protected_iff (r : route) : protected r ↔ r ≠ get_health ∧ r ≠ get_stats.
Proof.
  unfold protected. destruct r; cbn [stack]; split; intros Hr;
    try (by apply elem_of_nil in Hr); try (by destruct Hr);
    try (split; done); try (by left); by (right; left).
Qed.

(** C8.  The token check is on every route but GET /health and
    GET /api/stats.  A request without an Authorization header gets the
    success response of these two (while the pool reaches the database),
    and on every other route it is refused with 401, 500 or 429 before
    the handler body starts and before any statement is sent. *)
Theorem token_enforced_except_health_and_stats `{Session}
    (cfg : config) (w : world) (req : Request.t) (st : state) :
  Request.authorization req = None →
  pool_up w = true →
  (protected (Request.target req) ↔
     Request.target req ≠ get_health ∧ Request.target req ≠ get_stats) ∧
  (Request.target req = get_health →
     serve cfg w req st =
       (Sent {| Response.status := 200; Response.body := Healthy |},
        [Entered get_health; Sent_query q_select_1], st)) ∧
  (Request.target req = get_stats →
     serve cfg w req st =
       (Sent {| Response.status := 200;
                Response.body := Stats (head (stats (now w) (db st))) |},
        [Entered get_stats; Sent_query q_stats], st)) ∧
  (protected (Request.target req) →
     ∃ res e t st',
       serve cfg w req st = (Sent res, t, st') ∧
       Response.status res ∈ [401; 500; 429] ∧ Response.body res = Error e ∧
       stopped t ∧ db st' = db st).
Proof.
  intros Hauth Hup. split; [apply protected_iff|].
  split; [|split].
  - intros Ht. rewrite serve_handled.
    + rewrite Ht. cbn [handler stack fmap list_fmap app]. unfold counted.
      rewrite Ht, decide_False by done. unfold health, try_catch, bind_M, read, query, json, ret.
      rewrite Hup. cbn. by rewrite state_eta.
    + unfold rate_limited. by rewrite Ht.
    + rewrite Ht. intros []%protected_iff. done.
  - intros Ht. rewrite serve_handled.
    + rewrite Ht. cbn [handler stack fmap list_fmap app]. unfold counted.
      rewrite Ht, decide_False by done. unfold api_stats, bind_M, read, query, json, ret.
      rewrite Hup. cbn. by rewrite state_eta.
    + unfold rate_limited. by rewrite Ht.
    + rewrite Ht. intros []%protected_iff. done.
  - intros Hprot.
    destruct (serve_without_token cfg w req st Hprot) as (t & Hserve & Hstop).
    { rewrite Hauth. destruct (DASHBOARD_TOKEN cfg); [by right|by left; left]. }
    exists (refusal cfg w req st). unfold refusal in *.
    destruct (rate_limited w req st); [|destruct (decide _)];
      eexists _, _, _; (split; [done|]); cbn; (split; [|done]).
    + do 2 right; left.
    + right; left.
    + left.
Qed.

(** * The rate limiter *)

Lemma increment_open (o : options) (clock : Z) (key : string)
    (hits : gmap string window) (w0 : window) :
  hits !! key = Some w0 → clock < resetTime w0 →
  increment o clock key hits =
    {| totalHits := totalHits w0 + 1; resetTime := resetTime w0 |}.
Proof.
  intros Hw0 Hopen. unfold increment. rewrite Hw0.
  destruct (Z.leb_spec (resetTime w0) clock); [lia|done].
Qed.

Lemma increment_closed (o : options) (clock : Z) (key : string)
    (hits : gmap string window) :
  (∀ w0, hits !! key = Some w0 → resetTime w0 ≤ clock) →
  increment o clock key hits = {| totalHits := 1; resetTime := clock + windowMs o |}.
Proof.
  intros Hclosed. unfold increment. destruct (hits !! key) as [w0|]; [|done].
  specialize (Hclosed w0 eq_refl). destruct (Z.leb_spec (resetTime w0) clock); [done|lia].
Qed.

Section limiter.
Context `{Session}.

(** Whatever becomes of a request, the counters move as [counted]
    says. *)
Lemma serve_usage_hits (cfg : config) (w : world) (req : Request.t) (st : state) :
  usage_hits (serve cfg w req st).2 = counted w req (usage_hits st).
Proof.
  destruct (rate_limited w req st) eqn:Hlim.
  { by rewrite serve_rate_limited. }
  destruct (decide (protected (Request.target req))) as [Hprot|Hopen].
  - destruct (requireToken (DASHBOARD_TOKEN cfg) (Request.authorization req))
      as [|s b] eqn:Hreq.
    + rewrite serve_handled by done.
      by destruct (handler _ _ _ _) as [[r db1] qs].
    + by erewrite serve_rejected.
  - rewrite serve_handled by done.
    by destruct (handler _ _ _ _) as [[r db1] qs].
Qed.

(** C10.  On POST /api/usage the rate limiter is the first middleware to
    run: the request is counted in the window of its IP address whatever
    its Authorization header and whatever token the server has; when the
    window is exhausted the answer is 429 with [rate_limit_exceeded] and
    [retry_after: 60], the token check does not run and the database is
    as it was; otherwise the token check runs next. *)
Theorem usage_limiter_runs_before_token_check
    (cfg : config) (w : world) (req : Request.t) (st : state) :
  Request.target req = post_usage →
  ∃ out t db1 hit,
    serve cfg w req st =
      (out, Ran use_usageLimiter :: t,
       {| db := db1; usage_hits := <[Request.ip req := hit]> (usage_hits st) |}) ∧
    (∀ w0, usage_hits st !! Request.ip req = Some w0 → clock w < resetTime w0 →
           hit = {| totalHits := totalHits w0 + 1; resetTime := resetTime w0 |}) ∧
    ((∀ w0, usage_hits st !! Request.ip req = Some w0 → resetTime w0 ≤ clock w) →
     hit = {| totalHits := 1; resetTime := clock w + 60 * 1000 |}) ∧
    (exhausted usageLimiter (clock w) (Request.ip req) (usage_hits st) = true →
       out = Sent too_many_requests ∧ t = [] ∧ db1 = db st) ∧
    (exhausted usageLimiter (clock w) (Request.ip req) (usage_hits st) = false →
       head t = Some (Ran use_requireToken)).
Proof.
  intros Ht.
  assert (Hcounted : counted w req (usage_hits st) =
    <[Request.ip req := increment usageLimiter (clock w) (Request.ip req) (usage_hits st)]>
      (usage_hits st)) by (unfold counted; by rewrite Ht, decide_True).
  assert (Hprot : protected (Request.target req))
    by (rewrite Ht; unfold protected; cbn; right; by left).
  assert (Hhit :
    (∀ w0, usage_hits st !! Request.ip req = Some w0 → clock w < resetTime w0 →
           increment usageLimiter (clock w) (Request.ip req) (usage_hits st)
           = {| totalHits := totalHits w0 + 1; resetTime := resetTime w0 |}) ∧
    ((∀ w0, usage_hits st !! Request.ip req = Some w0 → resetTime w0 ≤ clock w) →
     increment usageLimiter (clock w) (Request.ip req) (usage_hits st)
     = {| totalHits := 1; resetTime := clock w + 60 * 1000 |})).
  { split; [intros w0; apply increment_open|apply increment_closed]. }
  destruct Hhit as [Hopen Hclosed].
  destruct (exhausted usageLimiter (clock w) (Request.ip req) (usage_hits st)) eqn:Hex.
  - rewrite serve_rate_limited, Hcounted.
    + eexists _, _, _, _. split; [done|]. do 2 (split; [done|]). done.
    + unfold rate_limited. rewrite Hex, Ht. done.
  - assert (Hlim : rate_limited w req st = false)
      by (unfold rate_limited; rewrite Hex; apply andb_false_r).
    destruct (requireToken (DASHBOARD_TOKEN cfg) (Request.authorization req))
      as [|s b] eqn:Hreq.
    + rewrite serve_handled by done.
      destruct (handler _ _ _ _) as [[r db1] qs]. rewrite Ht, Hcounted. cbn.
      eexists _, _, _, _. split; [done|]. do 2 (split; [done|]). done.
    + erewrite serve_rejected by done. rewrite Ht, Hcounted. cbn.
      eexists _, _, _, _. split; [done|]. do 2 (split; [done|]). done.
Qed.

Lemma after_cons (cfg : config) (x : world * Request.t) (l : list (world * Request.t))
    (st : state) :
  after cfg (x :: l) st = after cfg l (serve cfg x.1 x.2 st).2.
Proof. done. Qed.

(** While a window is open, every usage request from its address adds
    one hit, and nothing else touches it. *)
Lemma window_counts_every_request (cfg : config) (ip : string) (r : Z)
    (l : list (world * Request.t)) :
  Forall (λ x, usage_from ip x → clock x.1 < r) l →
  ∀ (st : state) (n0 : Z),
    usage_hits st !! ip = Some {| totalHits := n0; resetTime := r |} →
    usage_hits (after cfg l st) !! ip =
      Some {| totalHits := n0 + Z.of_nat (length (filter (usage_from ip) l));
              resetTime := r |}.
Proof.
  induction 1 as [|[w req] l Hx Hl IH]; intros st n0 Hhits.
  { cbn. rewrite Hhits. do 2 f_equal. lia. }
  rewrite after_cons. cbn [fst snd].
  rewrite filter_cons. destruct (decide (usage_from ip (w, req))) as [Hfrom|Hnot].
  - rewrite (IH _ (n0 + 1)).
    + do 2 f_equal. cbn [length]. lia.
    + rewrite serve_usage_hits. unfold counted. destruct Hfrom as [Ht Hip].
      cbn in Ht, Hip. rewrite Ht, decide_True, Hip by done.
      rewrite lookup_insert_eq. f_equal.
      apply (increment_open _ _ _ _ _ Hhits). cbn. apply Hx. done.
  - rewrite (IH _ n0); [done|].
    rewrite serve_usage_hits. unfold counted.
    destruct (decide (Request.target req = post_usage)) as [Ht|]; [|done].
    rewrite lookup_insert_ne; [done|]. intros Hip. by destruct Hnot.
Qed.

End limiter.

Section limiter_corollary.
Context `{Session}.

(** When a client's first request opens a window, its hundred-and-first
    request within the minute is refused, whatever tokens the requests
    carry. *)
Lemma hundred_and_first_refused (cfg : config) (ip : string) (st : state)
    (first : world * Request.t) (l : list (world * Request.t))
    (w : world) (req : Request.t) :
  usage_from ip first →
  (∀ w0, usage_hits st !! ip = Some w0 → resetTime w0 ≤ clock first.1) →
  Forall (λ x, usage_from ip x → clock x.1 < clock first.1 + 60 * 1000) l →
  (99 ≤ length (filter (usage_from ip) l))%nat →
  usage_from ip (w, req) → clock w < clock first.1 + 60 * 1000 →
  ∃ st',
    serve cfg w req (after cfg (first :: l) st) =
      (Sent too_many_requests, [Ran use_usageLimiter], st') ∧
    db st' = db (after cfg (first :: l) st).
Proof.
  intros [Ht0 Hip0] Hclosed Hl Hmany [Ht Hip] Hw. cbn in Ht, Hip.
  rewrite after_cons.
  set (st1 := (serve cfg first.1 first.2 st).2).
  assert (Hst1 : usage_hits st1 !! ip =
            Some {| totalHits := 1; resetTime := clock first.1 + 60 * 1000 |}).
  { unfold st1. rewrite serve_usage_hits. unfold counted.
    rewrite Ht0. destruct (decide (post_usage = post_usage)); [|done].
    rewrite Hip0, lookup_insert_eq. by rewrite increment_closed. }
  pose proof (window_counts_every_request cfg ip _ l Hl st1 1 Hst1) as Hhits.
  rewrite serve_rate_limited; [by eexists|].
  unfold rate_limited, exhausted. rewrite Ht, Hip, Hhits. cbn [totalHits resetTime].
  rewrite bool_decide_eq_true_2 by done. cbn [andb].
  apply andb_true_iff. split; [by apply Z.ltb_lt|].
  apply Z.leb_le. change (RateLimit.max usageLimiter) with 100. lia.
Qed.

End limiter_corollary.

(** * Recording against an unknown slug *)

Lemma select_app_id_unknown (v : jsval) (db : database) :
  (∀ a, a ∈ apps db → Some (App.slug a) ≠ bind v) → select_app_id v db = [].
Proof.
  intros Hno. unfold select_app_id.
  assert (Hnil : filter (λ a, Some (App.slug a) = bind v) (apps db) = []); [|by rewrite Hnil].
  induction (apps db) as [|a l IH]; [done|].
  rewrite filter_cons, decide_False.
  - apply IH. intros a' Ha'. apply Hno. by right.
  - apply Hno. by left.
Qed.

Section unknown_slug.
Context `{Session}.

Lemma deployments_record_unknown (body : gmap string jsval) (w : world) (db : database) :
  pool_up w = true →
  truthy (field body "app_slug") = true →
  select_app_id (field body "app_slug") db = [] →
  deployments_record body w db =
    (Ok (error 404 "app_not_found"), db, [q_select_app_id]).
Proof.
  intros Hup Hslug Hnone. unfold deployments_record.
  rewrite Hslug. cbn [negb]. unfold bind_M, read, query. rewrite Hup, Hnone. done.
Qed.

Lemma usage_record_unknown (body : gmap string jsval) (w : world) (db : database) :
  pool_up w = true →
  truthy (field body "app_slug") = true →
  select_app_id (field body "app_slug") db = [] →
  usage_record body w db =
    (Ok (error 404 "app_not_found"), db, [q_select_app_id]).
Proof.
  intros Hup Hslug Hnone. unfold usage_record.
  rewrite Hslug. cbn [negb]. unfold bind_M, read, query. rewrite Hup, Hnone. done.
Qed.

(** C2, as the server has it.  A POST /api/deployments or POST /api/usage
    request that carries the configured token, is not stopped by the rate
    limiter, and whose [app_slug] is truthy and is the slug of no
    registered application, is answered 404 [app_not_found]; the only
    statement sent is the lookup by slug, and the database is as it
    was. *)
Theorem unknown_slug_is_not_found
    (cfg : config) (w : world) (req : Request.t) (st : state) :
  Request.target req = post_deployments ∨ Request.target req = post_usage →
  authorized cfg req →
  rate_limited w req st = false →
  pool_up w = true →
  truthy (field (Request.body req) "app_slug") = true →
  (∀ a, a ∈ apps (db st) →
        Some (App.slug a) ≠ bind (field (Request.body req) "app_slug")) →
  ∃ st',
    serve cfg w req st =
      (Sent (error 404 "app_not_found"),
       (Ran <$> stack (Request.target req)) ++
         [Entered (Request.target req); Sent_query q_select_app_id],
       st') ∧
    db st' = db st.
Proof.
  intros Ht Hauth Hlim Hup Hslug Hno.
  rewrite serve_handled by done.
  apply select_app_id_unknown in Hno.
  destruct Ht as [Ht|Ht]; rewrite Ht; cbn [handler].
  - rewrite deployments_record_unknown by done. by eexists.
  - rewrite usage_record_unknown by done. by eexists.
Qed.

End unknown_slug.

(** * The upsert *)

Lemma filter_unique_key {A K : Type} `{EqDecision K} (key : A → K) (k : K) (l : list A) :
  NoDup (key <$> l) →
  filter (λ x, key x = k) l = [] ∨ ∃ x, filter (λ x, key x = k) l = [x].
Proof.
  induction l as [|x l IH]; [by left|].
  rewrite fmap_cons, NoDup_cons. intros [Hx Hnd]. rewrite filter_cons.
  destruct (decide (key x = k)) as [Hk|Hk]; [|by apply IH].
  right. exists x. f_equal.
  destruct (filter (λ x, key x = k) l) as [|y l'] eqn:E; [done|].
  assert (Hy : y ∈ filter (λ x, key x = k) l) by (rewrite E; left).
  apply list_elem_of_filter in Hy as [Hky Hy]. destruct Hx.
  rewrite Hk, <- Hky. by apply list_elem_of_fmap_2.
Qed.

Lemma filter_nil_iff {A : Type} (P : A → Prop) `{∀ x, Decision (P x)} (l : list A) :
  filter P l = [] ↔ ∀ x, x ∈ l → ¬ P x.
Proof.
  split.
  - intros Hnil x Hx HP. by destruct (filter_nil_not_elem_of P l x).
  - intros Hno. induction l as [|x l IH]; [done|].
    rewrite filter_cons, decide_False by (apply Hno; left).
    apply IH. intros y Hy. apply Hno. by right.
Qed.

Lemma to_text_not_null_Ok (column : string) (v : jsval) (t : string) :
  bind v = Some t → to_text_not_null column v = Ok t.
Proof. unfold to_text_not_null. by intros ->. Qed.

Lemma truthy_bind (v : jsval) : truthy v = true → ∃ t, bind v = Some t.
Proof. destruct v; cbn; try done; by eexists. Qed.

Section upsert_row.
Variables (now : Z) (p1 p2 p3 p4 : jsval) (s n : string) (db : database).
Hypothesis Hslug : bind p1 = Some s.
Hypothesis Hname : bind p2 = Some n.
Hypothesis Hkey : NoDup (App.slug <$> apps db).

(** After the upsert there is one row of the slug; it has the name and
    the URLs of the statement, the other rows are as they were, and the
    slugs are still distinct. *)
Lemma upsert_app_row :
  ∃ a,
    (upsert_app now p1 p2 p3 p4 db).1 = Ok a ∧
    filter (λ a, App.slug a = s) (apps (upsert_app now p1 p2 p3 p4 db).2) = [a] ∧
    App.slug a = s ∧ App.name a = n ∧
    App.repo_url a = bind p3 ∧ App.public_url a = bind p4 ∧
    NoDup (App.slug <$> apps (upsert_app now p1 p2 p3 p4 db).2) ∧
    deployments (upsert_app now p1 p2 p3 p4 db).2 = deployments db ∧
    usage_events (upsert_app now p1 p2 p3 p4 db).2 = usage_events db.
Proof.
  unfold upsert_app.
  rewrite (to_text_not_null_Ok _ _ _ Hslug), (to_text_not_null_Ok _ _ _ Hname).
  destruct (filter_unique_key App.slug s (apps db) Hkey) as [Hnone|[old Hone]].
  - rewrite Hnone. eexists. cbn [fst snd set_apps apps deployments usage_events].
    split; [done|]. rewrite filter_app, Hnone, filter_cons, decide_True by done.
    split; [done|]. do 4 (split; [done|]). split; [|done].
    rewrite fmap_app. apply NoDup_app. split; [done|]. split; [|apply NoDup_singleton].
    intros s' Hs' ->%list_elem_of_singleton.
    apply list_elem_of_fmap in Hs' as (a & Ha & Hin).
    rewrite filter_nil_iff in Hnone. by destruct (Hnone a Hin).
  - rewrite Hone. eexists. cbn [fst snd set_apps apps deployments usage_events].
    split; [done|].
    assert (Hold : App.slug old = s).
    { assert (Hin : old ∈ filter (λ a, App.slug a = s) (apps db)) by (rewrite Hone; left).
      by apply list_elem_of_filter in Hin as [? _]. }
    assert (Hslugs : ∀ l : list App.t,
      App.slug <$> ((λ a, if decide (App.slug a = s)
                          then excluded n (bind p3) (bind p4) a else a) <$> l)
      = App.slug <$> l).
    { intros l. rewrite <- list_fmap_compose. apply list_fmap_ext. intros _ a _. cbn.
      by destruct (decide (App.slug a = s)). }
    assert (Hfilter : ∀ l : list App.t,
      filter (λ a, App.slug a = s)
        ((λ a, if decide (App.slug a = s)
               then excluded n (bind p3) (bind p4) a else a) <$> l)
      = excluded n (bind p3) (bind p4) <$> filter (λ a, App.slug a = s) l).
    { induction l as [|a l IH]; [done|]. rewrite fmap_cons, !filter_cons.
      destruct (decide (App.slug a = s)) as [Ha|Ha].
      - rewrite decide_True by done. by rewrite fmap_cons, IH.
      - rewrite decide_False by done. done. }
    rewrite Hfilter, Hone, Hslugs. done.
Qed.

End upsert_row.

Section upsert_twice.
Context `{Session}.

Lemma apps_upsert_accepted (body : gmap string jsval) (w : world) (db : database) :
  pool_up w = true →
  truthy (field body "slug") = true →
  truthy (field body "name") = true →
  apps_upsert body w db =
    let r := upsert_app (now w) (field body "slug") (field body "name")
               (or_null (field body "repo_url")) (or_null (field body "public_url")) db in
    (match r.1 with
     | Ok row => Ok {| Response.status := 200; Response.body := AppRow row |}
     | Err e => Err e
     end, r.2, [q_upsert_app]).
Proof.
  intros Hup Hslug Hname. unfold apps_upsert. rewrite Hslug, Hname. cbn [negb orb].
  unfold bind_M, query, json, ret. rewrite Hup.
  destruct (upsert_app _ _ _ _ _ _) as [[row|e] db1]; done.
Qed.

Lemma not_rate_limited (w : world) (req : Request.t) (st : state) :
  Request.target req ≠ post_usage → rate_limited w req st = false.
Proof. intros Ht. unfold rate_limited. by rewrite bool_decide_eq_false_2. Qed.

(** What an accepted POST /api/apps does to the database. *)
Lemma serve_post_apps (cfg : config) (w : world) (req : Request.t) (st : state) :
  Request.target req = post_apps →
  authorized cfg req →
  pool_up w = true →
  truthy (field (Request.body req) "slug") = true →
  truthy (field (Request.body req) "name") = true →
  db (serve cfg w req st).2 =
    (upsert_app (now w) (field (Request.body req) "slug") (field (Request.body req) "name")
       (or_null (field (Request.body req) "repo_url"))
       (or_null (field (Request.body req) "public_url")) (db st)).2 ∧
  (serve cfg w req st).1.1 =
    match (upsert_app (now w) (field (Request.body req) "slug")
             (field (Request.body req) "name")
             (or_null (field (Request.body req) "repo_url"))
             (or_null (field (Request.body req) "public_url")) (db st)).1 with
    | Ok row => Sent {| Response.status := 200; Response.body := AppRow row |}
    | Err e => Unhandled e
    end.
Proof.
  intros Ht Hauth Hup Hslug Hname.
  rewrite serve_handled; [|apply not_rate_limited; by rewrite Ht|done].
  rewrite Ht. cbn [handler]. rewrite apps_upsert_accepted by done. cbn.
  by destruct (upsert_app _ _ _ _ _ _).1.
Qed.

(** C6.  Two POST /api/apps requests with the same slug [s] and the names
    [n1] and then [n2] are both answered 200 with the row of the slug, and
    they leave one row of slug [s] in [apps], whose name is [n2].  The
    requests are ones the handler takes: they carry the configured token,
    and the slug and the names are not empty. *)
Theorem upsert_twice_keeps_one_row
    (cfg : config) (w1 w2 : world) (req1 req2 : Request.t) (st : state)
    (s n1 n2 : string) :
  Request.target req1 = post_apps → Request.target req2 = post_apps →
  authorized cfg req1 → authorized cfg req2 →
  pool_up w1 = true → pool_up w2 = true →
  field (Request.body req1) "slug" = JStr s →
  field (Request.body req1) "name" = JStr n1 →
  field (Request.body req2) "slug" = JStr s →
  field (Request.body req2) "name" = JStr n2 →
  s ≠ "" → n1 ≠ "" → n2 ≠ "" →
  NoDup (App.slug <$> apps (db st)) →
  ∃ a1 a,
    (serve cfg w1 req1 st).1.1 =
      Sent {| Response.status := 200; Response.body := AppRow a1 |} ∧
    (serve cfg w2 req2 (serve cfg w1 req1 st).2).1.1 =
      Sent {| Response.status := 200; Response.body := AppRow a |} ∧
    filter (λ a, App.slug a = s) (apps (db (after cfg [(w1, req1); (w2, req2)] st))) = [a] ∧
    App.name a = n2.
Proof.
  intros Ht1 Ht2 Hauth1 Hauth2 Hup1 Hup2 Hs1 Hn1 Hs2 Hn2 Hs Hne1 Hne2 Hkey.
  cbn [after foldl fst snd].
  destruct (serve_post_apps cfg w1 req1 st) as [Hdb1 Hres1]; try done;
    [rewrite Hs1; by apply truthy_JStr|rewrite Hn1; by apply truthy_JStr|].
  destruct (serve_post_apps cfg w2 req2 (serve cfg w1 req1 st).2) as [Hdb2 Hres2]; try done;
    [rewrite Hs2; by apply truthy_JStr|rewrite Hn2; by apply truthy_JStr|].
  rewrite Hres1, Hres2, Hdb2, Hdb1, Hs1, Hn1, Hs2, Hn2.
  destruct (upsert_app_row (now w1) (JStr s) (JStr n1)
              (or_null (field (Request.body req1) "repo_url"))
              (or_null (field (Request.body req1) "public_url")) s n1 (db st))
    as (a1 & Hok1 & _ & _ & _ & _ & _ & Hkey1 & _); [done..|].
  destruct (upsert_app_row (now w2) (JStr s) (JStr n2)
              (or_null (field (Request.body req2) "repo_url"))
              (or_null (field (Request.body req2) "public_url")) s n2 _ eq_refl eq_refl Hkey1)
    as (a2 & Hok2 & Hrow & _ & Hname & _).
  exists a1, a2. by rewrite Hok1, Hok2.
Qed.

End upsert_twice.

(** * What the inserts store *)

Lemma kept_or_null (v : jsval) : kept v (bind (or_null v)).
Proof. unfold kept, or_null. by destruct (truthy v). Qed.

Lemma to_text_not_null_inv (column : string) (v : jsval) (t : string) :
  to_text_not_null column v = Ok t → bind v = Some t.
Proof. unfold to_text_not_null. destruct (bind v); by intros [= ->]. Qed.

Lemma kept_or_default (d : string) (v : jsval) (col : string) :
  bind (with_default (JStr d) v) = Some col → kept_or d v col.
Proof.
  unfold kept_or. destruct v; cbn; intros Hb; split; intros Hv; done || congruence.
Qed.

Lemma insert_deployment_Ok (now app_id : Z) (p2 p3 p4 p5 : jsval)
    (db db' : database) (d : Deployment.t) :
  insert_deployment now app_id p2 p3 p4 p5 db = (Ok d, db') →
  deployments db' = deployments db ++ [d] ∧
  apps db' = apps db ∧ usage_events db' = usage_events db ∧
  d = {| Deployment.id := deployments_id_seq db; Deployment.app_id := app_id;
         Deployment.environment := Deployment.environment d;
         Deployment.version := bind p3; Deployment.note := bind p4;
         Deployment.deployed_by := bind p5; Deployment.deployed_at := now |} ∧
  bind p2 = Some (Deployment.environment d) ∧
  app_id ∈ App.id <$> apps db.
Proof.
  unfold insert_deployment.
  destruct (to_text_not_null "environment" p2) as [env|e] eqn:Henv; [|done].
  apply to_text_not_null_inv in Henv.
  destruct (decide _) as [Hfk|]; [|done]. by intros [= <- <-].
Qed.

Lemma insert_usage_event_Ok `{Session} (now app_id : Z) (p2 p3 p4 p5 p6 p7 p8 : jsval)
    (db db' : database) (u : UsageEvent.t) :
  insert_usage_event now app_id p2 p3 p4 p5 p6 p7 p8 db = (Ok u, db') →
  usage_events db' = usage_events db ++ [u] ∧
  apps db' = apps db ∧ deployments db' = deployments db ∧
  u = {| UsageEvent.id := usage_events_id_seq db; UsageEvent.app_id := app_id;
         UsageEvent.ts := now; UsageEvent.kind := UsageEvent.kind u;
         UsageEvent.method := bind p3; UsageEvent.path := bind p4;
         UsageEvent.status := UsageEvent.status u; UsageEvent.ip := UsageEvent.ip u;
         UsageEvent.user_agent := bind p7; UsageEvent.error_message := bind p8 |} ∧
  bind p2 = Some (UsageEvent.kind u) ∧
  to_int4 "status" p5 = Ok (UsageEvent.status u) ∧
  to_inet "ip" p6 = Ok (UsageEvent.ip u) ∧
  app_id ∈ App.id <$> apps db.
Proof.
  unfold insert_usage_event.
  destruct (to_int4 "status" p5) as [st|e]; [|done].
  destruct (to_inet "ip" p6) as [addr|e]; [|done].
  destruct (to_text_not_null "kind" p2) as [k|e] eqn:Hkind; [|done].
  apply to_text_not_null_inv in Hkind.
  destruct (decide _) as [Hfk|]; [|done]. by intros [= <- <-].
Qed.

Lemma requireToken_status (token authorization : option string) (s : Z) (b : error_body) :
  requireToken token authorization = Reply s b → s = 500 ∨ s = 401.
Proof.
  unfold requireToken. destruct (negb _); [intros [= <- _]; by left|].
  destruct (negb _); [intros [= <- _]; by right|done].
Qed.

Section accepted.
Context `{Session}.

(** A response with status 200 is the handler's. *)
Lemma serve_accepted (cfg : config) (w : world) (req : Request.t) (st : state)
    (res : Response.t) :
  (serve cfg w req st).1.1 = Sent res → Response.status res = 200 →
  ∃ qs, handler (Request.target req) (Request.body req) w (db st)
        = (Ok res, db (serve cfg w req st).2, qs).
Proof.
  destruct (rate_limited w req st) eqn:Hlim.
  { rewrite serve_rate_limited by done. by intros [= <-]. }
  destruct (decide (protected (Request.target req))) as [Hprot|Hopen].
  - destruct (requireToken (DASHBOARD_TOKEN cfg) (Request.authorization req))
      as [|s b] eqn:Hreq.
    + rewrite serve_handled by done.
      destruct (handler _ _ _ _) as [[[r|e] db1] qs]; [|done].
      intros [= ->] _. by eexists.
    + erewrite serve_rejected by done. intros [= <-] Hs.
      apply requireToken_status in Hreq. cbn in Hs. lia.
  - rewrite serve_handled by done.
    destruct (handler _ _ _ _) as [[[r|e] db1] qs]; [|done].
    intros [= ->] _. by eexists.
Qed.

Lemma apps_upsert_200 (body : gmap string jsval) (w : world) (db db' : database)
    (res : Response.t) (qs : list stmt) :
  apps_upsert body w db = (Ok res, db', qs) → Response.status res = 200 →
  ∃ a, Response.body res = AppRow a ∧
       truthy (field body "slug") = true ∧ truthy (field body "name") = true ∧
       upsert_app (now w) (field body "slug") (field body "name")
         (or_null (field body "repo_url")) (or_null (field body "public_url")) db
       = (Ok a, db').
Proof.
  unfold apps_upsert, bind_M, read, query, json, ret. cbv beta.
  destruct (truthy (field body "slug")), (truthy (field body "name")); cbn [negb orb];
    try (by intros [= <- _ _]).
  destruct (pool_up w); [|done].
  destruct (upsert_app _ _ _ _ _ _) as [[a|e] db1]; [|done].
  intros [= <- <- _] _. by exists a.
Qed.

Lemma deployments_record_200 (body : gmap string jsval) (w : world) (db db' : database)
    (res : Response.t) (qs : list stmt) :
  deployments_record body w db = (Ok res, db', qs) → Response.status res = 200 →
  ∃ d appId, Response.body res = DeploymentRow d ∧
       truthy (field body "app_slug") = true ∧
       head (select_app_id (field body "app_slug") db) = Some appId ∧
       insert_deployment (now w) appId
         (with_default (JStr "prod") (field body "environment"))
         (or_null (field body "version")) (or_null (field body "note"))
         (or_null (field body "deployed_by")) db
       = (Ok d, db').
Proof.
  unfold deployments_record, bind_M, read, query, json, ret. cbv beta.
  destruct (truthy (field body "app_slug")); cbn [negb]; [|by intros [= <- _ _]].
  destruct (pool_up w) eqn:Hup; cbn; [|done].
  destruct (head _) as [appId|]; [|by intros [= <- _ _]]. rewrite Hup.
  destruct (insert_deployment _ _ _ _ _ _ _) as [[d|e] db1] eqn:Hins; [|done].
  intros [= <- <- _] _. by exists d, appId.
Qed.

Lemma usage_record_200 (body : gmap string jsval) (w : world) (db db' : database)
    (res : Response.t) (qs : list stmt) :
  usage_record body w db = (Ok res, db', qs) → Response.status res = 200 →
  ∃ u appId, Response.body res = UsageRow u ∧
       truthy (field body "app_slug") = true ∧
       head (select_app_id (field body "app_slug") db) = Some appId ∧
       insert_usage_event (now w) appId
         (with_default (JStr "request") (field body "kind"))
         (or_null (field body "method")) (or_null (field body "path"))
         (or_null (field body "status")) (or_null (field body "ip"))
         (or_null (field body "user_agent")) (or_null (field body "error_message")) db
       = (Ok u, db').
Proof.
  unfold usage_record, bind_M, read, query, json, ret. cbv beta.
  destruct (truthy (field body "app_slug")); cbn [negb]; [|by intros [= <- _ _]].
  destruct (pool_up w) eqn:Hup; cbn; [|done].
  destruct (head _) as [appId|]; [|by intros [= <- _ _]]. rewrite Hup.
  destruct (insert_usage_event _ _ _ _ _ _ _ _ _ _) as [[u|e] db1] eqn:Hins; [|done].
  intros [= <- <- _] _. by exists u, appId.
Qed.

End accepted.

Lemma upsert_app_Ok (now : Z) (p1 p2 p3 p4 : jsval) (db db' : database) (a : App.t) :
  upsert_app now p1 p2 p3 p4 db = (Ok a, db') →
  a ∈ apps db' ∧ bind p1 = Some (App.slug a) ∧ bind p2 = Some (App.name a) ∧
  App.repo_url a = bind p3 ∧ App.public_url a = bind p4.
Proof.
  unfold upsert_app.
  destruct (to_text_not_null "slug" p1) as [s|e] eqn:Hs; [|done].
  destruct (to_text_not_null "name" p2) as [n|e] eqn:Hn; [|done].
  apply to_text_not_null_inv in Hs, Hn.
  destruct (filter _ (apps db)) as [|old rest] eqn:E.
  - intros [= <- <-]. cbn. split; [|done]. apply elem_of_app. right. by left.
  - assert (Hold : old ∈ filter (λ a, App.slug a = s) (apps db)) by (rewrite E; left).
    apply list_elem_of_filter in Hold as [Hslug Hold].
    intros [= <- <-]. cbn. split; [|by rewrite Hslug].
    apply list_elem_of_fmap. exists old. by rewrite decide_True.
Qed.

Lemma kept_status_or_null `{Session} (v : jsval) (col : option Z) :
  to_int4 "status" (or_null v) = Ok col → kept_status v col.
Proof.
  unfold kept_status, or_null. destruct (truthy v); [done|].
  cbn. intros [= <-]. done.
Qed.

Lemma kept_ip_or_null `{Session} (v : jsval) (col : option string) :
  to_inet "ip" (or_null v) = Ok col → kept_ip v col.
Proof.
  unfold kept_ip, or_null. destruct (truthy v); [done|].
  cbn. intros [= <-]. done.
Qed.

Section stored.
Context `{Session}.

(** C9, as the server has it.  When an ingestion request is accepted
    (status 200), the row it answers with is in the table, and of the
    optional fields of the body: [environment] and [kind] are stored as
    the text bound for them, or as ["prod"] and ["request"] when they are
    omitted; every other optional field is stored as null when it is
    omitted or falsy (null, false, 0, the empty string), and otherwise as
    the text bound for it, which for a string is the string; [status] and
    [ip] are stored as the input functions of [int] and [inet] read
    them. *)
Theorem optional_fields_are_stored_when_truthy
    (cfg : config) (w : world) (req : Request.t) (st : state) (res : Response.t) :
  (serve cfg w req st).1.1 = Sent res → Response.status res = 200 →
  (Request.target req = post_apps →
     ∃ a, Response.body res = AppRow a ∧ a ∈ apps (db (serve cfg w req st).2) ∧
       kept (field (Request.body req) "repo_url") (App.repo_url a) ∧
       kept (field (Request.body req) "public_url") (App.public_url a)) ∧
  (Request.target req = post_deployments →
     ∃ d, Response.body res = DeploymentRow d ∧
       d ∈ deployments (db (serve cfg w req st).2) ∧
       kept_or "prod" (field (Request.body req) "environment") (Deployment.environment d) ∧
       kept (field (Request.body req) "version") (Deployment.version d) ∧
       kept (field (Request.body req) "note") (Deployment.note d) ∧
       kept (field (Request.body req) "deployed_by") (Deployment.deployed_by d)) ∧
  (Request.target req = post_usage →
     ∃ u, Response.body res = UsageRow u ∧
       u ∈ usage_events (db (serve cfg w req st).2) ∧
       kept_or "request" (field (Request.body req) "kind") (UsageEvent.kind u) ∧
       kept (field (Request.body req) "method") (UsageEvent.method u) ∧
       kept (field (Request.body req) "path") (UsageEvent.path u) ∧
       kept_status (field (Request.body req) "status") (UsageEvent.status u) ∧
       kept_ip (field (Request.body req) "ip") (UsageEvent.ip u) ∧
       kept (field (Request.body req) "user_agent") (UsageEvent.user_agent u) ∧
       kept (field (Request.body req) "error_message") (UsageEvent.error_message u)).
Proof.
  intros Hsent H200.
  destruct (serve_accepted cfg w req st res Hsent H200) as (qs & Hhandler).
  split; [|split]; intros Ht; rewrite Ht in Hhandler; cbn [handler] in Hhandler.
  - apply apps_upsert_200 in Hhandler as (a & Hbody & _ & _ & Hup); [|done].
    apply upsert_app_Ok in Hup as (Hin & _ & _ & Hrepo & Hpub).
    exists a. do 2 (split; [done|]). rewrite Hrepo, Hpub. split; apply kept_or_null.
  - apply deployments_record_200 in Hhandler as (d & appId & Hbody & _ & _ & Hins); [|done].
    apply insert_deployment_Ok in Hins as (Hrows & _ & _ & Hd & Henv & _).
    exists d. split; [done|]. split; [rewrite Hrows, elem_of_app; right; by left|].
    split; [by apply kept_or_default|]. rewrite Hd. cbn.
    repeat split; apply kept_or_null.
  - apply usage_record_200 in Hhandler as (u & appId & Hbody & _ & _ & Hins); [|done].
    apply insert_usage_event_Ok in Hins as (Hrows & _ & _ & Hu & Hkind & Hst & Hip & _).
    exists u. split; [done|]. split; [rewrite Hrows, elem_of_app; right; by left|].
    split; [by apply kept_or_default|].
    split; [rewrite Hu; apply kept_or_null|]. split; [rewrite Hu; apply kept_or_null|].
    split; [by apply kept_status_or_null|]. split; [by apply kept_ip_or_null|].
    split; rewrite Hu; apply kept_or_null.
Qed.

End stored.

(** * Retention pruning *)

Lemma filter_all {A : Type} (P : A → Prop) `{∀ x, Decision (P x)} (l : list A) :
  (∀ x, x ∈ l → P x) → filter P l = l.
Proof.
  induction l as [|x l IH]; intros HP; [done|].
  rewrite filter_cons, decide_True by (apply HP; left).
  f_equal. apply IH. intros y Hy. apply HP. by right.
Qed.

Section pruning.
Context `{Session}.

Lemma days_before_Some (now days c : Z) :
  days_before now days = Some c → c = now - day_us * days.
Proof.
  unfold days_before. destruct (int4 days); [|done]. cbn.
  destruct (_ && _); [|done]. by intros [= <-].
Qed.

Lemma prune_days (now : Z) (n : number) (db : database) :
  is_Some (days_before now n) →
  prune now (JNum n) db =
    (Ok (UsageEvent.id <$> before (now - day_us * n) (usage_events db)),
     with_usage_events (not_before (now - day_us * n) (usage_events db)) db).
Proof.
  intros [c Hc]. unfold prune, before, not_before, with_usage_events.
  cbn [to_float8 cutoff]. rewrite Hc. apply days_before_Some in Hc as ->.
  cbn [fmap option_fmap option_map].
  rewrite (list_filter_iff (older_than (Some (now - day_us * n)))
             (λ e, UsageEvent.ts e < now - day_us * n)) by done.
  rewrite (list_filter_iff (λ e, ¬ older_than (Some (now - day_us * n)) e)
             (λ e, now - day_us * n ≤ UsageEvent.ts e)) by (intros e; cbn; lia).
  done.
Qed.

Lemma admin_prune_days (body : gmap string jsval) (w : world) (db : database)
    (n : number) :
  pool_up w = true → asks_days body n → is_Some (days_before (now w) n) →
  admin_prune body w db =
    (Ok {| Response.status := 200;
           Response.body :=
             Pruned (Z.of_nat (length (before (now w - day_us * n) (usage_events db))))
                    (JNum n) |},
     with_usage_events (not_before (now w - day_us * n) (usage_events db)) db,
     [q_prune]).
Proof.
  intros Hup Hdays Hreach. unfold admin_prune, bind_M, query, json, ret. rewrite Hup.
  assert (Hd : with_default (JNum (num 90)) (field body "days") = JNum n)
    by (destruct Hdays as [-> | [-> ->]]; done).
  rewrite Hd, prune_days by done. cbn. by rewrite length_fmap.
Qed.

Lemma serve_prune (cfg : config) (w : world) (req : Request.t) (st : state)
    (n : number) :
  Request.target req = post_prune → authorized cfg req → pool_up w = true →
  asks_days (Request.body req) n → is_Some (days_before (now w) n) →
  serve cfg w req st =
    (Sent {| Response.status := 200;
             Response.body :=
               Pruned (Z.of_nat (length (before (now w - day_us * n)
                                           (usage_events (db st)))))
                      (JNum n) |},
     [Ran use_requireToken; Entered post_prune; Sent_query q_prune],
     {| db := with_usage_events
                (not_before (now w - day_us * n) (usage_events (db st))) (db st);
        usage_hits := usage_hits st |}).
Proof.
  intros Ht Hauth Hup Hdays Hreach.
  rewrite serve_handled; [|apply not_rate_limited; by rewrite Ht|done].
  rewrite Ht. cbn [handler]. rewrite (admin_prune_days _ _ _ n) by done.
  unfold counted. rewrite Ht, decide_False by done. done.
Qed.


End pruning.

(** * Counting *)

Lemma int4_in_range (n : Z) : 0 ≤ n ≤ int4_max → int4 n = Some n.
Proof.
  intros Hn. unfold int4, int4_min, int4_max in *.
  destruct (Z.leb_spec (-2147483648) n), (Z.leb_spec n 2147483647); done || lia.
Qed.

Lemma count_int_Some {K A : Type} (gs : list (K * list A)) :
  Forall (λ g, Z.of_nat (length g.2) ≤ int4_max) gs →
  count_int gs = Some (sizes gs).
Proof.
  intros Hfit. unfold count_int, sizes. apply mapM_Some_2.
  induction Hfit as [|g gs Hg Hgs IH]; [constructor|].
  rewrite fmap_cons. constructor; [|done].
  rewrite int4_in_range by lia. done.
Qed.

Lemma count_int_group_by {A K : Type} `{EqDecision K} (key : A → K) (l : list A) :
  Z.of_nat (length l) ≤ int4_max →
  count_int (group_by key l) = Some (sizes (group_by key l)).
Proof.
  intros Hfit. apply count_int_Some, Forall_forall. intros [k g] Hg. cbn.
  apply elem_of_group_by in Hg as [_ ->].
  pose proof (length_filter (λ x, key x = k) l). lia.
Qed.

Lemma elem_of_sizes_group_by {A K : Type} `{EqDecision K} (key : A → K) (l : list A)
    (k : K) (n : Z) :
  (k, n) ∈ sizes (group_by key l) ↔
  k ∈ key <$> l ∧ n = Z.of_nat (length (filter (λ x, key x = k) l)).
Proof.
  unfold sizes. rewrite list_elem_of_fmap. split.
  - intros ([k' g] & [= -> ->] & Hg). cbn. apply elem_of_group_by in Hg as [Hk ->]. done.
  - intros [Hk ->]. exists (k, filter (λ x, key x = k) l). split; [done|].
    by apply elem_of_group_by.
Qed.

Lemma sizes_keys {K A : Type} (gs : list (K * list A)) : (sizes gs).*1 = gs.*1.
Proof. unfold sizes. rewrite <- list_fmap_compose. by apply list_fmap_ext. Qed.

Lemma sum_Permutation (l1 l2 : list Z) : l1 ≡ₚ l2 → sum l1 = sum l2.
Proof. unfold sum. induction 1; cbn in *; lia. Qed.

(** The sizes of the groups add up to the number of rows. *)
Lemma sum_sizes_group_by {A K : Type} `{EqDecision K} (key : A → K) (l : list A) :
  sum (sizes (group_by key l)).*2 = Z.of_nat (length l).
Proof.
  unfold sizes, group_by. rewrite <- !list_fmap_compose.
  rewrite <- (sum_group_sizes key (remove_dups (key <$> l)) l).
  - done.
  - apply NoDup_remove_dups.
  - intros x Hx. apply elem_of_remove_dups. by apply list_elem_of_fmap_2.
Qed.

(** * The analytics *)

Lemma usage_join_apps_length (db : database) (l : list UsageEvent.t) :
  NoDup (App.id <$> apps db) → (length (usage_join_apps db l) ≤ length l)%nat.
Proof.
  intros Hkey. unfold usage_join_apps. induction l as [|ue l IH]; [done|].
  rewrite bind_cons, length_app. cbn [length].
  assert (length (filter (λ a, App.id a = UsageEvent.app_id ue) (apps db)
                    ≫= λ a, [(ue, a)]) ≤ 1)%nat; [|lia].
  destruct (filter_unique_key App.id (UsageEvent.app_id ue) (apps db) Hkey)
    as [->|[a ->]]; cbn; lia.
Qed.

Section analytics.
Context `{Session}.

Lemma dailyQ_Ok (now : Z) (db : database) :
  Z.of_nat (length (usage_events db)) ≤ int4_max →
  dailyQ now db =
    Ok (merge_sort date_order
          (sizes (group_by (λ e, date_trunc_day (UsageEvent.ts e))
                    (last_7_days now (usage_events db))))).
Proof.
  intros Hfit. unfold dailyQ. rewrite count_int_group_by; [done|].
  pose proof (length_filter (λ e, now - 7 * day_us ≤ UsageEvent.ts e) (usage_events db)).
  unfold last_7_days. lia.
Qed.

Lemma byAppQ_Ok (now : Z) (db : database) :
  Z.of_nat (length (usage_events db)) ≤ int4_max →
  NoDup (App.id <$> apps db) →
  ∃ rows, byAppQ now db = Ok rows.
Proof.
  intros Hfit Hkey. unfold byAppQ. rewrite count_int_group_by; [by eexists|].
  pose proof (usage_join_apps_length db (last_7_days now (usage_events db)) Hkey).
  pose proof (length_filter (λ e, now - 7 * day_us ≤ UsageEvent.ts e) (usage_events db)).
  unfold last_7_days in *. lia.
Qed.

Lemma recentDeploysQ_Ok (now : Z) (db : database) :
  Z.of_nat (length (deployments db)) ≤ int4_max →
  ∃ n, recentDeploysQ now db = Ok [n].
Proof.
  intros Hfit. unfold recentDeploysQ. rewrite int4_in_range; [by eexists|].
  pose proof (length_filter (λ d, now - 7 * day_us ≤ Deployment.deployed_at d)
                (deployments db)). lia.
Qed.

(** C4.  The analytics answer has one row for every day on which the
    trailing seven days saw a usage event, with the number of events of
    that day, and the totals add up to the number of usage events whose
    timestamp is at or after [now - 7 days]. *)
Theorem daily_totals_add_up
    (cfg : config) (w : world) (req : Request.t) (st : state) :
  Request.target req = get_analytics → authorized cfg req → pool_up w = true →
  Z.of_nat (length (usage_events (db st))) ≤ int4_max →
  Z.of_nat (length (deployments (db st))) ≤ int4_max →
  NoDup (App.id <$> apps (db st)) →
  ∃ daily by_app recent t,
    serve cfg w req st =
      (Sent {| Response.status := 200;
               Response.body := Analytics daily by_app recent |}, t, st) ∧
    sum daily.*2 =
      Z.of_nat (length (filter (λ e, now w - 7 * day_us ≤ UsageEvent.ts e)
                          (usage_events (db st)))) ∧
    NoDup daily.*1 ∧
    ∀ day total, (day, total) ∈ daily ↔
      (∃ e, e ∈ usage_events (db st) ∧ now w - 7 * day_us ≤ UsageEvent.ts e ∧
            date_trunc_day (UsageEvent.ts e) = day) ∧
      total = Z.of_nat (length
        (filter (λ e, date_trunc_day (UsageEvent.ts e) = day ∧
                      now w - 7 * day_us ≤ UsageEvent.ts e)
           (usage_events (db st)))).
Proof.
  intros Ht Hauth Hup Hev Hdep Hkey.
  rewrite serve_handled; [|apply not_rate_limited; by rewrite Ht|done].
  rewrite Ht. cbn [handler]. unfold counted. rewrite Ht, decide_False by done.
  unfold dashboard_analytics, bind_M, both, read, query, json, ret. rewrite Hup.
  rewrite dailyQ_Ok by done.
  destruct (byAppQ_Ok (now w) (db st) Hev Hkey) as [by_app ->].
  destruct (recentDeploysQ_Ok (now w) (db st) Hdep) as [n ->].
  cbn. rewrite state_eta. eexists _, _, _, _. split; [done|].
  pose proof (merge_sort_Permutation date_order
    (sizes (group_by (λ e, date_trunc_day (UsageEvent.ts e))
              (last_7_days (now w) (usage_events (db st)))))) as Hperm.
  split; [|split].
  - rewrite (sum_Permutation _ _ (fmap_Permutation snd _ _ Hperm)).
    apply sum_sizes_group_by.
  - rewrite (fmap_Permutation fst _ _ Hperm), sizes_keys, group_by_keys.
    apply NoDup_remove_dups.
  - intros day total. rewrite Hperm, elem_of_sizes_group_by.
    unfold last_7_days. rewrite list_filter_filter.
    split; intros [Hday ->]; (split; [|done]).
    + apply list_elem_of_fmap in Hday as (e & -> & [? ?]%list_elem_of_filter). by exists e.
    + destruct Hday as (e & He & Hts & <-).
      apply (list_elem_of_fmap_2 (λ e, date_trunc_day (UsageEvent.ts e))).
      by apply list_elem_of_filter.
Qed.

End analytics.

(** * The overview *)

Lemma left_join_inhabited {B : Type} (P : B → Prop) `{∀ b, Decision (P b)} (l : list B) :
  ∃ o, o ∈ left_join P l.
Proof.
  unfold left_join. destruct (filter P l) as [|b ms].
  - exists None. by left.
  - exists (Some b). by left.
Qed.

Lemma unique_key_inj {A K : Type} (key : A → K) (l : list A) (x y : A) :
  NoDup (key <$> l) → x ∈ l → y ∈ l → key x = key y → x = y.
Proof.
  induction l as [|z l IH]; [by intros _ ?%elem_of_nil|].
  rewrite fmap_cons, NoDup_cons. intros [Hz Hnd] Hx Hy Hk.
  apply elem_of_cons in Hx as [->|Hx], Hy as [->|Hy]; [done| | |by apply IH].
  - destruct Hz. rewrite Hk. by apply list_elem_of_fmap_2.
  - destruct Hz. rewrite <- Hk. by apply list_elem_of_fmap_2.
Qed.

Lemma elem_of_overview_join (lds : list Deployment.t) (us : list (Z * Z))
    (l : list App.t) (r : overview_row) :
  r ∈ overview_join lds us l ↔
  ∃ a ld u, a ∈ l ∧
    ld ∈ left_join (λ d, Deployment.app_id d = App.id a) lds ∧
    u ∈ left_join (λ u : Z * Z, u.1 = App.id a) us ∧
    r = overview_select a ld u.
Proof.
  unfold overview_join. rewrite list_elem_of_bind. split.
  - intros (a & Hr & Ha). apply list_elem_of_bind in Hr as (ld & Hr & Hld).
    apply list_elem_of_bind in Hr as (u & Hr & Hu).
    apply list_elem_of_singleton in Hr. by exists a, ld, u.
  - intros (a & ld & u & Ha & Hld & Hu & ->). exists a. split; [|done].
    apply list_elem_of_bind. exists ld. split; [|done].
    apply list_elem_of_bind. exists u. split; [|done]. by left.
Qed.

Section overview.
Context `{Session}.

Lemma usage_24h_Some (now : Z) (db : database) :
  Z.of_nat (length (usage_events db)) ≤ int4_max →
  usage_24h now db = Some (hit_counts now db).
Proof.
  intros Hfit. unfold usage_24h, hit_counts. apply count_int_group_by.
  pose proof (length_filter (λ e, now - 24 * hour_us ≤ UsageEvent.ts e) (usage_events db)).
  lia.
Qed.

Lemma serve_overview (cfg : config) (w : world) (req : Request.t) (st : state) :
  Request.target req = get_overview → authorized cfg req → pool_up w = true →
  Z.of_nat (length (usage_events (db st))) ≤ int4_max →
  serve cfg w req st =
    (Sent {| Response.status := 200;
             Response.body :=
               Overview (merge_sort name_order
                 (overview_join (last_deploy (db st)) (hit_counts (now w) (db st))
                    (apps (db st)))) |},
     [Ran use_requireToken; Entered get_overview; Sent_query q_overview], st).
Proof.
  intros Ht Hauth Hup Hfit.
  rewrite serve_handled; [|apply not_rate_limited; by rewrite Ht|done].
  rewrite Ht. cbn [handler]. unfold counted. rewrite Ht, decide_False by done.
  unfold dashboard_overview, bind_M, read, query, json, ret. rewrite Hup.
  unfold overview. rewrite usage_24h_Some by done. cbn. by rewrite state_eta.
Qed.

(** The rows of one application in the overview. *)
Lemma overview_rows_of (now : Z) (db : database) (a : App.t) :
  NoDup (App.slug <$> apps db) → a ∈ apps db →
  (∃ r, r ∈ merge_sort name_order
              (overview_join (last_deploy db) (hit_counts now db) (apps db)) ∧
        o_slug r = App.slug a) ∧
  ∀ r, r ∈ merge_sort name_order
             (overview_join (last_deploy db) (hit_counts now db) (apps db)) →
       o_slug r = App.slug a →
       ∃ ld u,
         ld ∈ left_join (λ d, Deployment.app_id d = App.id a) (last_deploy db) ∧
         u ∈ left_join (λ u : Z * Z, u.1 = App.id a) (hit_counts now db) ∧
         r = overview_select a ld u.
Proof.
  intros Hkey Ha. split.
  - destruct (left_join_inhabited (λ d, Deployment.app_id d = App.id a) (last_deploy db))
      as [ld Hld].
    destruct (left_join_inhabited (λ u : Z * Z, u.1 = App.id a) (hit_counts now db)) as [u Hu].
    exists (overview_select a ld u). split; [|done].
    rewrite merge_sort_Permutation. apply elem_of_overview_join. by exists a, ld, u.
  - intros r Hr Hslug. rewrite merge_sort_Permutation in Hr.
    apply elem_of_overview_join in Hr as (a' & ld & u & Ha' & Hld & Hu & ->).
    cbn in Hslug. assert (a' = a) as -> by (by eapply unique_key_inj).
    by exists ld, u.
Qed.

(** C3.  For an application with at least one deployment, the overview has
    a row, and the deployment fields of its row are those of a deployment
    of the application than which none of its deployments is later,
    however close the timestamps are. *)
Theorem overview_shows_the_latest_deployment
    (cfg : config) (w : world) (req : Request.t) (st : state) (a : App.t) :
  Request.target req = get_overview → authorized cfg req → pool_up w = true →
  Z.of_nat (length (usage_events (db st))) ≤ int4_max →
  NoDup (App.slug <$> apps (db st)) →
  a ∈ apps (db st) →
  (∃ d, d ∈ deployments (db st) ∧ Deployment.app_id d = App.id a) →
  ∃ rows t,
    serve cfg w req st =
      (Sent {| Response.status := 200; Response.body := Overview rows |}, t, st) ∧
    (∃ r, r ∈ rows ∧ o_slug r = App.slug a) ∧
    ∀ r, r ∈ rows → o_slug r = App.slug a →
      ∃ d, d ∈ deployments (db st) ∧ Deployment.app_id d = App.id a ∧
        (∀ d', d' ∈ deployments (db st) → Deployment.app_id d' = App.id a →
               Deployment.deployed_at d' ≤ Deployment.deployed_at d) ∧
        o_deployed_at r = Some (Deployment.deployed_at d) ∧
        o_environment r = Some (Deployment.environment d) ∧
        o_version r = Deployment.version d ∧
        o_note r = Deployment.note d.
Proof.
  intros Ht Hauth Hup Hfit Hkey Ha (d0 & Hd0 & Hd0a).
  rewrite serve_overview by done. eexists _, _. split; [done|].
  destruct (overview_rows_of (now w) (db st) a Hkey Ha) as [Hex Hrows].
  split; [done|]. intros r Hr Hslug.
  destruct (Hrows r Hr Hslug) as (ld & u & Hld & _ & ->).
  apply elem_of_left_join in Hld. destruct ld as [d|].
  - destruct Hld as [Hd Hda]. apply last_deploy_sound in Hd as [Hd Hmax].
    exists d. split; [done|]. split; [done|]. split; [|done].
    intros d' Hd' Hd'a. apply Hmax; [done|]. by rewrite Hda.
  - destruct (last_deploy_complete (db st) d0 Hd0) as (z & Hz & Hza).
    destruct (Hld z Hz). by rewrite Hza.
Qed.

(** C7.  Every registered application has a row in the overview, and the
    [hits_24h] of its row is the number of its usage events with a
    timestamp at or after [now - 24 hours]: the number 0 when it has
    none. *)
Theorem overview_counts_the_hits_of_24_hours
    (cfg : config) (w : world) (req : Request.t) (st : state) (a : App.t) :
  Request.target req = get_overview → authorized cfg req → pool_up w = true →
  Z.of_nat (length (usage_events (db st))) ≤ int4_max →
  NoDup (App.slug <$> apps (db st)) →
  a ∈ apps (db st) →
  ∃ rows t,
    serve cfg w req st =
      (Sent {| Response.status := 200; Response.body := Overview rows |}, t, st) ∧
    (∃ r, r ∈ rows ∧ o_slug r = App.slug a) ∧
    ∀ r, r ∈ rows → o_slug r = App.slug a →
      o_hits_24h r =
        Z.of_nat (length
          (filter (λ e, UsageEvent.app_id e = App.id a ∧
                        now w - 24 * hour_us ≤ UsageEvent.ts e)
             (usage_events (db st)))) ∧
      ((∀ e, e ∈ usage_events (db st) → UsageEvent.app_id e = App.id a →
             UsageEvent.ts e < now w - 24 * hour_us) →
       o_hits_24h r = 0).
Proof.
  intros Ht Hauth Hup Hfit Hkey Ha.
  rewrite serve_overview by done. eexists _, _. split; [done|].
  destruct (overview_rows_of (now w) (db st) a Hkey Ha) as [Hex Hrows].
  split; [done|]. intros r Hr Hslug.
  destruct (Hrows r Hr Hslug) as (ld & u & _ & Hu & ->).
  assert (Hcount : o_hits_24h (overview_select a ld u) =
    Z.of_nat (length (filter (λ e, UsageEvent.app_id e = App.id a ∧
                                   now w - 24 * hour_us ≤ UsageEvent.ts e)
                        (usage_events (db st))))).
  { rewrite <- list_filter_filter. cbn [o_hits_24h overview_select].
    apply elem_of_left_join in Hu. destruct u as [[k n]|]; cbn.
    - destruct Hu as [Hkn Hk]. cbn in Hk. subst k.
      by apply elem_of_sizes_group_by in Hkn as [_ ->].
    - destruct (filter (λ e, UsageEvent.app_id e = App.id a) _) as [|e l] eqn:E; [done|].
      assert (He : e ∈ e :: l) by left. rewrite <- E in He.
      apply list_elem_of_filter in He as [Hea He].
      destruct (Hu (App.id a, Z.of_nat (length (filter
        (λ e, UsageEvent.app_id e = App.id a)
        (filter (λ e, now w - 24 * hour_us ≤ UsageEvent.ts e) (usage_events (db st))))))).
      + apply elem_of_sizes_group_by. split; [|done].
        rewrite <- Hea. by apply list_elem_of_fmap_2.
      + done. }
  split; [done|]. intros Hnone. rewrite Hcount.
  rewrite (proj2 (filter_nil_iff _ _)); [done|].
  intros e He [Hea Hts]. specialize (Hnone e He Hea). lia.
Qed.

End overview.

(** * The constraints hold in every state the server reaches *)

Lemma consistent_empty : consistent Pg.empty.
Proof.
  split; cbn; try apply NoDup_nil_2; by intros ? ?%elem_of_nil.
Qed.

Lemma consistent_set_apps_seq (db : database) (s : Z) :
  apps_id_seq db ≤ s → consistent db → consistent (set_apps (apps db) s db).
Proof.
  intros Hs [? ? Hseq ? ?]. split; cbn; try done.
  intros a Ha. specialize (Hseq a Ha). lia.
Qed.

Lemma consistent_set_deployments_seq (db : database) (s : Z) :
  consistent db → consistent (set_deployments (deployments db) s db).
Proof. by intros [? ? ? ? ?]. Qed.

Lemma consistent_set_usage_events_seq (db : database) (s : Z) :
  consistent db → consistent (set_usage_events (usage_events db) s db).
Proof. by intros [? ? ? ? ?]. Qed.

Lemma upsert_app_consistent (now : Z) (p1 p2 p3 p4 : jsval) (db : database) :
  consistent db → consistent (upsert_app now p1 p2 p3 p4 db).2.
Proof.
  intros Hc. unfold upsert_app.
  destruct (to_text_not_null "slug" p1) as [s|e];
    [|cbn; apply consistent_set_apps_seq; [lia|done]].
  destruct (to_text_not_null "name" p2) as [n|e];
    [|cbn; apply consistent_set_apps_seq; [lia|done]].
  destruct Hc as [Hid Hslug Hseq Hdep Hev].
  destruct (filter _ (apps db)) as [|old rest] eqn:E; cbn [snd].
  - split; cbn.
    + rewrite fmap_app. apply NoDup_app. split; [done|]. split; [|apply NoDup_singleton].
      intros i Hi ->%list_elem_of_singleton.
      apply list_elem_of_fmap in Hi as (a & Ha & Hin). specialize (Hseq a Hin). cbn in Ha. lia.
    + rewrite fmap_app. apply NoDup_app. split; [done|]. split; [|apply NoDup_singleton].
      intros s' Hs' ->%list_elem_of_singleton.
      apply list_elem_of_fmap in Hs' as (a & Ha & Hin).
      by destruct (filter_nil_not_elem_of _ _ a E).
    + intros a [Ha| ->%list_elem_of_singleton]%elem_of_app; [specialize (Hseq a Ha)|cbn]; lia.
    + intros d Hd. rewrite fmap_app, elem_of_app. left. by apply Hdep.
    + intros e He. rewrite fmap_app, elem_of_app. left. by apply Hev.
  - assert (Hids : App.id <$> ((λ a, if decide (App.slug a = s)
                          then excluded n (bind p3) (bind p4) a else a) <$> apps db)
                   = App.id <$> apps db).
    { rewrite <- list_fmap_compose. apply list_fmap_ext. intros _ a _. cbn.
      by destruct (decide (App.slug a = s)). }
    assert (Hslugs : App.slug <$> ((λ a, if decide (App.slug a = s)
                          then excluded n (bind p3) (bind p4) a else a) <$> apps db)
                   = App.slug <$> apps db).
    { rewrite <- list_fmap_compose. apply list_fmap_ext. intros _ a _. cbn.
      by destruct (decide (App.slug a = s)). }
    split; cbn; rewrite ?Hids, ?Hslugs; try done.
    intros a (a0 & -> & Ha0)%list_elem_of_fmap. specialize (Hseq a0 Ha0).
    destruct (decide (App.slug a0 = s)); cbn; lia.
Qed.

Lemma insert_deployment_consistent (now p1 : Z) (p2 p3 p4 p5 : jsval) (db : database) :
  consistent db → consistent (insert_deployment now p1 p2 p3 p4 p5 db).2.
Proof.
  intros Hc. unfold insert_deployment.
  destruct (to_text_not_null "environment" p2) as [env|e];
    [|by apply consistent_set_deployments_seq].
  destruct (decide _) as [Hfk|]; [|by apply consistent_set_deployments_seq].
  destruct Hc as [Hid Hslug Hseq Hdep Hev]. split; cbn; try done.
  intros d [Hd| ->%list_elem_of_singleton]%elem_of_app; [by apply Hdep|done].
Qed.

Lemma insert_usage_event_consistent `{Session} (now p1 : Z)
    (p2 p3 p4 p5 p6 p7 p8 : jsval) (db : database) :
  consistent db → consistent (insert_usage_event now p1 p2 p3 p4 p5 p6 p7 p8 db).2.
Proof.
  intros Hc. unfold insert_usage_event.
  destruct (to_int4 "status" p5) as [st|e]; [|done].
  destruct (to_inet "ip" p6) as [addr|e]; [|done].
  destruct (to_text_not_null "kind" p2) as [k|e];
    [|by apply consistent_set_usage_events_seq].
  destruct (decide _) as [Hfk|]; [|by apply consistent_set_usage_events_seq].
  destruct Hc as [Hid Hslug Hseq Hdep Hev]. split; cbn; try done.
  intros e [He| ->%list_elem_of_singleton]%elem_of_app; [by apply Hev|done].
Qed.

Lemma prune_consistent `{Session} (now : Z) (p1 : jsval) (db : database) :
  consistent db → consistent (prune now p1 db).2.
Proof.
  intros Hc. unfold prune. destruct (to_float8 p1) as [days|e]; [|done].
  destruct (cutoff now days) as [c|]; [|done].
  destruct Hc as [Hid Hslug Hseq Hdep Hev]. split; cbn; try done.
  intros e [_ He]%list_elem_of_filter. by apply Hev.
Qed.

Section reachable.
Context `{Session}.

Lemma handler_consistent (r : route) (body : gmap string jsval) (w : world)
    (db : database) :
  consistent db → consistent (handler r body w db).1.2.
Proof.
  intros Hc. destruct r; cbn [handler].
  - unfold health, try_catch, bind_M, read, query, json, ret.
    by destruct (pool_up w).
  - unfold apps_upsert, bind_M, query, json, ret.
    destruct (negb _ || negb _); [done|]. destruct (pool_up w); [|done].
    pose proof (upsert_app_consistent (now w) (field body "slug") (field body "name")
      (or_null (field body "repo_url")) (or_null (field body "public_url")) db Hc) as Hc'.
    by destruct (upsert_app _ _ _ _ _ _) as [[a|e] db1].
  - unfold deployments_record, bind_M, read, query, json, ret.
    destruct (negb _); [done|]. destruct (pool_up w) eqn:Hup; [|done]. cbn.
    destruct (head _) as [appId|]; [|done]. rewrite Hup.
    pose proof (insert_deployment_consistent (now w) appId
      (with_default (JStr "prod") (field body "environment"))
      (or_null (field body "version")) (or_null (field body "note"))
      (or_null (field body "deployed_by")) db Hc) as Hc'.
    by destruct (insert_deployment _ _ _ _ _ _ _) as [[d|e] db1].
  - unfold usage_record, bind_M, read, query, json, ret.
    destruct (negb _); [done|]. destruct (pool_up w) eqn:Hup; [|done]. cbn.
    destruct (head _) as [appId|]; [|done]. rewrite Hup.
    pose proof (insert_usage_event_consistent (now w) appId
      (with_default (JStr "request") (field body "kind"))
      (or_null (field body "method")) (or_null (field body "path"))
      (or_null (field body "status")) (or_null (field body "ip"))
      (or_null (field body "user_agent")) (or_null (field body "error_message"))
      db Hc) as Hc'.
    by destruct (insert_usage_event _ _ _ _ _ _ _ _ _ _) as [[u|e] db1].
  - unfold dashboard_overview, bind_M, read, query, json, ret.
    destruct (pool_up w); [|done]. by destruct (overview _ _).
  - unfold dashboard_analytics, bind_M, both, read, query, json, ret.
    destruct (pool_up w); [|done].
    destruct (dailyQ (now w) db); destruct (byAppQ (now w) db);
      destruct (recentDeploysQ (now w) db); done.
  - unfold dashboard_deployments, bind_M, read, query, json, ret.
    by destruct (pool_up w).
  - unfold dashboard_routes, bind_M, read, query, json, ret.
    destruct (pool_up w); [|done]. by destruct (route_breakdown _ _).
  - unfold dashboard_errors, bind_M, read, query, json, ret.
    by destruct (pool_up w).
  - unfold admin_prune, bind_M, query, json, ret. destruct (pool_up w); [|done].
    pose proof (prune_consistent (now w)
      (with_default (JNum (num 90)) (field body "days")) db Hc) as Hc'.
    by destruct (prune _ _ _) as [[ids|e] db1].
  - unfold api_stats, bind_M, read, query, json, ret.
    by destruct (pool_up w).
Qed.

(** One request keeps the constraints. *)
Lemma serve_consistent (cfg : config) (w : world) (req : Request.t) (st : state) :
  consistent (db st) → consistent (db (serve cfg w req st).2).
Proof.
  intros Hc. unfold serve.
  destruct (run_stack _ _ _ _ _) as [[[|s b] hits] t]; [|done].
  pose proof (handler_consistent (Request.target req) (Request.body req) w (db st) Hc).
  by destruct (handler _ _ _ _) as [[r db1] qs].
Qed.

(** Every state the server reaches from the empty database satisfies the
    constraints, whatever requests it is sent. *)
Lemma reachable_consistent (cfg : config) (l : list (world * Request.t)) (st : state) :
  consistent (db st) → consistent (db (after cfg l st)).
Proof.
  revert st. induction l as [|x l IH]; intros st Hc; [done|].
  apply (IH (serve cfg x.1 x.2 st).2). by apply serve_consistent.
Qed.

End reachable.

(** * What a request can do to the database *)

Section effects.
Context `{Session}.

(** The database after a handler is the one before, or the one a single
    writing statement of the route leaves. *)
Lemma handler_effect (r : route) (body : gmap string jsval) (w : world) (db : database) :
  (handler r body w db).1.2 = db ∨
  match r with
  | post_apps =>
      ∃ p1 p2 p3 p4, (handler r body w db).1.2 = (upsert_app (now w) p1 p2 p3 p4 db).2
  | post_deployments =>
      ∃ p1 p2 p3 p4 p5,
        (handler r body w db).1.2 = (insert_deployment (now w) p1 p2 p3 p4 p5 db).2
  | post_usage =>
      ∃ p1 p2 p3 p4 p5 p6 p7 p8,
        (handler r body w db).1.2
        = (insert_usage_event (now w) p1 p2 p3 p4 p5 p6 p7 p8 db).2
  | post_prune => ∃ p1, (handler r body w db).1.2 = (prune (now w) p1 db).2
  | _ => False
  end.
Proof.
  destruct r; cbn [handler].
  - left. unfold health, try_catch, bind_M, read, query, json, ret.
    by destruct (pool_up w).
  - unfold apps_upsert, bind_M, query, json, ret.
    destruct (negb _ || negb _); [by left|]. destruct (pool_up w); [|by left].
    right. exists (field body "slug"), (field body "name"),
      (or_null (field body "repo_url")), (or_null (field body "public_url")).
    by destruct (upsert_app _ _ _ _ _ _) as [[a|e] db1].
  - unfold deployments_record, bind_M, read, query, json, ret.
    destruct (negb _); [by left|]. destruct (pool_up w) eqn:Hup; [|by left]. cbn.
    destruct (head _) as [appId|]; [|by left]. rewrite Hup.
    right. exists appId, (with_default (JStr "prod") (field body "environment")),
      (or_null (field body "version")), (or_null (field body "note")),
      (or_null (field body "deployed_by")).
    by destruct (insert_deployment _ _ _ _ _ _ _) as [[d|e] db1].
  - unfold usage_record, bind_M, read, query, json, ret.
    destruct (negb _); [by left|]. destruct (pool_up w) eqn:Hup; [|by left]. cbn.
    destruct (head _) as [appId|]; [|by left]. rewrite Hup.
    right. exists appId, (with_default (JStr "request") (field body "kind")),
      (or_null (field body "method")), (or_null (field body "path")),
      (or_null (field body "status")), (or_null (field body "ip")),
      (or_null (field body "user_agent")), (or_null (field body "error_message")).
    by destruct (insert_usage_event _ _ _ _ _ _ _ _ _ _) as [[u|e] db1].
  - left. unfold dashboard_overview, bind_M, read, query, json, ret.
    destruct (pool_up w); [|done]. by destruct (overview _ _).
  - left. unfold dashboard_analytics, bind_M, both, read, query, json, ret.
    destruct (pool_up w); [|done].
    destruct (dailyQ (now w) db); destruct (byAppQ (now w) db);
      destruct (recentDeploysQ (now w) db); done.
  - left. unfold dashboard_deployments, bind_M, read, query, json, ret.
    by destruct (pool_up w).
  - left. unfold dashboard_routes, bind_M, read, query, json, ret.
    destruct (pool_up w); [|done]. by destruct (route_breakdown _ _).
  - left. unfold dashboard_errors, bind_M, read, query, json, ret.
    by destruct (pool_up w).
  - unfold admin_prune, bind_M, query, json, ret. destruct (pool_up w); [|by left].
    right. exists (with_default (JNum (num 90)) (field body "days")).
    by destruct (prune _ _ _) as [[ids|e] db1].
  - left. unfold api_stats, bind_M, read, query, json, ret.
    by destruct (pool_up w).
Qed.

Lemma serve_effect (cfg : config) (w : world) (req : Request.t) (st : state) :
  db (serve cfg w req st).2 = db st ∨
  db (serve cfg w req st).2
  = (handler (Request.target req) (Request.body req) w (db st)).1.2.
Proof.
  unfold serve. destruct (run_stack _ _ _ _ _) as [[[|s b] hits] t]; [|by left].
  right. by destruct (handler _ _ _ _) as [[r db1] qs].
Qed.

End effects.

(** * The keys of the logs *)

Lemma keyed_empty : keyed Pg.empty.
Proof. split; cbn; try apply NoDup_nil_2; by intros ? ?%elem_of_nil. Qed.

Lemma upsert_app_keyed (now : Z) (p1 p2 p3 p4 : jsval) (db : database) :
  keyed db → keyed (upsert_app now p1 p2 p3 p4 db).2.
Proof.
  intros [? ? ? ?]. unfold upsert_app.
  destruct (to_text_not_null "slug" p1); [|done].
  destruct (to_text_not_null "name" p2); [|done].
  by destruct (filter _ (apps db)).
Qed.

Lemma insert_deployment_keyed (now p1 : Z) (p2 p3 p4 p5 : jsval) (db : database) :
  keyed db → keyed (insert_deployment now p1 p2 p3 p4 p5 db).2.
Proof.
  intros [Hid Hseq ? ?]. unfold insert_deployment.
  assert (Hskip : keyed (set_deployments (deployments db) (deployments_id_seq db + 1) db)).
  { split; cbn; try done. intros d Hd. specialize (Hseq d Hd). lia. }
  destruct (to_text_not_null "environment" p2); [|done].
  destruct (decide _) as [Hfk|]; [|done]. split; cbn; try done.
  - rewrite fmap_app. apply NoDup_app. split; [done|]. split; [|apply NoDup_singleton].
    intros i Hi ->%list_elem_of_singleton.
    apply list_elem_of_fmap in Hi as (d & Hd & Hin). specialize (Hseq d Hin). cbn in Hd. lia.
  - intros d [Hd| ->%list_elem_of_singleton]%elem_of_app; [specialize (Hseq d Hd)|cbn]; lia.
Qed.

Lemma insert_usage_event_keyed `{Session} (now p1 : Z)
    (p2 p3 p4 p5 p6 p7 p8 : jsval) (db : database) :
  keyed db → keyed (insert_usage_event now p1 p2 p3 p4 p5 p6 p7 p8 db).2.
Proof.
  intros [? ? Hid Hseq]. unfold insert_usage_event.
  assert (Hskip : keyed (set_usage_events (usage_events db) (usage_events_id_seq db + 1) db)).
  { split; cbn; try done. intros e He. specialize (Hseq e He). lia. }
  destruct (to_int4 "status" p5) as [st|?]; [|done].
  destruct (to_inet "ip" p6) as [addr|?]; [|done].
  destruct (to_text_not_null "kind" p2) as [k|?]; [|done].
  destruct (decide _) as [Hfk|]; [|done]. split; cbn; try done.
  - rewrite fmap_app. apply NoDup_app. split; [done|]. split; [|apply NoDup_singleton].
    intros i Hi ->%list_elem_of_singleton.
    apply list_elem_of_fmap in Hi as (e & He & Hin). specialize (Hseq e Hin). cbn in He. lia.
  - intros e [He| ->%list_elem_of_singleton]%elem_of_app; [specialize (Hseq e He)|cbn]; lia.
Qed.

Lemma prune_keyed `{Session} (now : Z) (p1 : jsval) (db : database) :
  keyed db → keyed (prune now p1 db).2.
Proof.
  intros [? ? Hid Hseq]. unfold prune. destruct (to_float8 p1) as [days|?]; [|done].
  destruct (cutoff now days) as [c|]; [|done].
  split; cbn; try done.
  - eapply sublist_NoDup; [done|]. apply fmap_sublist, sublist_filter.
  - intros e [_ He]%list_elem_of_filter. by apply Hseq.
Qed.

Section keys.
Context `{Session}.

Lemma serve_keyed (cfg : config) (w : world) (req : Request.t) (st : state) :
  keyed (db st) → keyed (db (serve cfg w req st).2).
Proof.
  intros Hk. destruct (serve_effect cfg w req st) as [->| ->]; [done|].
  destruct (handler_effect (Request.target req) (Request.body req) w (db st))
    as [->|Heff]; [done|].
  destruct (Request.target req); try done.
  - destruct Heff as (p1 & p2 & p3 & p4 & ->). by apply upsert_app_keyed.
  - destruct Heff as (p1 & p2 & p3 & p4 & p5 & ->). by apply insert_deployment_keyed.
  - destruct Heff as (p1 & p2 & p3 & p4 & p5 & p6 & p7 & p8 & ->).
    by apply insert_usage_event_keyed.
  - destruct Heff as (p1 & ->). by apply prune_keyed.
Qed.

(** X1.  Whatever requests the server is sent, starting from the empty
    database, the tables satisfy the constraints of the schema: the
    primary keys are unique, the slugs are unique, every deployment and
    usage event refers to an application that exists, and every sequence
    is ahead of the keys given out, so that no key is used twice. *)
Theorem every_request_keeps_the_schema
    (cfg : config) (l : list (world * Request.t)) (hits : gmap string window) :
  consistent (db (after cfg l {| db := Pg.empty; usage_hits := hits |})) ∧
  keyed (db (after cfg l {| db := Pg.empty; usage_hits := hits |})).
Proof.
  split; [apply reachable_consistent, consistent_empty|].
  assert (Hall : ∀ st, keyed (db st) → keyed (db (after cfg l st))).
  { induction l as [|x l IH]; intros st Hk; [done|].
    apply (IH (serve cfg x.1 x.2 st).2). by apply serve_keyed. }
  apply Hall, keyed_empty.
Qed.

End keys.

(** * What the API never removes *)

Lemma upsert_app_identity (now : Z) (p1 p2 p3 p4 : jsval) (db : database) :
  identity <$> apps db `prefix_of` identity <$> apps (upsert_app now p1 p2 p3 p4 db).2 ∧
  deployments (upsert_app now p1 p2 p3 p4 db).2 = deployments db ∧
  usage_events (upsert_app now p1 p2 p3 p4 db).2 = usage_events db.
Proof.
  unfold upsert_app.
  destruct (to_text_not_null "slug" p1) as [s|?]; [|done].
  destruct (to_text_not_null "name" p2) as [n|?]; [|done].
  destruct (filter _ (apps db)) as [|old rest]; cbn.
  - split; [|done]. rewrite fmap_app. by apply prefix_app_r.
  - split; [|done]. rewrite <- list_fmap_compose.
    assert (Heq : (identity ∘ (λ a, if decide (App.slug a = s)
                                    then excluded n (bind p3) (bind p4) a else a))
                    <$> apps db = identity <$> apps db).
    { apply list_fmap_ext. intros _ a _. cbn. by destruct (decide (App.slug a = s)). }
    by rewrite Heq.
Qed.

Lemma insert_deployment_appends (now p1 : Z) (p2 p3 p4 p5 : jsval) (db : database) :
  apps (insert_deployment now p1 p2 p3 p4 p5 db).2 = apps db ∧
  deployments db `prefix_of` deployments (insert_deployment now p1 p2 p3 p4 p5 db).2 ∧
  usage_events (insert_deployment now p1 p2 p3 p4 p5 db).2 = usage_events db.
Proof.
  unfold insert_deployment.
  destruct (to_text_not_null "environment" p2) as [env|?]; [|done].
  destruct (decide _) as [Hfk|]; [|done]. cbn.
  split; [done|]. split; [|done]. by apply prefix_app_r.
Qed.

Lemma insert_usage_event_appends `{Session} (now p1 : Z)
    (p2 p3 p4 p5 p6 p7 p8 : jsval) (db : database) :
  apps (insert_usage_event now p1 p2 p3 p4 p5 p6 p7 p8 db).2 = apps db ∧
  deployments (insert_usage_event now p1 p2 p3 p4 p5 p6 p7 p8 db).2 = deployments db ∧
  usage_events db
    `prefix_of` usage_events (insert_usage_event now p1 p2 p3 p4 p5 p6 p7 p8 db).2.
Proof.
  unfold insert_usage_event.
  destruct (to_int4 "status" p5) as [st|?]; [|done].
  destruct (to_inet "ip" p6) as [addr|?]; [|done].
  destruct (to_text_not_null "kind" p2) as [k|?]; [|done].
  destruct (decide _) as [Hfk|]; [|done]. cbn.
  do 2 (split; [done|]). by apply prefix_app_r.
Qed.

Lemma prune_removes `{Session} (now : Z) (p1 : jsval) (db : database) :
  apps (prune now p1 db).2 = apps db ∧
  deployments (prune now p1 db).2 = deployments db ∧
  usage_events (prune now p1 db).2 `sublist_of` usage_events db.
Proof.
  unfold prune. destruct (to_float8 p1) as [days|?]; [|done].
  destruct (cutoff now days) as [c|]; [|done]. cbn.
  do 2 (split; [done|]). apply sublist_filter.
Qed.

Section append_only.
Context `{Session}.

(** X2.  No request deletes an application or changes its id, its slug or
    its creation time, and no request deletes or changes a deployment.  A
    usage event is neither changed nor, except by POST /api/admin/prune,
    deleted; pruning only removes usage events. *)
Theorem logs_are_append_only
    (cfg : config) (w : world) (req : Request.t) (st : state) :
  identity <$> apps (db st)
    `prefix_of` identity <$> apps (db (serve cfg w req st).2) ∧
  deployments (db st) `prefix_of` deployments (db (serve cfg w req st).2) ∧
  (if decide (Request.target req = post_prune)
   then usage_events (db (serve cfg w req st).2) `sublist_of` usage_events (db st)
   else usage_events (db st) `prefix_of` usage_events (db (serve cfg w req st).2)).
Proof.
  assert (Hsame : ∀ db0 : database,
    identity <$> apps db0 `prefix_of` identity <$> apps db0 ∧
    deployments db0 `prefix_of` deployments db0 ∧
    (if decide (Request.target req = post_prune)
     then usage_events db0 `sublist_of` usage_events db0
     else usage_events db0 `prefix_of` usage_events db0)).
  { intros db0. by destruct (decide _). }
  destruct (serve_effect cfg w req st) as [->| ->]; [done|].
  destruct (handler_effect (Request.target req) (Request.body req) w (db st))
    as [->|Heff]; [done|].
  destruct (Request.target req); try done.
  - destruct Heff as (p1 & p2 & p3 & p4 & ->).
    destruct (upsert_app_identity (now w) p1 p2 p3 p4 (db st)) as (? & -> & ->).
    by rewrite decide_False.
  - destruct Heff as (p1 & p2 & p3 & p4 & p5 & ->).
    destruct (insert_deployment_appends (now w) p1 p2 p3 p4 p5 (db st)) as (-> & ? & ->).
    by rewrite decide_False.
  - destruct Heff as (p1 & p2 & p3 & p4 & p5 & p6 & p7 & p8 & ->).
    destruct (insert_usage_event_appends (now w) p1 p2 p3 p4 p5 p6 p7 p8 (db st))
      as (-> & -> & ?).
    by rewrite decide_False.
  - destruct Heff as (p1 & ->).
    destruct (prune_removes (now w) p1 (db st)) as (-> & -> & ?).
    by rewrite decide_True.
Qed.

(** X3.  A request on a route that only reads (the health check, the five
    dashboard routes and the stats) leaves the database as it was,
    whatever its token and whether or not the pool reaches the
    database. *)
Theorem reading_routes_never_write
    (cfg : config) (w : world) (req : Request.t) (st : state) :
  reads_only (Request.target req) →
  db (serve cfg w req st).2 = db st.
Proof.
  intros Hr. destruct (serve_effect cfg w req st) as [->| ->]; [done|].
  destruct (handler_effect (Request.target req) (Request.body req) w (db st))
    as [->|Heff]; [done|].
  unfold reads_only in Hr.
  destruct (Request.target req); try done;
    repeat (apply elem_of_cons in Hr as [?|Hr]; [done|]); by apply elem_of_nil in Hr.
Qed.

Lemma handler_error_answer (r : route) (body : gmap string jsval) (w : world)
    (db db' : database) (res : Response.t) (qs : list stmt) :
  handler r body w db = (Ok res, db', qs) → Response.status res ≠ 200 → db' = db.
Proof.
  destruct r; cbn [handler].
  - unfold health, try_catch, bind_M, read, query, json, ret.
    destruct (pool_up w); by intros [= <- <- _].
  - unfold apps_upsert, bind_M, query, json, ret.
    destruct (negb _ || negb _); [by intros [= <- <- _]|].
    destruct (pool_up w); [|done].
    destruct (upsert_app _ _ _ _ _ _) as [[a|e] db1]; [|done].
    by intros [= <- _ _].
  - unfold deployments_record, bind_M, read, query, json, ret.
    destruct (negb _); [by intros [= <- <- _]|].
    destruct (pool_up w) eqn:Hup; [|done]. cbn.
    destruct (head _) as [appId|]; [|by intros [= <- <- _]]. rewrite Hup.
    destruct (insert_deployment _ _ _ _ _ _ _) as [[d|e] db1]; [|done].
    by intros [= <- _ _].
  - unfold usage_record, bind_M, read, query, json, ret.
    destruct (negb _); [by intros [= <- <- _]|].
    destruct (pool_up w) eqn:Hup; [|done]. cbn.
    destruct (head _) as [appId|]; [|by intros [= <- <- _]]. rewrite Hup.
    destruct (insert_usage_event _ _ _ _ _ _ _ _ _ _) as [[u|e] db1]; [|done].
    by intros [= <- _ _].
  - unfold dashboard_overview, bind_M, read, query, json, ret.
    destruct (pool_up w); [|done]. destruct (overview _ _); [|done]. by intros [= <- <- _].
  - unfold dashboard_analytics, bind_M, both, read, query, json, ret.
    destruct (pool_up w); [|done].
    destruct (dailyQ (now w) db); destruct (byAppQ (now w) db);
      destruct (recentDeploysQ (now w) db); try done; by intros [= <- <- _].
  - unfold dashboard_deployments, bind_M, read, query, json, ret.
    destruct (pool_up w); [|done]. by intros [= <- <- _].
  - unfold dashboard_routes, bind_M, read, query, json, ret.
    destruct (pool_up w); [|done]. destruct (route_breakdown _ _); [|done].
    by intros [= <- <- _].
  - unfold dashboard_errors, bind_M, read, query, json, ret.
    destruct (pool_up w); [|done]. by intros [= <- <- _].
  - unfold admin_prune, bind_M, query, json, ret. destruct (pool_up w); [|done].
    destruct (prune _ _ _) as [[ids|e] db1]; [|done]. by intros [= <- _ _].
  - unfold api_stats, bind_M, read, query, json, ret.
    destruct (pool_up w); [|done]. by intros [= <- <- _].
Qed.

(** X4.  A request that is answered with a status other than 200 (400,
    401, 404, 429, 500, 503) has changed nothing in the database. *)
Theorem error_answers_change_nothing
    (cfg : config) (w : world) (req : Request.t) (st : state) (res : Response.t) :
  (serve cfg w req st).1.1 = Sent res → Response.status res ≠ 200 →
  db (serve cfg w req st).2 = db st.
Proof.
  unfold serve. destruct (run_stack _ _ _ _ _) as [[[|s b] hits] t]; [|done].
  destruct (handler _ _ _ _) as [[[r|e] db1] qs] eqn:Hh; [|done].
  cbn. intros [= ->] Hs. by eapply handler_error_answer.
Qed.

End append_only.

(** * The forms of the Authorization header *)

Lemma prefix_ci_app (q p s : string) :
  prefix_ci q p = Some EmptyString → prefix_ci q (p +:+ s) = Some s.
Proof.
  revert p. induction q as [|a q IH]; intros [|b p]; cbn; try done.
  change (String b p +:+ s) with (String b (p +:+ s)). cbn.
  destruct (Ascii.eqb (lower a) (lower b)); [apply IH|done].
Qed.

Lemma drop_spaces_app (sp tok : string) :
  blank sp = true → starts_blank tok = false → drop_spaces (sp +:+ tok) = tok.
Proof.
  intros Hsp Htok. induction sp as [|c sp IH].
  - change (EmptyString +:+ tok) with tok.
    destruct tok as [|c tok]; [done|]. cbn in *. by rewrite Htok.
  - change (String c sp +:+ tok) with (String c (sp +:+ tok)). cbn in *.
    apply andb_true_iff in Hsp as [-> Hsp]. by apply IH.
Qed.

Lemma strip_bearer_scheme (p sp tok : string) :
  is_bearer p → sp ≠ EmptyString → blank sp = true → starts_blank tok = false →
  strip_bearer (p +:+ sp +:+ tok) = tok.
Proof.
  intros Hp Hne Hsp Htok. unfold strip_bearer.
  rewrite (prefix_ci_app _ _ _ Hp). destruct sp as [|c sp]; [done|].
  change (String c sp +:+ tok) with (String c (sp +:+ tok)). cbn in Hsp.
  apply andb_true_iff in Hsp as [-> Hsp]. by apply drop_spaces_app.
Qed.

Lemma strip_bearer_other (h : string) :
  prefix_ci "Bearer" h = None → strip_bearer h = h.
Proof. unfold strip_bearer. by intros ->. Qed.

(** X5.  With a token configured, a request is authorized when its
    Authorization header is the word [Bearer] in any letter case, one or
    more white-space characters, and the token (a token that does not
    itself begin with white space); it is also authorized when the header
    is the bare token with no scheme at all, since a header that does not
    begin with [Bearer] is compared as it is. *)
Theorem accepted_authorization_headers
    (cfg : config) (req : Request.t) (tok h : string) :
  DASHBOARD_TOKEN cfg = Some tok → tok ≠ EmptyString →
  Request.authorization req = Some h →
  (∃ p sp, h = p +:+ sp +:+ tok ∧ is_bearer p ∧ sp ≠ EmptyString ∧
           blank sp = true ∧ starts_blank tok = false) ∨
  (h = tok ∧ prefix_ci "Bearer" tok = None) →
  authorized cfg req.
Proof.
  intros Htok Hne Hh Hform. apply authorized_iff. exists tok.
  do 2 (split; [done|]). rewrite Hh. cbn. f_equal.
  destruct Hform as [(p & sp & -> & ? & ? & ? & ?)|[-> ?]].
  - by apply strip_bearer_scheme.
  - by apply strip_bearer_other.
Qed.

(** * Requests the handlers turn down or cannot finish *)

Section refused.
Context `{Session}.

(** X6.  An authorized POST /api/apps whose [slug] or [name] is missing or
    falsy is answered 400 [slug_and_name_required], and an authorized
    POST /api/deployments or POST /api/usage (one that the rate limiter
    does not stop) whose [app_slug] is missing or falsy is answered 400
    [app_slug_required]; no statement is sent, also when the database
    cannot be reached, and the database is as it was. *)
Theorem required_fields_are_checked_first
    (cfg : config) (w : world) (req : Request.t) (st : state) (code : string) :
  authorized cfg req → rate_limited w req st = false →
  (Request.target req = post_apps ∧ code = "slug_and_name_required" ∧
   (truthy (field (Request.body req) "slug") = false ∨
    truthy (field (Request.body req) "name") = false)) ∨
  ((Request.target req = post_deployments ∨ Request.target req = post_usage) ∧
   code = "app_slug_required" ∧
   truthy (field (Request.body req) "app_slug") = false) →
  serve cfg w req st =
    (Sent (error 400 code),
     (Ran <$> stack (Request.target req)) ++ [Entered (Request.target req)],
     {| db := db st; usage_hits := counted w req (usage_hits st) |}).
Proof.
  intros Hauth Hlim Hcase. rewrite serve_handled by done.
  destruct Hcase as [(Ht & -> & Hmiss)|(Ht & -> & Hmiss)].
  - rewrite Ht. cbn [handler]. unfold apps_upsert, json, ret.
    destruct Hmiss as [-> | ->]; [done|]. by rewrite orb_true_r.
  - destruct Ht as [Ht|Ht]; rewrite Ht; cbn [handler];
      unfold deployments_record, usage_record, json, ret; by rewrite Hmiss.
Qed.

Lemma select_app_id_registered (v : jsval) (db : database) (a : App.t) :
  a ∈ apps db → Some (App.slug a) = bind v → ∃ i, head (select_app_id v db) = Some i.
Proof.
  intros Ha Hs. unfold select_app_id.
  destruct (filter _ (apps db)) as [|b l] eqn:E; [|by eexists].
  by destruct (filter_nil_not_elem_of _ _ a E).
Qed.

(** X7.  The default of [environment] covers an omitted field only.  An
    authorized POST /api/deployments for a registered application that
    sends [environment: null] binds null to a [not null] column: the
    insert is refused, the handler rejects and sends no answer, and no
    deployment is recorded. *)
Theorem null_environment_is_not_recorded
    (cfg : config) (w : world) (req : Request.t) (st : state) (a : App.t) :
  Request.target req = post_deployments → authorized cfg req → pool_up w = true →
  truthy (field (Request.body req) "app_slug") = true →
  a ∈ apps (db st) → Some (App.slug a) = bind (field (Request.body req) "app_slug") →
  field (Request.body req) "environment" = JNull →
  (serve cfg w req st).1 =
    (Unhandled (not_null_violation "environment"),
     [Ran use_requireToken; Entered post_deployments;
      Sent_query q_select_app_id; Sent_query q_insert_deployment]) ∧
  apps (db (serve cfg w req st).2) = apps (db st) ∧
  deployments (db (serve cfg w req st).2) = deployments (db st) ∧
  usage_events (db (serve cfg w req st).2) = usage_events (db st).
Proof.
  intros Ht Hauth Hup Hslug Ha Hs Henv.
  rewrite serve_handled; [|apply not_rate_limited; by rewrite Ht|done].
  rewrite Ht. cbn [handler].
  destruct (select_app_id_registered _ _ _ Ha Hs) as [i Hi].
  unfold deployments_record. rewrite Hslug, Henv. cbn [negb].
  unfold bind_M, read, query. rewrite Hup, Hi, Hup. done.
Qed.

(** X8.  An authorized POST /api/usage, not stopped by the rate limiter,
    for a registered application, whose [status] is a whole number that
    JavaScript holds exactly (of a magnitude below 2^53) and that is
    outside the range of [int]: the digits of the number are bound, the
    input function of [int] refuses them as out of range, the handler
    rejects, and the database is as it was. *)
Theorem status_out_of_range_is_not_stored
    (cfg : config) (w : world) (req : Request.t) (st : state) (a : App.t)
    (n : number) :
  Request.target req = post_usage → authorized cfg req →
  rate_limited w req st = false → pool_up w = true →
  truthy (field (Request.body req) "app_slug") = true →
  a ∈ apps (db st) → Some (App.slug a) = bind (field (Request.body req) "app_slug") →
  field (Request.body req) "status" = JNum n → n < int4_min ∨ int4_max < n →
  (serve cfg w req st).1.1 = Unhandled numeric_value_out_of_range ∧
  db (serve cfg w req st).2 = db st.
Proof.
  intros Ht Hauth Hlim Hup Hslug Ha Hs Hst Hn.
  rewrite serve_handled by done. rewrite Ht. cbn [handler].
  destruct (select_app_id_registered _ _ _ Ha Hs) as [i Hi].
  assert (Hnz : or_null (JNum n) = JNum n).
  { unfold or_null. cbn. unfold int4_min, int4_max in Hn.
    destruct (Z.eqb_spec n 0); [lia|done]. }
  assert (Hint : int4 n = None).
  { unfold int4. destruct (Z.leb_spec int4_min n), (Z.leb_spec n int4_max); done || lia. }
  unfold usage_record. rewrite Hslug, Hst, Hnz. cbn [negb].
  unfold bind_M, read, query. rewrite Hup, Hi, Hup.
  unfold insert_usage_event. cbn [to_int4]. unfold int4_range. rewrite Hint. done.
Qed.

(** X9.  The default of [days] covers an omitted field only.  An
    authorized POST /api/admin/prune that sends [days: null] compares
    every timestamp with null: it deletes nothing, and answers with
    [pruned: 0] and [retention_days: null]. *)
Theorem prune_with_null_days_deletes_nothing
    (cfg : config) (w : world) (req : Request.t) (st : state) :
  Request.target req = post_prune → authorized cfg req → pool_up w = true →
  field (Request.body req) "days" = JNull →
  serve cfg w req st =
    (Sent {| Response.status := 200; Response.body := Pruned 0 JNull |},
     [Ran use_requireToken; Entered post_prune; Sent_query q_prune], st).
Proof.
  intros Ht Hauth Hup Hdays.
  rewrite serve_handled; [|apply not_rate_limited; by rewrite Ht|done].
  rewrite Ht. cbn [handler]. unfold counted. rewrite Ht, decide_False by done.
  unfold admin_prune, bind_M, query. rewrite Hup, Hdays. cbn.
  unfold prune. cbn.
  rewrite (proj2 (filter_nil_iff _ _)) by (intros e _ Hf; exact Hf).
  rewrite filter_all by (intros e _ Hf; exact Hf). cbn.
  destruct st as [[] ?]. done.
Qed.

Lemma days_before_out_of_range (now days : Z) :
  days < int4_min ∨ int4_max < days ∨
  now - day_us * days < timestamp_min ∨ timestamp_end ≤ now - day_us * days →
  days_before now days = None.
Proof.
  intros Hout. unfold days_before, int4.
  destruct (Z.leb_spec int4_min days), (Z.leb_spec days int4_max); cbn; try done.
  destruct (Z.leb_spec timestamp_min (now - day_us * days)); cbn; [|done].
  destruct (Z.ltb_spec (now - day_us * days) timestamp_end); [lia|].
  by rewrite andb_false_r.
Qed.

(** X24.  An authorized POST /api/admin/prune whose [days] are more than
    an interval holds (beyond the range of [int]), or put the cutoff
    [now - days] outside the timestamps of PostgreSQL (before the year
    4714 BC or after the year 294276), deletes nothing: the statement
    fails with an interval or timestamp out of range, the handler
    rejects, and the state is as it was. *)
Theorem prune_out_of_range_is_refused
    (cfg : config) (w : world) (req : Request.t) (st : state) (n : number) :
  Request.target req = post_prune → authorized cfg req → pool_up w = true →
  asks_days (Request.body req) n →
  n < int4_min ∨ int4_max < n ∨
  now w - day_us * n < timestamp_min ∨ timestamp_end ≤ now w - day_us * n →
  serve cfg w req st =
    (Unhandled datetime_field_overflow,
     [Ran use_requireToken; Entered post_prune; Sent_query q_prune], st).
Proof.
  intros Ht Hauth Hup Hdays Hout.
  rewrite serve_handled; [|apply not_rate_limited; by rewrite Ht|done].
  rewrite Ht. cbn [handler]. unfold counted. rewrite Ht, decide_False by done.
  assert (Hd : with_default (JNum (num 90)) (field (Request.body req) "days") = JNum n)
    by (destruct Hdays as [-> | [-> ->]]; done).
  unfold admin_prune, bind_M, query. rewrite Hup, Hd.
  unfold prune. cbn [to_float8 cutoff].
  rewrite (days_before_out_of_range _ _ Hout). cbn. by rewrite state_eta.
Qed.

End refused.

(** * One row for every application *)

Lemma distinct_after_NoDup (l : list Deployment.t) :
  StronglySorted deploy_order l →
  ∀ prev, Forall (λ y, prev ≤ Deployment.app_id y) l →
  NoDup (Deployment.app_id <$> distinct_after Deployment.app_id prev l).
Proof.
  induction 1 as [|x l Hsorted IH Hx]; intros prev Hprev; [apply NoDup_nil_2|].
  apply Forall_cons in Hprev as [Hpx Hprev]. cbn [distinct_after].
  destruct (decide (Deployment.app_id x = prev)) as [Heq|Hne]; [by apply IH|].
  assert (Hprev' : Forall (λ y, Deployment.app_id x ≤ Deployment.app_id y) l).
  { rewrite Forall_forall in Hx. apply Forall_forall. intros y Hy.
    specialize (Hx y Hy). unfold deploy_order in Hx. lia. }
  rewrite fmap_cons. apply NoDup_cons. split; [|by apply IH].
  intros (z & Hk & Hz)%list_elem_of_fmap.
  destruct (distinct_after_sound l Hsorted _ Hprev' z Hz) as (_ & Hlt & _). lia.
Qed.

Lemma last_deploy_NoDup (db : database) :
  NoDup (Deployment.app_id <$> last_deploy db).
Proof.
  unfold last_deploy.
  pose proof (StronglySorted_merge_sort deploy_order (deployments db)) as Hs.
  destruct (merge_sort deploy_order (deployments db)) as [|x l]; [apply NoDup_nil_2|].
  cbn [distinct_on]. apply StronglySorted_inv in Hs as [Hs Hx].
  assert (Hprev : Forall (λ y, Deployment.app_id x ≤ Deployment.app_id y) l).
  { rewrite Forall_forall in Hx. apply Forall_forall. intros y Hy.
    specialize (Hx y Hy). unfold deploy_order in Hx. lia. }
  rewrite fmap_cons. apply NoDup_cons. split; [|by apply distinct_after_NoDup].
  intros (z & Hk & Hz)%list_elem_of_fmap.
  destruct (distinct_after_sound l Hs _ Hprev z Hz) as (_ & Hlt & _). lia.
Qed.

Lemma count_int_keys {K A : Type} (gs : list (K * list A)) (us : list (K * Z)) :
  count_int gs = Some us → us.*1 = gs.*1.
Proof.
  unfold count_int. rewrite mapM_Some. induction 1 as [|g u gs us Hgu _ IH]; [done|].
  rewrite !fmap_cons, IH. f_equal.
  destruct (int4 _); [|done]. by injection Hgu as <-.
Qed.

Lemma usage_24h_NoDup (now : Z) (db : database) (us : list (Z * Z)) :
  usage_24h now db = Some us → NoDup us.*1.
Proof.
  unfold usage_24h. intros ->%count_int_keys. rewrite group_by_keys.
  apply NoDup_remove_dups.
Qed.

Lemma left_join_unique {B K : Type} `{EqDecision K} (key : B → K) (k : K) (l : list B) :
  NoDup (key <$> l) → ∃ o, left_join (λ b, key b = k) l = [o].
Proof.
  intros Hnd. unfold left_join.
  destruct (filter_unique_key key k l Hnd) as [->|[x ->]]; by eexists.
Qed.

Lemma overview_join_listed (lds : list Deployment.t) (us : list (Z * Z)) (l : list App.t) :
  NoDup (Deployment.app_id <$> lds) → NoDup us.*1 →
  o_listed <$> overview_join lds us l = listed <$> l.
Proof.
  intros Hlds Hus. unfold overview_join.
  induction l as [|a l IH]; [done|].
  rewrite bind_cons, fmap_app, IH, fmap_cons. f_equal.
  destruct (left_join_unique Deployment.app_id (App.id a) lds Hlds) as [ld ->].
  destruct (left_join_unique fst (App.id a) us Hus) as [u Hu].
  cbn. rewrite Hu. done.
Qed.

Section overview_rows.
Context `{Session}.

Lemma overview_listed (now : Z) (db : database) (rows : list overview_row) :
  overview now db = Ok rows → o_listed <$> rows ≡ₚ listed <$> apps db.
Proof.
  unfold overview. destruct (usage_24h now db) as [us|] eqn:Hus; [|done].
  intros [= <-]. rewrite merge_sort_Permutation.
  rewrite overview_join_listed;
    [done|apply last_deploy_NoDup|apply (usage_24h_NoDup now db us Hus)].
Qed.

(** X10.  The overview answers with one row for every application, no
    more and no fewer, whatever the deployments and the usage events
    are: the slug, name and URLs of its rows are those of the
    applications, in some order.  Where the collation compares any two
    names, the rows are in ascending order of name. *)
Theorem overview_has_one_row_per_application
    (now : Z) (db : database) (rows : list overview_row) :
  overview now db = Ok rows →
  o_listed <$> rows ≡ₚ listed <$> apps db ∧
  ((∀ s t, text_le s t = true ∨ text_le t s = true) → Sorted name_order rows).
Proof.
  intros Hrows. split; [by apply (overview_listed now)|].
  unfold overview in Hrows. destruct (usage_24h now db) as [us|]; [|done].
  injection Hrows as <-. intros Htotal.
  assert (Total name_order) by (intros r1 r2; apply Htotal).
  apply Sorted_merge_sort; apply _.
Qed.

(** * What is recorded is what is shown *)

Lemma select_app_id_head (v : jsval) (db : database) (i : Z) :
  head (select_app_id v db) = Some i →
  ∃ a, a ∈ apps db ∧ Some (App.slug a) = bind v ∧ App.id a = i.
Proof.
  unfold select_app_id.
  destruct (filter _ (apps db)) as [|a l] eqn:E; [done|]. intros [= <-].
  assert (Ha : a ∈ filter (λ a, Some (App.slug a) = bind v) (apps db))
    by (rewrite E; left).
  apply list_elem_of_filter in Ha as [Hs Ha]. by exists a.
Qed.

(** X11.  A deployment that is recorded for an application and is later
    than the deployments the application had is the one the overview
    shows from then on: the row of the application has the time of the
    request for [deployed_at], and the environment, version and note
    that were stored. *)
Theorem recorded_deployment_shows_in_overview
    (cfg : config) (w w' : world) (req req' : Request.t) (st : state)
    (d : Deployment.t) :
  consistent (db st) →
  Request.target req = post_deployments →
  (serve cfg w req st).1.1 =
    Sent {| Response.status := 200; Response.body := DeploymentRow d |} →
  (∀ d', d' ∈ deployments (db st) → Deployment.app_id d' = Deployment.app_id d →
         Deployment.deployed_at d' < now w) →
  Request.target req' = get_overview → authorized cfg req' → pool_up w' = true →
  Z.of_nat (length (usage_events (db st))) ≤ int4_max →
  ∃ rows t st',
    serve cfg w' req' (serve cfg w req st).2 =
      (Sent {| Response.status := 200; Response.body := Overview rows |}, t, st') ∧
    (∃ r, r ∈ rows ∧ Some (o_slug r) = bind (field (Request.body req) "app_slug")) ∧
    ∀ r, r ∈ rows → Some (o_slug r) = bind (field (Request.body req) "app_slug") →
      o_deployed_at r = Some (now w) ∧
      o_environment r = Some (Deployment.environment d) ∧
      o_version r = Deployment.version d ∧
      o_note r = Deployment.note d.
Proof.
  intros Hcons Ht Hsent Hnew Ht' Hauth' Hup' Hfit.
  destruct (serve_accepted _ _ _ _ _ Hsent eq_refl) as [qs Hh].
  rewrite Ht in Hh. cbn [handler] in Hh.
  apply deployments_record_200 in Hh as (d0 & appId & Hbody & _ & Hhead & Hins); [|done].
  cbn in Hbody. injection Hbody as <-.
  apply insert_deployment_Ok in Hins as (Hdeps & Happs & Husage & Hd & _ & _).
  apply select_app_id_head in Hhead as (a & Ha & Hslug & Hid).
  set (st1 := (serve cfg w req st).2) in *.
  assert (Hda : Deployment.app_id d = App.id a) by (rewrite Hd; cbn; done).
  assert (Hdt : Deployment.deployed_at d = now w) by (rewrite Hd; cbn; done).
  rewrite serve_overview; [|done..|by rewrite Husage].
  eexists _, _, _. split; [done|].
  destruct (overview_rows_of (now w') (db st1) a) as [Hex Hrows].
  { rewrite Happs. apply Hcons. }
  { by rewrite Happs. }
  split.
  { destruct Hex as (r & Hr & Hrs). exists r. split; [done|]. by rewrite Hrs. }
  intros r Hr Hrs. rewrite <- Hslug in Hrs. injection Hrs as Hrs.
  destruct (Hrows r Hr Hrs) as (ld & u & Hld & _ & ->).
  apply elem_of_left_join in Hld. destruct ld as [z|].
  - destruct Hld as [Hz Hza]. apply last_deploy_sound in Hz as [Hz Hmax].
    assert (Hzd : z = d).
    { rewrite Hdeps in Hz. apply elem_of_app in Hz as [Hz|Hz].
      - assert (Deployment.deployed_at z < now w)
          by (apply Hnew; [done|by rewrite Hza, Hda]).
        assert (Deployment.deployed_at d ≤ Deployment.deployed_at z).
        { apply Hmax; [|by rewrite Hza, Hda]. rewrite Hdeps.
          apply elem_of_app. right. by left. }
        lia.
      - by apply list_elem_of_singleton in Hz. }
    subst z. cbn. by rewrite Hdt.
  - destruct (last_deploy_complete (db st1) d) as (z & Hz & Hzk).
    { rewrite Hdeps. apply elem_of_app. right. by left. }
    destruct (Hld z Hz). by rewrite Hzk.
Qed.

Lemma serve_stats (cfg : config) (w : world) (req : Request.t) (st : state) :
  Request.target req = get_stats → pool_up w = true →
  serve cfg w req st =
    (Sent {| Response.status := 200; Response.body := Stats (head (stats (now w) (db st))) |},
     [Entered get_stats; Sent_query q_stats], st).
Proof.
  intros Ht Hup.
  rewrite serve_handled; [|apply not_rate_limited; by rewrite Ht|].
  - rewrite Ht. cbn [handler]. unfold counted. rewrite Ht, decide_False by done.
    unfold api_stats, bind_M, read, query, json, ret. rewrite Hup. cbn.
    by rewrite state_eta.
  - rewrite Ht. unfold protected. cbn. by intros ?%elem_of_nil.
Qed.

(** X12.  A usage event that is recorded is counted by /api/stats for as
    long as the time of the request is within the 24 hours before the
    time of asking, and not after: the summary after the request has one
    hit more than the summary before it would have had at the same time,
    one error more when the status stored is 400 or above, and the other
    two counts are the same. *)
Theorem recorded_usage_is_counted_for_24_hours
    (cfg : config) (w w' : world) (req req' : Request.t) (st : state)
    (u : UsageEvent.t) :
  Request.target req = post_usage →
  (serve cfg w req st).1.1 =
    Sent {| Response.status := 200; Response.body := UsageRow u |} →
  Request.target req' = get_stats → pool_up w' = true →
  ∃ s s' t t' st',
    serve cfg w' req' st =
      (Sent {| Response.status := 200; Response.body := Stats (Some s) |}, t, st) ∧
    serve cfg w' req' (serve cfg w req st).2 =
      (Sent {| Response.status := 200; Response.body := Stats (Some s') |}, t', st') ∧
    hits_24h s' =
      hits_24h s + (if decide (now w' - 24 * hour_us ≤ now w) then 1 else 0) ∧
    errors_24h s' =
      errors_24h s +
      (if decide (now w' - 24 * hour_us ≤ now w ∧ is_error u) then 1 else 0) ∧
    total_apps s' = total_apps s ∧ deploys_7d s' = deploys_7d s.
Proof.
  intros Ht Hsent Ht' Hup'.
  destruct (serve_accepted _ _ _ _ _ Hsent eq_refl) as [qs Hh].
  rewrite Ht in Hh. cbn [handler] in Hh.
  apply usage_record_200 in Hh as (u0 & appId & Hbody & _ & _ & Hins); [|done].
  cbn in Hbody. injection Hbody as <-.
  apply insert_usage_event_Ok in Hins as (Hevs & Happs & Hdeps & Hu & _).
  rewrite !serve_stats by done. eexists _, _, _, _, _.
  split; [done|]. split; [done|]. cbn.
  assert (Hts : UsageEvent.ts u = now w) by (rewrite Hu; done).
  rewrite Hevs, Happs, Hdeps, !filter_app, !length_app, !filter_cons, !filter_nil, Hts.
  split; [|split; [|done]].
  - destruct (decide (now w' - 24 * hour_us ≤ now w)); cbn; lia.
  - destruct (decide (now w' - 24 * hour_us ≤ now w ∧ is_error u)); cbn; lia.
Qed.

(** X13.  Upserting a slug that is registered replaces the name and both
    URLs of its application and nothing else: the row keeps its id and
    its creation time, the other applications are as they were, and a
    URL that the request omits is erased, not kept. *)
Theorem upsert_replaces_name_and_urls
    (cfg : config) (w : world) (req : Request.t) (st : state) (old : App.t) :
  Request.target req = post_apps → authorized cfg req → pool_up w = true →
  truthy (field (Request.body req) "slug") = true →
  truthy (field (Request.body req) "name") = true →
  NoDup (App.slug <$> apps (db st)) →
  old ∈ apps (db st) →
  Some (App.slug old) = bind (field (Request.body req) "slug") →
  ∃ a,
    (serve cfg w req st).1.1 =
      Sent {| Response.status := 200; Response.body := AppRow a |} ∧
    identity a = identity old ∧
    Some (App.name a) = bind (field (Request.body req) "name") ∧
    App.repo_url a = bind (or_null (field (Request.body req) "repo_url")) ∧
    App.public_url a = bind (or_null (field (Request.body req) "public_url")) ∧
    (field (Request.body req) "repo_url" = JUndefined → App.repo_url a = None) ∧
    (field (Request.body req) "public_url" = JUndefined → App.public_url a = None) ∧
    apps (db (serve cfg w req st).2) =
      (λ b, if decide (b = old) then a else b) <$> apps (db st).
Proof.
  intros Ht Hauth Hup Hslug Hname Hkey Hold Hs.
  destruct (serve_post_apps cfg w req st Ht Hauth Hup Hslug Hname) as [-> ->].
  destruct (truthy_bind _ Hname) as [n Hn].
  unfold upsert_app.
  rewrite (to_text_not_null_Ok _ _ _ (eq_sym Hs)), (to_text_not_null_Ok _ _ _ Hn).
  destruct (filter_unique_key App.slug (App.slug old) (apps (db st)) Hkey)
    as [Hnone|[x Hone]].
  { rewrite filter_nil_iff in Hnone. by destruct (Hnone old Hold). }
  assert (Hx : x = old).
  { assert (Hin : old ∈ filter (λ a, App.slug a = App.slug old) (apps (db st)))
      by (by apply list_elem_of_filter).
    rewrite Hone in Hin. by apply list_elem_of_singleton in Hin. }
  subst x. rewrite Hone. cbn [fst snd set_apps apps].
  eexists. split; [done|]. split; [done|]. split; [done|].
  split; [done|]. split; [done|].
  split; [by intros ->|]. split; [by intros ->|].
  apply list_fmap_ext. intros _ b Hb%list_elem_of_lookup_2.
  destruct (decide (App.slug b = App.slug old)) as [Hsame|Hdiff].
  - assert (b = old) as -> by (by eapply unique_key_inj). by rewrite decide_True.
  - rewrite decide_False; [done|]. by intros ->.
Qed.

End overview_rows.

(** * The listings: the first rows of a sorted result *)

Lemma take_sorted_top {A : Type} (R : relation A) (k : nat) (l : list A) :
  StronglySorted R l →
  ∀ x, x ∈ l → x ∈ take k l ∨ ∀ r, r ∈ take k l → R r x.
Proof.
  intros Hs. revert k. induction Hs as [|y l Hs IH Hy]; intros k x Hx.
  { by apply elem_of_nil in Hx. }
  destruct k as [|k]; [right; by intros r ?%elem_of_nil|]. cbn [take].
  apply elem_of_cons in Hx as [->|Hx]; [left; by left|].
  destruct (IH k x Hx) as [Hin|Htop]; [left; by right|].
  right. intros r [->|Hr]%elem_of_cons; [|by apply Htop].
  rewrite Forall_forall in Hy. by apply Hy.
Qed.

Lemma elem_of_take_1 {A : Type} (k : nat) (l : list A) (x : A) :
  x ∈ take k l → x ∈ l.
Proof.
  intros Hx. rewrite <- (take_drop k l). apply elem_of_app. by left.
Qed.

Lemma StronglySorted_take {A : Type} (R : relation A) (k : nat) (l : list A) :
  StronglySorted R l → StronglySorted R (take k l).
Proof.
  intros Hs. revert k. induction Hs as [|y l Hs IH Hy]; intros k.
  { rewrite take_nil. constructor. }
  destruct k as [|k]; [constructor|]. cbn [take]. constructor; [apply IH|].
  rewrite Forall_forall in *. intros x Hx. apply Hy. by eapply elem_of_take_1.
Qed.

#[local] Instance newest_first_trans : Transitive newest_first.
Proof. intros r1 r2 r3; unfold newest_first; lia. Qed.

#[local] Instance newest_first_total : Total newest_first.
Proof. intros r1 r2; unfold newest_first; lia. Qed.

#[local] Instance latest_first_trans : Transitive latest_first.
Proof. intros r1 r2 r3; unfold latest_first; lia. Qed.

#[local] Instance latest_first_total : Total latest_first.
Proof. intros r1 r2; unfold latest_first; lia. Qed.

#[local] Instance hits_desc_trans : Transitive hits_desc.
Proof. intros r1 r2 r3; unfold hits_desc; lia. Qed.

#[local] Instance hits_desc_total : Total hits_desc.
Proof. intros r1 r2; unfold hits_desc; lia. Qed.

#[local] Instance total_desc_trans {K : Type} : Transitive (@total_desc K).
Proof. intros r1 r2 r3; unfold total_desc; lia. Qed.

#[local] Instance total_desc_total {K : Type} : Total (@total_desc K).
Proof. intros r1 r2; unfold total_desc; lia. Qed.

(** ** GET /api/dashboard/deployments *)

Lemma deployment_history_eq (db : database) :
  deployment_history db =
    take 50 (merge_sort newest_first
      (d ← deployments db;
       a ← filter (λ a, App.id a = Deployment.app_id d) (apps db);
       [history_of d a])).
Proof. done. Qed.

Lemma elem_of_history_join (db : database) (r : history_row) :
  r ∈ (d ← deployments db;
       a ← filter (λ a, App.id a = Deployment.app_id d) (apps db);
       [history_of d a]) ↔
  ∃ d a, d ∈ deployments db ∧ a ∈ apps db ∧ App.id a = Deployment.app_id d ∧
         r = history_of d a.
Proof.
  rewrite list_elem_of_bind. split.
  - intros (d & Hr & Hd). apply list_elem_of_bind in Hr as (a & Hr & Ha).
    apply list_elem_of_singleton in Hr. apply list_elem_of_filter in Ha as [Hid Ha].
    by exists d, a.
  - intros (d & a & Hd & Ha & Hid & ->). exists d. split; [|done].
    apply list_elem_of_bind. exists a. split; [by left|].
    by apply list_elem_of_filter.
Qed.

Lemma history_join_length (db : database) :
  consistent db →
  length (d ← deployments db;
          a ← filter (λ a, App.id a = Deployment.app_id d) (apps db);
          [history_of d a]) = length (deployments db).
Proof.
  intros Hc. pose proof (deployments_app_id_fkey _ Hc) as Hfk.
  induction (deployments db) as [|d l IH]; [done|].
  rewrite bind_cons, length_app, IH by (intros d' Hd'; apply Hfk; by right).
  cbn [length]. f_equal.
  destruct (filter_unique_key App.id (Deployment.app_id d) (apps db) (apps_pkey _ Hc))
    as [Hnone|[a ->]]; [|done].
  rewrite filter_nil_iff in Hnone.
  assert (Hd : Deployment.app_id d ∈ App.id <$> apps db) by (apply Hfk; by left).
  apply list_elem_of_fmap in Hd as (a & Hid & Ha). by destruct (Hnone a Ha).
Qed.

(** X14.  The deployment history lists at most 50 rows, newest first.
    Every row is a deployment with the name and slug of its application,
    and a deployment that is left out is no later than any that is
    listed.  Where the constraints of the schema hold, every deployment
    has exactly one row before the limit: the history has as many rows
    as there are deployments, up to 50. *)
Theorem deployment_history_lists_the_latest (db : database) :
  (length (deployment_history db) ≤ 50)%nat ∧
  StronglySorted newest_first (deployment_history db) ∧
  (∀ r, r ∈ deployment_history db →
     ∃ d a, d ∈ deployments db ∧ a ∈ apps db ∧ App.id a = Deployment.app_id d ∧
            r = history_of d a) ∧
  (∀ d a, d ∈ deployments db → a ∈ apps db → App.id a = Deployment.app_id d →
     history_of d a ∈ deployment_history db ∨
     ∀ r, r ∈ deployment_history db → Deployment.deployed_at d ≤ h_deployed_at r) ∧
  (consistent db →
     length (deployment_history db) = (50 `min` length (deployments db))%nat).
Proof.
  rewrite deployment_history_eq.
  set (rows := d ← deployments db;
               a ← filter (λ a, App.id a = Deployment.app_id d) (apps db);
               [history_of d a]).
  pose proof (StronglySorted_merge_sort newest_first rows) as Hs.
  pose proof (merge_sort_Permutation newest_first rows) as Hp.
  split; [rewrite length_take; lia|].
  split; [by apply StronglySorted_take|].
  split; [|split].
  - intros r Hr%elem_of_take_1. rewrite Hp in Hr. by apply elem_of_history_join.
  - intros d a Hd Ha Hid.
    destruct (take_sorted_top newest_first 50 _ Hs (history_of d a)) as [Hin|Htop].
    + rewrite Hp. apply elem_of_history_join. by exists d, a.
    + by left.
    + right. intros r Hr. apply (Htop r Hr).
  - intros Hc. rewrite length_take, Hp. unfold rows. by rewrite history_join_length.
Qed.

(** ** GET /api/dashboard/errors *)

Section error_feed.
Context `{Session}.

Lemma error_feed_eq (now : Z) (db : database) :
  error_feed now db =
    take 100 (merge_sort latest_first
      ((λ r : UsageEvent.t * App.t, error_of r.1 r.2) <$>
       usage_join_apps db
         (filter (λ e, is_error e ∧ now - 24 * hour_us ≤ UsageEvent.ts e)
            (usage_events db)))).
Proof. done. Qed.

Lemma elem_of_usage_join_apps (db : database) (l : list UsageEvent.t)
    (e : UsageEvent.t) (a : App.t) :
  (e, a) ∈ usage_join_apps db l ↔ e ∈ l ∧ a ∈ apps db ∧ App.id a = UsageEvent.app_id e.
Proof.
  unfold usage_join_apps. rewrite list_elem_of_bind. split.
  - intros (e' & Hr & He). apply list_elem_of_bind in Hr as (a' & Hr & Ha).
    apply list_elem_of_singleton in Hr as [= -> ->].
    apply list_elem_of_filter in Ha as [Hid Ha]. done.
  - intros (He & Ha & Hid). exists e. split; [|done].
    apply list_elem_of_bind. exists a. split; [by left|].
    by apply list_elem_of_filter.
Qed.

(** X15.  The error feed lists at most 100 rows, latest first.  Every row
    is a usage event of a registered application whose status is 400 or
    above and whose timestamp is within the 24 hours before now; an
    event with no status is never listed.  An event of that kind that is
    left out is no later than any that is listed. *)
Theorem error_feed_lists_the_latest_errors (now : Z) (db : database) :
  (length (error_feed now db) ≤ 100)%nat ∧
  StronglySorted latest_first (error_feed now db) ∧
  (∀ r, r ∈ error_feed now db →
     (∃ s, e_status r = Some s ∧ 400 ≤ s) ∧ now - 24 * hour_us ≤ e_ts r ∧
     ∃ e a, e ∈ usage_events db ∧ a ∈ apps db ∧ App.id a = UsageEvent.app_id e ∧
            r = error_of e a) ∧
  (∀ e a s, e ∈ usage_events db → a ∈ apps db → App.id a = UsageEvent.app_id e →
     UsageEvent.status e = Some s → 400 ≤ s → now - 24 * hour_us ≤ UsageEvent.ts e →
     error_of e a ∈ error_feed now db ∨
     ∀ r, r ∈ error_feed now db → UsageEvent.ts e ≤ e_ts r).
Proof.
  rewrite error_feed_eq.
  set (rows := (λ r : UsageEvent.t * App.t, error_of r.1 r.2) <$> _).
  pose proof (StronglySorted_merge_sort latest_first rows) as Hs.
  pose proof (merge_sort_Permutation latest_first rows) as Hp.
  split; [rewrite length_take; lia|].
  split; [by apply StronglySorted_take|].
  split.
  - intros r Hr%elem_of_take_1. rewrite Hp in Hr.
    apply list_elem_of_fmap in Hr as ([e a] & -> & Hr).
    apply elem_of_usage_join_apps in Hr as (He & Ha & Hid).
    apply list_elem_of_filter in He as [[Herr Hts] He]. cbn.
    split; [|split; [done|by exists e, a]].
    unfold is_error in Herr. destruct (UsageEvent.status e) as [s|]; [|done].
    by exists s.
  - intros e a s He Ha Hid Hst Hs400 Hts.
    destruct (take_sorted_top latest_first 100 _ Hs (error_of e a)) as [Hin|Htop].
    + rewrite Hp. apply (list_elem_of_fmap_2 (λ r : UsageEvent.t * App.t, error_of r.1 r.2)
                           _ (e, a)).
      apply elem_of_usage_join_apps. split; [|done].
      apply list_elem_of_filter. split; [|done]. split; [|done].
      unfold is_error. by rewrite Hst.
    + by left.
    + right. intros r Hr. apply (Htop r Hr).
Qed.

End error_feed.

(** ** GET /api/dashboard/routes *)

Lemma int4_Some (n m : Z) : int4 n = Some m → m = n.
Proof. unfold int4. destruct (_ && _); [|done]. by intros [= <-]. Qed.

Lemma route_select_Some (g : (option string * option string) * list UsageEvent.t)
    (r : route_row) :
  route_select g = Some r →
  r_path r = g.1.1 ∧ r_method r = g.1.2 ∧
  r_total_hits r = Z.of_nat (length g.2) ∧
  r_errors r = Z.of_nat (length (filter is_error g.2)) ∧
  r_avg_status r = avg_status g.2.
Proof.
  unfold route_select.
  destruct (int4 (Z.of_nat (length g.2))) as [hits|] eqn:Hh; cbn; [|done].
  destruct (int4 (Z.of_nat (length (filter is_error g.2)))) as [errs|] eqn:He;
    cbn; [|done].
  apply int4_Some in Hh, He. by intros [= <-].
Qed.

Lemma mapM_route_select (gs : list ((option string * option string) * list UsageEvent.t))
    (rows : list route_row) :
  mapM route_select gs = Some rows →
  (λ r, (r_path r, r_method r)) <$> rows = gs.*1 ∧
  ∀ r, r ∈ rows → ∃ g, g ∈ gs ∧ route_select g = Some r.
Proof.
  rewrite mapM_Some. induction 1 as [|g r gs rows Hgr _ [IHk IHr]].
  { split; [done|]. by intros r ?%elem_of_nil. }
  split.
  - rewrite !fmap_cons, IHk. f_equal.
    apply route_select_Some in Hgr as (-> & -> & _). by destruct g as [[] ?].
  - intros r' [->|Hr']%elem_of_cons.
    + exists g. split; [by left|done].
    + destruct (IHr r' Hr') as (g' & Hg' & Hsel). exists g'. split; [by right|done].
Qed.

(** X16.  The route breakdown lists at most 50 rows, by descending number
    of hits, one for each path and method: no two rows have the same
    path and method, and the path is never null.  A row counts the usage
    events of the trailing seven days on its path and method, at least
    one, and its errors are the ones of them with a status of 400 or
    above, so no more than the hits.  A path and method that are left
    out have no more hits than any that is listed. *)
Theorem route_breakdown_counts_every_route
    (now : Z) (db : database) (rows : list route_row) :
  route_breakdown now db = Ok rows →
  (length rows ≤ 50)%nat ∧
  StronglySorted hits_desc rows ∧
  NoDup ((λ r, (r_path r, r_method r)) <$> rows) ∧
  (∀ r, r ∈ rows →
     r_path r ≠ None ∧
     r_total_hits r = Z.of_nat (length (hits_on now db (r_path r) (r_method r))) ∧
     r_errors r =
       Z.of_nat (length (filter is_error (hits_on now db (r_path r) (r_method r)))) ∧
     1 ≤ r_total_hits r ∧ 0 ≤ r_errors r ≤ r_total_hits r) ∧
  (∀ e, e ∈ last_7_days now (usage_events db) → UsageEvent.path e ≠ None →
     (∃ r, r ∈ rows ∧ r_path r = UsageEvent.path e ∧ r_method r = UsageEvent.method e) ∨
     ∀ r, r ∈ rows →
       Z.of_nat (length (hits_on now db (UsageEvent.path e) (UsageEvent.method e)))
       ≤ r_total_hits r).
Proof.
  unfold route_breakdown.
  set (l := filter (λ e, UsageEvent.path e ≠ None) (last_7_days now (usage_events db))).
  set (key := λ e : UsageEvent.t, (UsageEvent.path e, UsageEvent.method e)).
  destruct (mapM route_select (group_by key l)) as [rows0|] eqn:Hrows0; [|done].
  intros [= <-].
  apply mapM_route_select in Hrows0 as [Hkeys Hrows0].
  pose proof (StronglySorted_merge_sort hits_desc rows0) as Hs.
  pose proof (merge_sort_Permutation hits_desc rows0) as Hp.
  assert (Hgroup : ∀ p m, p ≠ None →
            filter (λ e, key e = (p, m)) l = hits_on now db p m).
  { intros p m Hp0. unfold l, hits_on. rewrite list_filter_filter.
    apply list_filter_iff. intros e. unfold key. split.
    - by intros [? _].
    - intros Hk. split; [done|]. by injection Hk as -> _. }
  assert (Hrow : ∀ r, r ∈ rows0 →
            (r_path r, r_method r) ∈ key <$> l ∧ r_path r ≠ None ∧
            r_total_hits r = Z.of_nat (length (hits_on now db (r_path r) (r_method r))) ∧
            r_errors r =
              Z.of_nat (length (filter is_error (hits_on now db (r_path r) (r_method r))))).
  { intros r Hr. destruct (Hrows0 r Hr) as ([[p m] g] & Hg & Hsel).
    apply elem_of_group_by in Hg as [Hk ->].
    apply route_select_Some in Hsel as (Hpath & Hmeth & Hhits & Herrs & _).
    cbn in Hpath, Hmeth, Hhits, Herrs. rewrite Hpath, Hmeth.
    assert (Hnn : p ≠ None).
    { apply list_elem_of_fmap in Hk as (e & [= -> ->] & He).
      by apply list_elem_of_filter in He as [? _]. }
    rewrite <- Hgroup by done. done. }
  split; [rewrite length_take; lia|].
  split; [by apply StronglySorted_take|].
  split; [|split].
  - rewrite fmap_take. eapply sublist_NoDup; [|apply sublist_take].
    rewrite Hp, Hkeys, group_by_keys. apply NoDup_remove_dups.
  - intros r Hr%elem_of_take_1. rewrite Hp in Hr.
    destruct (Hrow r Hr) as (Hk & Hnn & Hhits & Herrs).
    do 3 (split; [done|]).
    pose proof (length_filter is_error (hits_on now db (r_path r) (r_method r))).
    assert (hits_on now db (r_path r) (r_method r) ≠ []).
    { rewrite <- Hgroup by done. by apply group_nonempty. }
    destruct (hits_on now db (r_path r) (r_method r)); [done|]. cbn [length] in *. lia.
  - intros e He Hnn.
    assert (Hk : key e ∈ key <$> l).
    { apply list_elem_of_fmap_2. by apply list_elem_of_filter. }
    assert (Hex : ∃ r0, r0 ∈ rows0 ∧ (r_path r0, r_method r0) = key e).
    { apply elem_of_remove_dups in Hk. rewrite <- group_by_keys, <- Hkeys in Hk.
      apply list_elem_of_fmap in Hk as (r0 & Hk & Hr0). by exists r0. }
    destruct Hex as (r0 & Hr0 & Hk0). injection Hk0 as Hp0 Hm0.
    destruct (take_sorted_top hits_desc 50 _ Hs r0) as [Hin|Htop].
    + by rewrite Hp.
    + left. by exists r0.
    + right. intros r Hr. specialize (Htop r Hr). unfold hits_desc in Htop.
      destruct (Hrow r0 Hr0) as (_ & _ & Hhits & _).
      rewrite Hp0, Hm0 in Hhits. by rewrite <- Hhits.
Qed.

(** ** The busiest applications of the analytics *)

Lemma count_int_sizes {K A : Type} (gs : list (K * list A)) (us : list (K * Z)) :
  count_int gs = Some us → us = sizes gs.
Proof.
  unfold count_int, sizes. rewrite mapM_Some.
  induction 1 as [|g u gs us Hgu _ IH]; [done|].
  rewrite fmap_cons, IH. f_equal.
  destruct (int4 _) as [n|] eqn:Hn; [|done]. apply int4_Some in Hn.
  injection Hgu as <-. by rewrite Hn.
Qed.

Lemma sum_take_le (k : nat) (l : list Z) :
  Forall (λ n, 0 ≤ n) l → sum (take k l) ≤ sum l.
Proof.
  intros Hl. revert k. induction Hl as [|n l Hn Hl IH]; intros k.
  { by rewrite take_nil. }
  destruct k as [|k]; unfold sum in *; cbn.
  - specialize (IH 0%nat). rewrite take_0 in IH. cbn in IH. lia.
  - specialize (IH k). lia.
Qed.

Lemma usage_join_apps_length_eq (db : database) (l : list UsageEvent.t) :
  consistent db → l ⊆ usage_events db →
  length (usage_join_apps db l) = length l.
Proof.
  intros Hc Hl. unfold usage_join_apps. induction l as [|e l IH]; [done|].
  rewrite bind_cons, length_app, IH by (intros e' He'; apply Hl; by right).
  cbn [length]. f_equal.
  destruct (filter_unique_key App.id (UsageEvent.app_id e) (apps db) (apps_pkey _ Hc))
    as [Hnone|[a ->]]; [|done].
  rewrite filter_nil_iff in Hnone.
  assert (He : UsageEvent.app_id e ∈ App.id <$> apps db).
  { apply (usage_events_app_id_fkey _ Hc), Hl. by left. }
  apply list_elem_of_fmap in He as (a & Hid & Ha). by destruct (Hnone a Ha).
Qed.

Lemma usage_join_apps_named (db : database) (l : list UsageEvent.t) (n : string) :
  consistent db → l ⊆ usage_events db →
  length (filter (λ r : UsageEvent.t * App.t, App.name r.2 = n) (usage_join_apps db l))
  = length (filter (λ e, App.name <$> app_of db e = Some n) l).
Proof.
  intros Hc Hl. unfold usage_join_apps. induction l as [|e l IH]; [done|].
  rewrite bind_cons, filter_app, length_app, IH by (intros e' He'; apply Hl; by right).
  rewrite (filter_cons _ e l).
  destruct (filter_unique_key App.id (UsageEvent.app_id e) (apps db) (apps_pkey _ Hc))
    as [Hnone|[a Hone]].
  { rewrite filter_nil_iff in Hnone.
    assert (He : UsageEvent.app_id e ∈ App.id <$> apps db).
    { apply (usage_events_app_id_fkey _ Hc), Hl. by left. }
    apply list_elem_of_fmap in He as (a & Hid & Ha). by destruct (Hnone a Ha). }
  assert (Happ : app_of db e = Some a) by (unfold app_of; by rewrite Hone).
  rewrite Hone, Happ. cbn [mbind list_bind app head fmap option_fmap option_map].
  rewrite filter_cons, filter_nil. cbn [snd].
  destruct (decide (App.name a = n)) as [Hn|Hn].
  - rewrite decide_True by (by rewrite Hn). done.
  - rewrite decide_False by (by intros [= ?]). done.
Qed.

Lemma app_of_Some (db : database) (e : UsageEvent.t) (a : App.t) :
  app_of db e = Some a → a ∈ apps db ∧ App.id a = UsageEvent.app_id e.
Proof.
  unfold app_of. destruct (filter _ (apps db)) as [|b l] eqn:E; [done|].
  intros [= ->].
  assert (Ha : a ∈ filter (λ a, App.id a = UsageEvent.app_id e) (apps db))
    by (rewrite E; left).
  by apply list_elem_of_filter in Ha as [? ?].
Qed.

(** X17.  On a database where the constraints of the schema hold, the
    [by_app] list of the analytics has at most 10 rows, by descending
    total, one for each application name.  The total of a row is the
    number of usage events of the trailing seven days that belong to an
    application of its name, and is 1 or more; a name with such events
    that is left out has no more of them than any name listed.  The
    totals add up to no more than the number of usage events of the seven
    days, and to exactly that number when the applications have no more
    than 10 names between them. *)
Theorem by_app_lists_the_busiest
    (now : Z) (db : database) (rows : list (string * Z)) :
  byAppQ now db = Ok rows → consistent db →
  (length rows ≤ 10)%nat ∧
  StronglySorted total_desc rows ∧
  NoDup rows.*1 ∧
  (∀ n t, (n, t) ∈ rows →
     t = Z.of_nat (length (hits_of_name now db n)) ∧ 1 ≤ t ∧
     ∃ a, a ∈ apps db ∧ App.name a = n) ∧
  (∀ n, hits_of_name now db n ≠ [] →
     n ∈ rows.*1 ∨
     ∀ r, r ∈ rows → Z.of_nat (length (hits_of_name now db n)) ≤ r.2) ∧
  sum rows.*2 ≤ Z.of_nat (length (last_7_days now (usage_events db))) ∧
  ((length (remove_dups (App.name <$> apps db)) ≤ 10)%nat →
   sum rows.*2 = Z.of_nat (length (last_7_days now (usage_events db)))).
Proof.
  unfold byAppQ.
  set (J := usage_join_apps db (last_7_days now (usage_events db))).
  set (key := λ r : UsageEvent.t * App.t, App.name r.2).
  destruct (count_int (group_by key J)) as [us|] eqn:Hus; [|done].
  intros [= <-] Hc. apply count_int_sizes in Hus. subst us.
  pose proof (StronglySorted_merge_sort total_desc (sizes (group_by key J))) as Hs.
  pose proof (merge_sort_Permutation total_desc (sizes (group_by key J))) as Hp.
  assert (Hsub : last_7_days now (usage_events db) ⊆ usage_events db).
  { intros e He. unfold last_7_days in He. by apply list_elem_of_filter in He as [_ ?]. }
  assert (HJ : length J = length (last_7_days now (usage_events db)))
    by (by apply usage_join_apps_length_eq).
  assert (Hcount : ∀ n, length (filter (λ r, key r = n) J)
                        = length (hits_of_name now db n))
    by (intros n; by apply usage_join_apps_named).
  assert (Hnames : ∀ n, n ∈ key <$> J → ∃ a, a ∈ apps db ∧ App.name a = n).
  { intros n ([e a] & -> & Hr)%list_elem_of_fmap.
    apply elem_of_usage_join_apps in Hr as (_ & Ha & _). by exists a. }
  assert (Hpos : Forall (λ n, 0 ≤ n) (merge_sort total_desc (sizes (group_by key J))).*2).
  { apply Forall_forall. intros n Hn. apply list_elem_of_fmap in Hn as ([k t] & -> & Hkt).
    rewrite Hp in Hkt. apply elem_of_sizes_group_by in Hkt as [_ ->]. cbn. lia. }
  assert (Hsum : sum (merge_sort total_desc (sizes (group_by key J))).*2
                 = Z.of_nat (length (last_7_days now (usage_events db)))).
  { rewrite (sum_Permutation _ _ (fmap_Permutation snd _ _ Hp)), sum_sizes_group_by.
    by rewrite HJ. }
  split; [rewrite length_take; lia|].
  split; [by apply StronglySorted_take|].
  split; [|split; [|split; [|split]]].
  - rewrite fmap_take. eapply sublist_NoDup; [|apply sublist_take].
    rewrite Hp, sizes_keys, group_by_keys. apply NoDup_remove_dups.
  - intros n t Hnt%elem_of_take_1. rewrite Hp in Hnt.
    apply elem_of_sizes_group_by in Hnt as [Hn ->].
    split; [by rewrite Hcount|]. split; [|by apply Hnames].
    pose proof (group_nonempty key J n Hn).
    destruct (filter _ J); [done|]. cbn [length]. lia.
  - intros n Hn.
    assert (Hk : n ∈ key <$> J).
    { destruct (hits_of_name now db n) as [|e l] eqn:E; [done|].
      assert (He : e ∈ hits_of_name now db n) by (rewrite E; left).
      apply list_elem_of_filter in He as [Hname He].
      destruct (app_of db e) as [a|] eqn:Ha; [|done]. injection Hname as Hname.
      apply app_of_Some in Ha as [Ha Hid].
      apply list_elem_of_fmap. exists (e, a). split; [done|].
      by apply elem_of_usage_join_apps. }
    assert (Hin : (n, Z.of_nat (length (hits_of_name now db n)))
                    ∈ merge_sort total_desc (sizes (group_by key J))).
    { rewrite Hp. apply elem_of_sizes_group_by. split; [done|]. by rewrite Hcount. }
    destruct (take_sorted_top total_desc 10 _ Hs _ Hin) as [Hrow|Htop].
    + left. by apply (list_elem_of_fmap_2 fst) in Hrow.
    + right. intros r Hr. apply (Htop r Hr).
  - rewrite fmap_take, <- Hsum. by apply sum_take_le.
  - intros Hfew. rewrite take_ge; [done|].
    rewrite Hp. unfold sizes. rewrite length_fmap.
    rewrite <- (length_fmap fst), group_by_keys.
    etrans; [|exact Hfew]. apply submseteq_length, NoDup_submseteq.
    + apply NoDup_remove_dups.
    + intros n Hn. rewrite elem_of_remove_dups in Hn. apply elem_of_remove_dups.
      destruct (Hnames n Hn) as (a & Ha & <-). by apply list_elem_of_fmap_2.
Qed.

(** * The summary and the dashboard *)

Lemma overview_join_hits (lds : list Deployment.t) (W : list UsageEvent.t)
    (l : list App.t) :
  NoDup (Deployment.app_id <$> lds) →
  o_hits_24h <$> overview_join lds (sizes (group_by UsageEvent.app_id W)) l =
  (λ a, Z.of_nat (length (filter (λ e, UsageEvent.app_id e = App.id a) W))) <$> l.
Proof.
  intros Hlds. unfold overview_join.
  induction l as [|a l IH]; [done|].
  rewrite bind_cons, fmap_app, IH, fmap_cons. f_equal.
  destruct (left_join_unique Deployment.app_id (App.id a) lds Hlds) as [ld ->].
  destruct (left_join_unique fst (App.id a) (sizes (group_by UsageEvent.app_id W)))
    as [u Hu].
  { rewrite sizes_keys, group_by_keys. apply NoDup_remove_dups. }
  assert (Hin : u ∈ left_join (λ u : Z * Z, u.1 = App.id a)
                     (sizes (group_by UsageEvent.app_id W))) by (rewrite Hu; left).
  cbn. rewrite Hu. cbn. f_equal.
  apply elem_of_left_join in Hin. destruct u as [[k n]|]; cbn.
  - destruct Hin as [Hkn Hk]. cbn in Hk. subst k.
    by apply elem_of_sizes_group_by in Hkn as [_ ->].
  - destruct (filter (λ e, UsageEvent.app_id e = App.id a) W) as [|e l'] eqn:E; [done|].
    assert (He : e ∈ e :: l') by left. rewrite <- E in He.
    apply list_elem_of_filter in He as [Hea He].
    destruct (Hin (App.id a, Z.of_nat (length
                (filter (λ e, UsageEvent.app_id e = App.id a) W)))); [|done].
    apply elem_of_sizes_group_by. split; [|done].
    rewrite <- Hea. by apply list_elem_of_fmap_2.
Qed.

Lemma length_filter_and {A : Type} (P Q : A → Prop)
    `{∀ x, Decision (P x)} `{∀ x, Decision (Q x)} (l : list A) :
  (length (filter (λ x, P x ∧ Q x) l) ≤ length (filter P l))%nat.
Proof.
  induction l as [|x l IH]; [done|]. rewrite !filter_cons.
  destruct (decide (P x)) as [HP|HP].
  - destruct (decide (P x ∧ Q x)); cbn [length]; lia.
  - rewrite decide_False by tauto. done.
Qed.

Section summary.
Context `{Session}.

(** X18.  At the same instant and on a database where the constraints of
    the schema hold, the summary of /api/stats agrees with the
    dashboard: [total_apps] is the number of rows of the overview,
    [hits_24h] is the sum of the [hits_24h] of these rows, [deploys_7d]
    is the [recent_deployments_count] of the analytics, and
    [errors_24h] is between 0 and [hits_24h]. *)
Theorem stats_agree_with_the_dashboard
    (now : Z) (db : database) (rows : list overview_row) (n : Z) :
  consistent db → overview now db = Ok rows → recentDeploysQ now db = Ok [n] →
  ∃ s, stats now db = [s] ∧
    total_apps s = Z.of_nat (length rows) ∧
    hits_24h s = sum (o_hits_24h <$> rows) ∧
    deploys_7d s = n ∧
    0 ≤ errors_24h s ≤ hits_24h s.
Proof.
  intros Hc Hrows Hn. eexists. split; [done|]. cbn.
  pose proof (overview_listed now db rows Hrows) as Hlisted.
  split; [|split; [|split]].
  - apply Permutation_length in Hlisted. rewrite !length_fmap in Hlisted.
    by rewrite Hlisted.
  - unfold overview in Hrows.
    destruct (usage_24h now db) as [us|] eqn:Hus; [|done]. injection Hrows as <-.
    apply count_int_sizes in Hus. subst us.
    rewrite (sum_Permutation _ _
               (fmap_Permutation o_hits_24h _ _ (merge_sort_Permutation name_order _))).
    rewrite overview_join_hits by apply last_deploy_NoDup.
    rewrite <- (sum_group_sizes UsageEvent.app_id (App.id <$> apps db)).
    + by rewrite <- list_fmap_compose.
    + apply Hc.
    + intros e [_ He]%list_elem_of_filter. by apply Hc.
  - unfold recentDeploysQ in Hn. destruct (int4 _) as [m|] eqn:Hm; [|done].
    apply int4_Some in Hm. by injection Hn as <-.
  - pose proof (length_filter_and (λ e, now - 24 * hour_us ≤ UsageEvent.ts e) is_error
                  (usage_events db)).
    lia.
Qed.

End summary.

(** * When the database cannot be reached *)

Section failures.
Context `{Session}.

Lemma handler_status (r : route) (body : gmap string jsval) (w : world)
    (db db' : database) (res : Response.t) (qs : list stmt) :
  handler r body w db = (Ok res, db', qs) →
  Response.status res ∈ [200; 400; 404; 503].
Proof.
  assert (H200 : (200 : Z) ∈ [200; 400; 404; 503]) by left.
  assert (H400 : (400 : Z) ∈ [200; 400; 404; 503]) by (right; left).
  assert (H404 : (404 : Z) ∈ [200; 400; 404; 503]) by (do 2 right; left).
  assert (H503 : (503 : Z) ∈ [200; 400; 404; 503]) by (do 3 right; left).
  destruct r; cbn [handler].
  - unfold health, try_catch, bind_M, read, query, json, ret.
    destruct (pool_up w); by intros [= <- _ _].
  - unfold apps_upsert, bind_M, query, json, ret.
    destruct (negb _ || negb _); [by intros [= <- _ _]|].
    destruct (pool_up w); [|done].
    destruct (upsert_app _ _ _ _ _ _) as [[a|e] db1]; [|done].
    by intros [= <- _ _].
  - unfold deployments_record, bind_M, read, query, json, ret.
    destruct (negb _); [by intros [= <- _ _]|].
    destruct (pool_up w) eqn:Hup; [|done]. cbn.
    destruct (head _) as [appId|]; [|by intros [= <- _ _]]. rewrite Hup.
    destruct (insert_deployment _ _ _ _ _ _ _) as [[d|e] db1]; [|done].
    by intros [= <- _ _].
  - unfold usage_record, bind_M, read, query, json, ret.
    destruct (negb _); [by intros [= <- _ _]|].
    destruct (pool_up w) eqn:Hup; [|done]. cbn.
    destruct (head _) as [appId|]; [|by intros [= <- _ _]]. rewrite Hup.
    destruct (insert_usage_event _ _ _ _ _ _ _ _ _ _) as [[u|e] db1]; [|done].
    by intros [= <- _ _].
  - unfold dashboard_overview, bind_M, read, query, json, ret.
    destruct (pool_up w); [|done]. destruct (overview _ _); [|done]. by intros [= <- _ _].
  - unfold dashboard_analytics, bind_M, both, read, query, json, ret.
    destruct (pool_up w); [|done].
    destruct (dailyQ (now w) db); destruct (byAppQ (now w) db);
      destruct (recentDeploysQ (now w) db); try done; by intros [= <- _ _].
  - unfold dashboard_deployments, bind_M, read, query, json, ret.
    destruct (pool_up w); [|done]. by intros [= <- _ _].
  - unfold dashboard_routes, bind_M, read, query, json, ret.
    destruct (pool_up w); [|done]. destruct (route_breakdown _ _); [|done].
    by intros [= <- _ _].
  - unfold dashboard_errors, bind_M, read, query, json, ret.
    destruct (pool_up w); [|done]. by intros [= <- _ _].
  - unfold admin_prune, bind_M, query, json, ret. destruct (pool_up w); [|done].
    destruct (prune _ _ _) as [[ids|e] db1]; [|done]. by intros [= <- _ _].
  - unfold api_stats, bind_M, read, query, json, ret.
    destruct (pool_up w); [|done]. by intros [= <- _ _].
Qed.

Lemma handler_down (r : route) (body : gmap string jsval) (w : world) (db : database) :
  pool_up w = false → r ≠ get_health →
  (handler r body w db).1.2 = db ∧
  (complete r body → (handler r body w db).1.1 = Err connection_failure) ∧
  (∀ res, (handler r body w db).1.1 = Ok res → ∃ code, res = error 400 code).
Proof.
  intros Hup Hr. destruct r; cbn [handler complete]; [done|..].
  - unfold apps_upsert, bind_M, query, json, ret.
    destruct (truthy (field body "slug")), (truthy (field body "name")); cbn;
      rewrite ?Hup; cbn; (split; [done|]); split;
      try (by intros [? ?]); try done; intros res [= <-]; by eexists.
  - unfold deployments_record, bind_M, read, query, json, ret.
    destruct (truthy (field body "app_slug")); cbn; rewrite ?Hup; cbn;
      (split; [done|]); split; try done; intros res [= <-]; by eexists.
  - unfold usage_record, bind_M, read, query, json, ret.
    destruct (truthy (field body "app_slug")); cbn; rewrite ?Hup; cbn;
      (split; [done|]); split; try done; intros res [= <-]; by eexists.
  - unfold dashboard_overview, bind_M, read, query, json, ret. by rewrite Hup.
  - unfold dashboard_analytics, bind_M, both, read, query, json, ret. by rewrite Hup.
  - unfold dashboard_deployments, bind_M, read, query, json, ret. by rewrite Hup.
  - unfold dashboard_routes, bind_M, read, query, json, ret. by rewrite Hup.
  - unfold dashboard_errors, bind_M, read, query, json, ret. by rewrite Hup.
  - unfold admin_prune, bind_M, query, json, ret. by rewrite Hup.
  - unfold api_stats, bind_M, read, query, json, ret. by rewrite Hup.
Qed.

(** The three ways a request can go: stopped by the limiter, stopped
    by the token check, or handled. *)
Lemma serve_cases (cfg : config) (w : world) (req : Request.t) (st : state) :
  (Request.target req = post_usage ∧
   serve cfg w req st =
     (Sent too_many_requests, [Ran use_usageLimiter],
      {| db := db st; usage_hits := counted w req (usage_hits st) |})) ∨
  (∃ s b, (s = 500 ∨ s = 401) ∧ protected (Request.target req) ∧
     serve cfg w req st =
       (Sent {| Response.status := s; Response.body := Error b |},
        Ran <$> stack (Request.target req),
        {| db := db st; usage_hits := counted w req (usage_hits st) |})) ∨
  serve cfg w req st =
    (match (handler (Request.target req) (Request.body req) w (db st)).1.1 with
     | Ok res => Sent res
     | Err e => Unhandled e
     end,
     (Ran <$> stack (Request.target req))
       ++ Entered (Request.target req)
       :: (Sent_query <$> (handler (Request.target req) (Request.body req) w (db st)).2),
     {| db := (handler (Request.target req) (Request.body req) w (db st)).1.2;
        usage_hits := counted w req (usage_hits st) |}).
Proof.
  destruct (rate_limited w req st) eqn:Hlim.
  { left. split; [|by apply serve_rate_limited].
    unfold rate_limited in Hlim. apply andb_true_iff in Hlim as [Ht _].
    by apply bool_decide_eq_true in Ht. }
  right.
  destruct (decide (protected (Request.target req))) as [Hprot|Hopen].
  - destruct (requireToken (DASHBOARD_TOKEN cfg) (Request.authorization req))
      as [|s b] eqn:Hreq.
    + right. rewrite serve_handled by done.
      by destruct (handler _ _ _ _) as [[r db1] qs].
    + left. exists s, b. split; [by eapply requireToken_status|].
      split; [done|]. by apply serve_rejected.
  - right. rewrite serve_handled by done.
    by destruct (handler _ _ _ _) as [[r db1] qs].
Qed.

(** X19.  When the pool cannot reach the database, /health is the one
    route that says so: it catches the failure and answers 503
    [unhealthy].  No other handler catches it: on every other route, a
    request that gets past the rate limiter and the token check and has
    the fields the handler requires ends with the handler rejecting with
    the connection failure, and whatever answer is sent is one of the
    error replies 400, 401, 429 and 500, never 200 and never 503.  The
    database is as it was. *)
Theorem only_health_reports_a_database_failure
    (cfg : config) (w : world) (req : Request.t) (st : state) :
  pool_up w = false →
  db (serve cfg w req st).2 = db st ∧
  (Request.target req = get_health →
     serve cfg w req st =
       (Sent {| Response.status := 503;
                Response.body := Unhealthy connection_failure |},
        [Entered get_health; Sent_query q_select_1], st)) ∧
  (Request.target req ≠ get_health →
     (rate_limited w req st = false →
      (protected (Request.target req) → authorized cfg req) →
      complete (Request.target req) (Request.body req) →
      (serve cfg w req st).1.1 = Unhandled connection_failure) ∧
     (∀ res, (serve cfg w req st).1.1 = Sent res →
        ∃ b, Response.body res = Error b ∧
             Response.status res ∈ [400; 401; 429; 500])).
Proof.
  intros Hup. split; [|split].
  - destruct (serve_effect cfg w req st) as [->| ->]; [done|].
    destruct (decide (Request.target req = get_health)) as [Ht|Ht].
    + rewrite Ht. cbn [handler].
      unfold health, try_catch, bind_M, read, query, json, ret. by rewrite Hup.
    + by apply handler_down.
  - intros Ht. rewrite serve_handled.
    + rewrite Ht. unfold counted. rewrite Ht, decide_False by done. cbn [handler stack].
      unfold health, try_catch, bind_M, read, query, json, ret. rewrite Hup. cbn.
      by rewrite state_eta.
    + apply not_rate_limited. by rewrite Ht.
    + rewrite Ht. unfold protected. cbn. by intros ?%elem_of_nil.
  - intros Ht.
    destruct (handler_down (Request.target req) (Request.body req) w (db st) Hup Ht)
      as (_ & Hrej & Hans).
    split.
    + intros Hlim Hauth Hfields. rewrite serve_handled by done.
      specialize (Hrej Hfields).
      destruct (handler _ _ _ _) as [[r db1] qs]. cbn in Hrej. by rewrite Hrej.
    + destruct (serve_cases cfg w req st) as [[_ ->]|[(s & b & Hs & _ & ->)| ->]].
      * intros res [= <-]. eexists. split; [done|]. cbn. do 2 right. left.
      * intros res [= <-]. eexists. split; [done|]. cbn.
        destruct Hs as [-> | ->]; [do 3 right; left|right; left].
      * cbn [fst]. destruct (handler _ _ _ _).1.1 as [r|e]; [|done].
        intros res [= <-]. destruct (Hans r eq_refl) as [code ->].
        eexists. split; [done|]. cbn. left.
Qed.

(** X20.  POST /api/usage is the only route with a rate limiter: a request
    to any other route leaves the hit counters as they were and is never
    answered 429, however many requests its client has sent. *)
Theorem only_usage_requests_are_limited
    (cfg : config) (w : world) (req : Request.t) (st : state) :
  Request.target req ≠ post_usage →
  usage_hits (serve cfg w req st).2 = usage_hits st ∧
  ∀ res, (serve cfg w req st).1.1 = Sent res → Response.status res ≠ 429.
Proof.
  intros Ht. split.
  { rewrite serve_usage_hits. unfold counted. by rewrite decide_False. }
  destruct (serve_cases cfg w req st) as [[Ht' _]|[(s & b & Hs & _ & ->)| ->]]; [done| |].
  - intros res [= <-]. cbn. lia.
  - cbn [fst].
    destruct (handler _ _ _ _) as [[[r|e] db1] qs] eqn:Hh; [|done].
    cbn. intros res [= <-]. apply handler_status in Hh.
    repeat (apply elem_of_cons in Hh as [->|Hh]; [done|]). by apply elem_of_nil in Hh.
Qed.

(** * Upserting twice *)

(** X23.  POST /api/apps is idempotent: the same request sent a second
    time is answered with the same row, and the applications after it
    are the applications before it. *)
Theorem upsert_is_idempotent
    (cfg : config) (w1 w2 : world) (req : Request.t) (st : state) :
  Request.target req = post_apps → authorized cfg req →
  pool_up w1 = true → pool_up w2 = true →
  truthy (field (Request.body req) "slug") = true →
  truthy (field (Request.body req) "name") = true →
  NoDup (App.slug <$> apps (db st)) →
  (serve cfg w2 req (serve cfg w1 req st).2).1.1 = (serve cfg w1 req st).1.1 ∧
  apps (db (serve cfg w2 req (serve cfg w1 req st).2).2)
  = apps (db (serve cfg w1 req st).2).
Proof.
  intros Ht Hauth Hup1 Hup2 Hslug Hname Hkey.
  destruct (serve_post_apps cfg w2 req (serve cfg w1 req st).2 Ht Hauth Hup2 Hslug Hname)
    as [-> ->].
  destruct (serve_post_apps cfg w1 req st Ht Hauth Hup1 Hslug Hname) as [-> ->].
  destruct (truthy_bind _ Hslug) as [s Hs]. destruct (truthy_bind _ Hname) as [n Hn].
  set (p3 := or_null (field (Request.body req) "repo_url")).
  set (p4 := or_null (field (Request.body req) "public_url")).
  destruct (upsert_app_row (now w1) _ _ p3 p4 s n (db st) Hs Hn Hkey)
    as (a & Hres & Hone & Hsa & Hna & Hra & Hpa & Hkey1 & _).
  rewrite Hres.
  set (db1 := (upsert_app (now w1) _ _ p3 p4 (db st)).2) in *.
  unfold upsert_app.
  rewrite (to_text_not_null_Ok _ _ _ Hs), (to_text_not_null_Ok _ _ _ Hn), Hone.
  cbn [fst snd set_apps apps].
  assert (Hsame : excluded n (bind p3) (bind p4) a = a).
  { destruct a. cbn in *. unfold excluded. cbn. by subst. }
  rewrite Hsame. split; [done|].
  rewrite <- (list_fmap_id (apps db1)) at 2. apply list_fmap_ext.
  intros _ b Hb%list_elem_of_lookup_2.
  destruct (decide (App.slug b = s)) as [Hbs|]; [|done].
  assert (Hin : b ∈ filter (λ a, App.slug a = s) (apps db1))
    by (by apply list_elem_of_filter).
  rewrite Hone in Hin. by apply list_elem_of_singleton in Hin as ->.
Qed.

End failures.

(** * The smaller version of the server *)

Section small.
Context `{Session}.

(** X21.  The smaller version of the server answers as the larger one on
    the five routes whose text they share, and makes the same change to
    the state.  It has no route for the route breakdown, the error feed,
    pruning and the summary: a request to one of them is answered 404
    and touches nothing.  Its /health answers 500, not 503, when the
    database cannot be reached. *)
Theorem small_server_against_the_larger
    (cfg : config) (w : world) (req : Request.t) (st : state) :
  (Request.target req ∈
     [post_apps; post_deployments; get_overview; get_analytics; get_deployments] →
   Small.serve cfg w req st = serve cfg w req st) ∧
  (Request.target req ∈ [get_routes; get_errors; post_prune; get_stats] →
   Small.serve cfg w req st =
     (Sent {| Response.status := 404; Response.body := Cannot |}, [], st)) ∧
  (Request.target req = get_health →
   Small.serve cfg w req st =
     (Sent (if pool_up w
            then {| Response.status := 200; Response.body := Connected |}
            else {| Response.status := 500;
                    Response.body := Disconnected connection_failure |}),
      [Entered get_health; Sent_query q_select_1], st)).
Proof.
  split; [|split].
  - intros Ht. unfold Small.serve, serve.
    destruct (Request.target req); try done;
      repeat (apply elem_of_cons in Ht as [?|Ht]; [done|]); by apply elem_of_nil in Ht.
  - intros Ht. unfold Small.serve.
    destruct (Request.target req); try done;
      repeat (apply elem_of_cons in Ht as [?|Ht]; [done|]); by apply elem_of_nil in Ht.
  - intros Ht. unfold Small.serve. rewrite Ht. cbn.
    unfold Small.health, try_catch, bind_M, read, query, json, ret.
    destruct (pool_up w); cbn; by rewrite state_eta.
Qed.

(** X22.  In the smaller version POST /api/usage has no rate limiter and
    its insert has no [error_message]: a request is never answered 429
    and leaves the hit counters as they were, and the row of an accepted
    request has a null [error_message] whatever the body says. *)
Theorem small_usage_has_no_limiter_and_no_error_message
    (cfg : config) (w : world) (req : Request.t) (st : state) :
  Request.target req = post_usage →
  usage_hits (Small.serve cfg w req st).2 = usage_hits st ∧
  (∀ res, (Small.serve cfg w req st).1.1 = Sent res → Response.status res ≠ 429) ∧
  (∀ res, (Small.serve cfg w req st).1.1 = Sent res → Response.status res = 200 →
     ∃ u, Response.body res = UsageRow u ∧
          u ∈ usage_events (db (Small.serve cfg w req st).2) ∧
          UsageEvent.error_message u = None).
Proof.
  intros Ht. unfold Small.serve. rewrite Ht. cbn [Small.stack run_stack run_middleware].
  destruct (requireToken _ _) as [|s b] eqn:Hreq; cbn.
  2:{ apply requireToken_status in Hreq.
      split; [done|]. split; intros res [= <-]; cbn; lia. }
  unfold Small.usage_record, bind_M, read, query, json, ret.
  destruct (negb _); cbn.
  { split; [done|]. split; by intros res [= <-]. }
  destruct (pool_up w) eqn:Hup; cbn; [|done].
  destruct (head _) as [appId|]; cbn.
  2:{ split; [done|]. split; by intros res [= <-]. }
  rewrite Hup.
  destruct (insert_usage_event _ _ _ _ _ _ _ _ _ _) as [[u|e] db1] eqn:Hins; cbn; [|done].
  split; [done|]. split; [by intros res [= <-]|].
  intros res [= <-] _. exists u. split; [done|].
  apply insert_usage_event_Ok in Hins as (Hevs & _ & _ & Hu & _).
  split; [rewrite Hevs; apply elem_of_app; right; by left|]. by rewrite Hu.
Qed.

End small.

(** * The theorems at work on the sample data *)

Import Sample.

#[local] Existing Instance session.

Lemma token_check_fails_closed_witness :
  ∃ t st',
    serve configured (at_time 1000) (request get_overview (Some "Bearer wrong") []) fresh =
      (Sent (error 401 "unauthorized"), t, st')
    ∧ stopped t ∧ db st' = db fresh.
Proof.
  destruct (token_check_fails_closed configured (at_time 1000)
              (request get_overview (Some "Bearer wrong") []) fresh) as [Hserve _].
  - right. vm_compute. discriminate.
  - apply Hserve. unfold protected. vm_compute. by left.
Defined.

(** C1 as stated fails where the rate limiter answers first: the server
    has no token, the route is protected, and the response is 429, not
    500. *)
Lemma token_check_counterexample :
  protected post_usage ∧
  unset (DASHBOARD_TOKEN unconfigured) ∧
  (serve unconfigured (at_time 2000) (request post_usage None []) hundred_hits).1.1
    = Sent too_many_requests ∧
  (serve unconfigured (at_time 2000) (request post_usage None []) hundred_hits).1.1
    ≠ Sent (error 500 "server_not_configured").
Proof.
  split; [unfold protected; vm_compute; right; by left|].
  split; [by left|].
  assert (Hserve : (serve unconfigured (at_time 2000) (request post_usage None [])
                      hundred_hits).1.1 = Sent too_many_requests) by (by vm_compute).
  split; [done|]. rewrite Hserve. discriminate.
Qed.

Lemma unknown_slug_is_not_found_witness :
  ∃ st',
    serve configured (at_time 2000)
      (request post_deployments bearer [("app_slug", JStr "shop")]) blog =
      (Sent (error 404 "app_not_found"),
       [Ran use_requireToken; Entered post_deployments; Sent_query q_select_app_id],
       st') ∧
    db st' = db blog.
Proof.
  apply (unknown_slug_is_not_found configured (at_time 2000)
           (request post_deployments bearer [("app_slug", JStr "shop")]) blog).
  - by left.
  - by vm_compute.
  - by vm_compute.
  - done.
  - by vm_compute.
  - intros a Ha. vm_compute in Ha. apply list_elem_of_singleton in Ha as ->. by vm_compute.
Defined.

(** C2 as stated fails at two requests that carry the configured token and
    whose [app_slug] is the slug of no application: one has the empty
    string for [app_slug], which is present and falsy, and is answered
    400; the other is a usage event that the rate limiter answers with
    429. *)
Lemma unknown_slug_counterexample :
  (authorized configured (request post_deployments bearer [("app_slug", JStr "")]) ∧
   Request.body (request post_deployments bearer [("app_slug", JStr "")]) !! "app_slug"
     = Some (JStr "") ∧
   (∀ a, a ∈ apps (db blog) → App.slug a ≠ "") ∧
   (serve configured (at_time 2000)
      (request post_deployments bearer [("app_slug", JStr "")]) blog).1.1
     = Sent (error 400 "app_slug_required")) ∧
  (authorized configured (request post_usage bearer [("app_slug", JStr "shop")]) ∧
   (∀ a, a ∈ apps (db hundred_hits) → App.slug a ≠ "shop") ∧
   (serve configured (at_time 2000)
      (request post_usage bearer [("app_slug", JStr "shop")]) hundred_hits).1.1
     = Sent too_many_requests).
Proof.
  split; [split; [by vm_compute|split; [by vm_compute|split]]|
          split; [by vm_compute|split]].
  - intros a Ha. vm_compute in Ha. apply list_elem_of_singleton in Ha as ->. by vm_compute.
  - by vm_compute.
  - intros a Ha. vm_compute in Ha. by apply elem_of_nil in Ha.
  - by vm_compute.
Qed.

Lemma upsert_twice_keeps_one_row_witness :
  ∃ a,
    filter (λ a, App.slug a = "blog")
      (apps (db (after configured
         [(at_time 1000, request post_apps bearer [("slug", JStr "blog"); ("name", JStr "Blog")]);
          (at_time 2000, request post_apps bearer [("slug", JStr "blog"); ("name", JStr "Journal")])]
         fresh))) = [a] ∧
    App.name a = "Journal".
Proof.
  destruct (upsert_twice_keeps_one_row configured (at_time 1000) (at_time 2000)
           (request post_apps bearer [("slug", JStr "blog"); ("name", JStr "Blog")])
           (request post_apps bearer [("slug", JStr "blog"); ("name", JStr "Journal")])
           fresh "blog" "Blog" "Journal")
    as (a1 & a & _ & _ & Hrow & Hname); try (by vm_compute).
  - apply NoDup_nil_2.
  - by exists a.
Defined.

Lemma optional_fields_are_stored_when_truthy_witness :
  ∃ d, d ∈ deployments (db (serve configured (at_time 2000)
         (request post_deployments bearer
            [("app_slug", JStr "blog"); ("version", JStr "v1"); ("note", JStr "")])
         blog).2) ∧
       Deployment.environment d = "prod" ∧
       Deployment.version d = Some "v1" ∧
       Deployment.note d = None ∧
       Deployment.deployed_by d = None.
Proof.
  destruct (optional_fields_are_stored_when_truthy configured (at_time 2000)
              (request post_deployments bearer
                 [("app_slug", JStr "blog"); ("version", JStr "v1"); ("note", JStr "")])
              blog
              {| Response.status := 200;
                 Response.body := DeploymentRow
                   {| Deployment.id := 1; Deployment.app_id := 1;
                      Deployment.environment := "prod";
                      Deployment.version := Some "v1"; Deployment.note := None;
                      Deployment.deployed_by := None;
                      Deployment.deployed_at := 2000000 |} |})
    as (_ & Hdep & _); [by vm_compute|done|].
  destruct (Hdep eq_refl) as (d & Hbody & Hin & [Henv _] & [_ Hver] & [Hnote _] & [Hby _]).
  exists d. split; [done|]. split; [by apply Henv|].
  split; [by apply Hver|]. split; [by apply Hnote|by apply Hby].
Defined.

(** C9 as stated fails for a field that is supplied with a falsy value:
    a usage event sent with [status: 0] is accepted, and the row stored
    has a null status. *)
Lemma optional_fields_counterexample :
  Request.body (request post_usage bearer [("app_slug", JStr "blog"); ("status", JNum (num 0))])
    !! "status" = Some (JNum (num 0)) ∧
  ∃ u,
    serve configured (at_time 2000)
      (request post_usage bearer [("app_slug", JStr "blog"); ("status", JNum (num 0))]) blog
    = (Sent {| Response.status := 200; Response.body := UsageRow u |},
       [Ran use_usageLimiter; Ran use_requireToken; Entered post_usage;
        Sent_query q_select_app_id; Sent_query q_insert_usage_event],
       {| db := set_usage_events [u] 2 (db blog);
          usage_hits := {[ "203.0.113.7" := {| totalHits := 1; resetTime := 62000 |} ]} |}) ∧
    UsageEvent.status u = None ∧ UsageEvent.status u ≠ Some 0.
Proof.
  split; [by vm_compute|]. eexists. split; [by vm_compute|]. done.
Qed.

Lemma token_enforced_except_health_and_stats_witness :
  serve configured (at_time 6000) (request get_stats None []) busy_blog =
    (Sent {| Response.status := 200;
             Response.body :=
               Stats (Some {| total_apps := 1; hits_24h := 2;
                              errors_24h := 1; deploys_7d := 2 |}) |},
     [Entered get_stats; Sent_query q_stats], busy_blog).
Proof.
  destruct (token_enforced_except_health_and_stats configured (at_time 6000)
              (request get_stats None []) busy_blog eq_refl eq_refl)
    as (_ & _ & Hstats & _).
  exact (Hstats eq_refl).
Defined.

Lemma usage_limiter_runs_before_token_check_witness :
  (serve configured (at_time 2000) (request post_usage (Some "Bearer wrong") [])
     hundred_hits).1
  = (Sent too_many_requests, [Ran use_usageLimiter]).
Proof.
  destruct (usage_limiter_runs_before_token_check configured (at_time 2000)
              (request post_usage (Some "Bearer wrong") []) hundred_hits eq_refl)
    as (out & t & db1 & hit & Hserve & _ & _ & Hfull & _).
  rewrite Hserve. destruct Hfull as (-> & -> & _); [by vm_compute|done].
Defined.

Lemma overview_shows_the_latest_deployment_witness :
  ∃ rows t,
    serve configured (at_time 6000) (request get_overview bearer []) busy_blog =
      (Sent {| Response.status := 200; Response.body := Overview rows |}, t, busy_blog) ∧
    ∀ r, r ∈ rows → o_slug r = "blog" →
      ∃ d, d ∈ deployments (db busy_blog) ∧
        (∀ d', d' ∈ deployments (db busy_blog) → Deployment.app_id d' = 1 →
               Deployment.deployed_at d' ≤ Deployment.deployed_at d) ∧
        o_version r = Deployment.version d ∧ o_note r = Deployment.note d.
Proof.
  destruct (overview_shows_the_latest_deployment configured (at_time 6000)
              (request get_overview bearer []) busy_blog blog_app)
    as (rows & t & Hserve & _ & Hrows).
  - done.
  - by vm_compute.
  - done.
  - by vm_compute.
  - vm_compute. apply NoDup_singleton.
  - vm_compute. by left.
  - eexists. split; [vm_compute; by left|done].
  - exists rows, t. split; [done|]. intros r Hr Hslug.
    destruct (Hrows r Hr Hslug) as (d & Hd & _ & Hmax & _ & _ & Hv & Hn).
    exists d. split; [exact Hd|]. split; [exact Hmax|]. split; [exact Hv|exact Hn].
Defined.

Lemma overview_counts_the_hits_of_24_hours_witness :
  ∃ rows t,
    serve configured (at_time 6000) (request get_overview bearer []) busy_blog =
      (Sent {| Response.status := 200; Response.body := Overview rows |}, t, busy_blog) ∧
    ∀ r, r ∈ rows → o_slug r = "blog" → o_hits_24h r = 2.
Proof.
  destruct (overview_counts_the_hits_of_24_hours configured (at_time 6000)
              (request get_overview bearer []) busy_blog blog_app)
    as (rows & t & Hserve & _ & Hrows).
  - done.
  - by vm_compute.
  - done.
  - by vm_compute.
  - vm_compute. apply NoDup_singleton.
  - vm_compute. by left.
  - exists rows, t. split; [done|]. intros r Hr Hslug.
    destruct (Hrows r Hr Hslug) as [-> _]. by vm_compute.
Defined.

Lemma daily_totals_add_up_witness :
  ∃ daily by_app recent t,
    serve configured (at_time 6000) (request get_analytics bearer []) busy_blog =
      (Sent {| Response.status := 200;
               Response.body := Analytics daily by_app recent |}, t, busy_blog) ∧
    sum daily.*2 = 2.
Proof.
  destruct (daily_totals_add_up configured (at_time 6000)
              (request get_analytics bearer []) busy_blog)
    as (daily & by_app & recent & t & Hserve & Hsum & _).
  - done.
  - by vm_compute.
  - done.
  - by vm_compute.
  - by vm_compute.
  - vm_compute. apply NoDup_singleton.
  - exists daily, by_app, recent, t. split; [done|]. rewrite Hsum. by vm_compute.
Defined.


(** A hypothesis that holds by evaluation on the sample data. *)
Ltac evaluated :=
  first [by vm_compute | vm_compute; by left | vm_compute; right; by left].

Lemma blog_consistent : consistent (db blog).
Proof. apply reachable_consistent, consistent_empty. Qed.

Lemma busy_blog_consistent : consistent (db busy_blog).
Proof. apply reachable_consistent, blog_consistent. Qed.

Lemma reading_routes_never_write_witness :
  db (serve configured (at_time 6000) (request get_overview bearer []) busy_blog).2
  = db busy_blog.
Proof.
  apply reading_routes_never_write. unfold reads_only. cbn. right. left.
Defined.

Lemma error_answers_change_nothing_witness :
  db (serve configured (at_time 6000)
        (request post_apps (Some "Bearer wrong")
           [("slug", JStr "shop"); ("name", JStr "Shop")]) busy_blog).2
  = db busy_blog.
Proof.
  apply (error_answers_change_nothing _ _ _ _ (error 401 "unauthorized"));
    [by vm_compute|done].
Defined.

Lemma accepted_authorization_headers_witness :
  authorized configured (request get_overview (Some "bEARER  s3cret") []) ∧
  authorized configured (request get_overview (Some "s3cret") []).
Proof.
  split.
  - apply (accepted_authorization_headers _ _ "s3cret" "bEARER  s3cret"); [done..|].
    left. exists "bEARER", "  ". split; [done|]. split; [by vm_compute|]. done.
  - apply (accepted_authorization_headers _ _ "s3cret" "s3cret"); [done..|].
    right. split; [done|by vm_compute].
Defined.

Lemma required_fields_are_checked_first_witness :
  (serve configured (outage 2000)
     (request post_deployments bearer [("version", JStr "v1")]) blog).1
  = (Sent (error 400 "app_slug_required"),
     [Ran use_requireToken; Entered post_deployments]).
Proof.
  rewrite (required_fields_are_checked_first _ _ _ _ "app_slug_required");
    [done|by vm_compute|by vm_compute|].
  right. split; [by left|]. split; [done|by vm_compute].
Defined.

Lemma null_environment_is_not_recorded_witness :
  (serve configured (at_time 2000)
     (request post_deployments bearer
        [("app_slug", JStr "blog"); ("environment", JNull)]) blog).1.1
  = Unhandled (not_null_violation "environment") ∧
  deployments (db (serve configured (at_time 2000)
     (request post_deployments bearer
        [("app_slug", JStr "blog"); ("environment", JNull)]) blog).2) = [].
Proof.
  destruct (null_environment_is_not_recorded configured (at_time 2000)
              (request post_deployments bearer
                 [("app_slug", JStr "blog"); ("environment", JNull)]) blog blog_app)
    as (Hout & _ & Hdeps & _); [evaluated..|].
  split; [by rewrite Hout|]. by rewrite Hdeps.
Defined.

Lemma status_out_of_range_is_not_stored_witness :
  (serve configured (at_time 2000)
     (request post_usage bearer
        [("app_slug", JStr "blog"); ("status", JNum (num 3000000000))]) blog).1.1
  = Unhandled numeric_value_out_of_range ∧
  db (serve configured (at_time 2000)
     (request post_usage bearer
        [("app_slug", JStr "blog"); ("status", JNum (num 3000000000))]) blog).2 = db blog.
Proof.
  apply (status_out_of_range_is_not_stored configured (at_time 2000) _ blog blog_app
           (num 3000000000)); [evaluated..|right; by vm_compute].
Defined.

Lemma prune_with_null_days_deletes_nothing_witness :
  serve configured (at_time 6000) (request post_prune bearer [("days", JNull)]) busy_blog
  = (Sent {| Response.status := 200; Response.body := Pruned 0 JNull |},
     [Ran use_requireToken; Entered post_prune; Sent_query q_prune], busy_blog).
Proof.
  apply prune_with_null_days_deletes_nothing; evaluated.
Defined.

Lemma prune_out_of_range_is_refused_witness :
  serve configured (at_time 6000)
    (request post_prune bearer [("days", JNum (num 4000000))]) busy_blog
  = (Unhandled datetime_field_overflow,
     [Ran use_requireToken; Entered post_prune; Sent_query q_prune], busy_blog).
Proof.
  apply (prune_out_of_range_is_refused _ _ _ _ (num 4000000)); [evaluated..| |].
  - left. by vm_compute.
  - do 2 right. left. by vm_compute.
Defined.

Lemma overview_has_one_row_per_application_witness :
  ∃ rows, overview 6000000 (db busy_blog) = Ok rows ∧
          o_listed <$> rows ≡ₚ listed <$> apps (db busy_blog).
Proof.
  destruct (overview 6000000 (db busy_blog)) as [rows|e] eqn:E; [|by vm_compute in E].
  exists rows. split; [done|].
  by destruct (overview_has_one_row_per_application _ _ _ E).
Defined.

Lemma recorded_deployment_shows_in_overview_witness :
  ∃ rows t st',
    serve configured (at_time 3000) (request get_overview bearer [])
      (serve configured (at_time 2000)
         (request post_deployments bearer [("app_slug", JStr "blog"); ("version", JStr "v1")])
         blog).2
    = (Sent {| Response.status := 200; Response.body := Overview rows |}, t, st') ∧
    ∃ r, r ∈ rows ∧ o_slug r = "blog" ∧ o_deployed_at r = Some 2000000 ∧
         o_environment r = Some "prod" ∧ o_version r = Some "v1".
Proof.
  destruct (recorded_deployment_shows_in_overview configured (at_time 2000) (at_time 3000)
              (request post_deployments bearer
                 [("app_slug", JStr "blog"); ("version", JStr "v1")])
              (request get_overview bearer []) blog
              {| Deployment.id := 1; Deployment.app_id := 1;
                 Deployment.environment := "prod"; Deployment.version := Some "v1";
                 Deployment.note := None; Deployment.deployed_by := None;
                 Deployment.deployed_at := 2000000 |})
    as (rows & t & st' & Hserve & (r & Hr & Hslug) & Hrow);
    [apply blog_consistent|evaluated|evaluated| |evaluated..|].
  { intros d' Hd'. vm_compute in Hd'. by apply elem_of_nil in Hd'. }
  exists rows, t, st'. split; [done|]. exists r. split; [done|].
    destruct (Hrow r Hr Hslug) as (Hat & Henv & Hver & _).
    vm_compute in Hslug. injection Hslug as Hslug.
    split; [done|]. split; [done|]. split; [done|]. done.
Defined.

Lemma recorded_usage_is_counted_for_24_hours_witness :
  ∃ s s' t t' st',
    serve configured (at_time 5000) (request get_stats None []) blog
    = (Sent {| Response.status := 200; Response.body := Stats (Some s) |}, t, blog) ∧
    serve configured (at_time 5000) (request get_stats None [])
      (serve configured (at_time 4000)
         (request post_usage bearer
            [("app_slug", JStr "blog"); ("path", JStr "/feed"); ("status", JNum (num 500))])
         blog).2
    = (Sent {| Response.status := 200; Response.body := Stats (Some s') |}, t', st') ∧
    hits_24h s' = hits_24h s + 1 ∧ errors_24h s' = errors_24h s + 1.
Proof.
  destruct (recorded_usage_is_counted_for_24_hours configured (at_time 4000) (at_time 5000)
              (request post_usage bearer
                 [("app_slug", JStr "blog"); ("path", JStr "/feed"); ("status", JNum (num 500))])
              (request get_stats None []) blog
              {| UsageEvent.id := 1; UsageEvent.app_id := 1; UsageEvent.ts := 4000000;
                 UsageEvent.kind := "request"; UsageEvent.method := None;
                 UsageEvent.path := Some "/feed"; UsageEvent.status := Some 500;
                 UsageEvent.ip := None; UsageEvent.user_agent := None;
                 UsageEvent.error_message := None |})
    as (s & s' & t & t' & st' & Hbefore & Hafter & Hhits & Herrs & _);
    [evaluated..|].
  exists s, s', t, t', st'. split; [done|]. split; [done|].
  rewrite Hhits, Herrs. split; [done|].
  rewrite decide_True; [done|]. split; [by vm_compute|]. by vm_compute.
Defined.

Lemma upsert_replaces_name_and_urls_witness :
  ∃ a,
    (serve configured (at_time 2000)
       (request post_apps bearer [("slug", JStr "blog"); ("name", JStr "Journal")])
       blog).1.1
    = Sent {| Response.status := 200; Response.body := AppRow a |} ∧
    identity a = identity blog_app ∧ App.name a = "Journal" ∧ App.repo_url a = None.
Proof.
  destruct (upsert_replaces_name_and_urls configured (at_time 2000)
              (request post_apps bearer [("slug", JStr "blog"); ("name", JStr "Journal")])
              blog blog_app)
    as (a & Hserve & Hid & Hname & _ & _ & Hrepo & _);
    [evaluated..|vm_compute; apply NoDup_singleton|evaluated|evaluated|].
  exists a. split; [done|]. split; [done|].
  vm_compute in Hname. injection Hname as Hname. split; [done|]. by apply Hrepo.
Defined.

Lemma deployment_history_lists_the_latest_witness :
  length (deployment_history (db busy_blog)) = 2%nat.
Proof.
  destruct (deployment_history_lists_the_latest (db busy_blog)) as (_ & _ & _ & _ & Hlen).
  rewrite Hlen; [by vm_compute|apply busy_blog_consistent].
Defined.

Lemma route_breakdown_counts_every_route_witness :
  ∃ rows, route_breakdown 6000000 (db busy_blog) = Ok rows ∧
          NoDup ((λ r, (r_path r, r_method r)) <$> rows) ∧
          ∀ r, r ∈ rows → 1 ≤ r_total_hits r ∧ 0 ≤ r_errors r ≤ r_total_hits r.
Proof.
  destruct (route_breakdown 6000000 (db busy_blog)) as [rows|e] eqn:E;
    [|by vm_compute in E].
  exists rows. split; [done|].
  destruct (route_breakdown_counts_every_route _ _ _ E) as (_ & _ & Hnd & Hrow & _).
  split; [exact Hnd|]. intros r Hr.
  destruct (Hrow r Hr) as (_ & _ & _ & Hone & Herr). split; [exact Hone|exact Herr].
Defined.

Lemma by_app_lists_the_busiest_witness :
  ∃ rows, byAppQ 6000000 (db busy_blog) = Ok rows ∧ sum rows.*2 = 2 ∧
          ∀ n t, (n, t) ∈ rows →
                 t = Z.of_nat (length (hits_of_name 6000000 (db busy_blog) n)).
Proof.
  destruct (byAppQ 6000000 (db busy_blog)) as [rows|e] eqn:E; [|by vm_compute in E].
  exists rows. split; [reflexivity|].
  destruct (by_app_lists_the_busiest _ _ _ E busy_blog_consistent)
    as (_ & _ & _ & Hrow & _ & _ & Hsum).
  split.
  - rewrite Hsum; [by vm_compute|vm_compute; lia].
  - intros n t Hnt. destruct (Hrow n t Hnt) as [Ht _]. exact Ht.
Defined.

Lemma stats_agree_with_the_dashboard_witness :
  ∃ rows s, overview 6000000 (db busy_blog) = Ok rows ∧
            stats 6000000 (db busy_blog) = [s] ∧
            hits_24h s = sum (o_hits_24h <$> rows) ∧ deploys_7d s = 2.
Proof.
  destruct (overview 6000000 (db busy_blog)) as [rows|e] eqn:E; [|by vm_compute in E].
  destruct (stats_agree_with_the_dashboard 6000000 (db busy_blog) rows 2
              busy_blog_consistent E)
    as (s & Hs & _ & Hhits & Hdeps & _); [by vm_compute|].
  exists rows, s. split; [reflexivity|]. split; [exact Hs|].
  split; [exact Hhits|exact Hdeps].
Defined.

Lemma only_health_reports_a_database_failure_witness :
  serve configured (outage 6000) (request get_health None []) busy_blog
  = (Sent {| Response.status := 503; Response.body := Unhealthy connection_failure |},
     [Entered get_health; Sent_query q_select_1], busy_blog) ∧
  (serve configured (outage 6000) (request get_overview bearer []) busy_blog).1.1
  = Unhandled connection_failure.
Proof.
  split.
  - by apply (only_health_reports_a_database_failure configured (outage 6000)
                (request get_health None []) busy_blog).
  - destruct (only_health_reports_a_database_failure configured (outage 6000)
                (request get_overview bearer []) busy_blog eq_refl)
      as (_ & _ & Hother).
    destruct Hother as [Hrej _]; [done|].
    apply Hrej; [by vm_compute| |exact I]. intros _. by vm_compute.
Defined.

Lemma only_usage_requests_are_limited_witness :
  usage_hits (serve unconfigured (at_time 2000) (request get_overview None [])
                hundred_hits).2 = usage_hits hundred_hits ∧
  ∀ res, (serve unconfigured (at_time 2000) (request get_overview None [])
            hundred_hits).1.1 = Sent res → Response.status res ≠ 429.
Proof. by apply only_usage_requests_are_limited. Defined.

Lemma small_server_against_the_larger_witness :
  Small.serve configured (at_time 6000) (request get_stats None []) busy_blog
  = (Sent {| Response.status := 404; Response.body := Cannot |}, [], busy_blog).
Proof.
  apply small_server_against_the_larger. cbn. do 3 right. left.
Defined.

Lemma small_usage_has_no_limiter_and_no_error_message_witness :
  ∃ u,
    u ∈ usage_events (db (Small.serve configured (at_time 4000)
           (request post_usage bearer
              [("app_slug", JStr "blog"); ("error_message", JStr "boom")]) blog).2) ∧
    UsageEvent.error_message u = None.
Proof.
  destruct (small_usage_has_no_limiter_and_no_error_message configured (at_time 4000)
              (request post_usage bearer
                 [("app_slug", JStr "blog"); ("error_message", JStr "boom")]) blog)
    as (_ & _ & Hrow); [done|].
  destruct (Hrow {| Response.status := 200;
                    Response.body := UsageRow
                      {| UsageEvent.id := 1; UsageEvent.app_id := 1;
                         UsageEvent.ts := 4000000; UsageEvent.kind := "request";
                         UsageEvent.method := None; UsageEvent.path := None;
                         UsageEvent.status := None; UsageEvent.ip := None;
                         UsageEvent.user_agent := None;
                         UsageEvent.error_message := None |} |})
    as (u & _ & Hu & Hmsg); [by vm_compute|done|].
  by exists u.
Defined.

Lemma upsert_is_idempotent_witness :
  apps (db (serve configured (at_time 2000)
              (request post_apps bearer [("slug", JStr "blog"); ("name", JStr "Blog")])
              (serve configured (at_time 1000)
                 (request post_apps bearer [("slug", JStr "blog"); ("name", JStr "Blog")])
                 fresh).2).2)
  = apps (db (serve configured (at_time 1000)
                (request post_apps bearer [("slug", JStr "blog"); ("name", JStr "Blog")])
                fresh).2).
Proof.
  apply upsert_is_idempotent; [evaluated..|apply NoDup_nil_2].
Defined.
